(** * dbt build command: a shallow embedding of cmd/build.go

    The development follows the Go source of the [build] sub-command
    (package [cmd]): argument classification, target normalization,
    the configuration directory name, the restricted parser of [BUILD.go]
    files, wildcard expansion and the hand-off to Ninja.

    The sources hold the file at two revisions. The later one (dbt v0.1.8:
    flags are the arguments with an = sign, [prepareGenerator],
    [normalizeTarget], the listing and the wildcards) is the one embedded
    below. The earlier one (src/cmd/build.go, dbt v0.1.1) has the same
    [parseBuildFile] and the same hash of the flags; its argument loop is
    embedded in module [rev011] at the end of the definitions.

    Go strings are byte strings and are modelled by [string]; Go maps used
    as sets ([map[string]struct{}]) are modelled by [gset string]; [uint32]
    values are modelled by [Z] with the masks written out. *)

From Stdlib Require Import ZArith Ascii.
From stdpp Require Import base gmap sets list strings sorting pretty.

Local Open Scope Z_scope.

(** ** The parts of Go's [strings] package used by the command *)

Module strings.

(** [len(s)] *)
Definition len (s : string) : nat := String.length s.

(** [strings.HasPrefix(s, prefix)] *)
Fixpoint HasPrefix (s prefix : string) : bool :=
  match prefix, s with
  | EmptyString, _ => true
  | String _ _, EmptyString => false
  | String p prefix', String c s' =>
      if decide (p = c) then HasPrefix s' prefix' else false
  end.

(** [s[n:]], for [n <= len(s)] *)
Fixpoint drop (n : nat) (s : string) : string :=
  match n, s with
  | O, _ => s
  | S _, EmptyString => EmptyString
  | S n', String _ s' => drop n' s'
  end.

(** [s[:n]], for [n <= len(s)] *)
Fixpoint take (n : nat) (s : string) : string :=
  match n, s with
  | O, _ => EmptyString
  | S _, EmptyString => EmptyString
  | S n', String c s' => String c (take n' s')
  end.

(** [strings.HasSuffix(s, suffix)]:
    [len(s) >= len(suffix) && s[len(s)-len(suffix):] == suffix] *)
Definition HasSuffix (s suffix : string) : bool :=
  bool_decide (len suffix <= len s)%nat
  && bool_decide (drop (len s - len suffix) s = suffix).

(** [strings.TrimPrefix(s, prefix)] *)
Definition TrimPrefix (s prefix : string) : string :=
  if HasPrefix s prefix then drop (len prefix) s else s.

(** [strings.TrimSuffix(s, suffix)] *)
Definition TrimSuffix (s suffix : string) : string :=
  if HasSuffix s suffix then take (len s - len suffix) s else s.

(** [strings.Contains(s, substr)] *)
Fixpoint Contains (s substr : string) : bool :=
  HasPrefix s substr
  || match s with
     | EmptyString => false
     | String _ s' => Contains s' substr
     end.

(** membership of a byte in a cutset *)
Fixpoint inCutset (c : ascii) (cutset : string) : bool :=
  match cutset with
  | EmptyString => false
  | String d cutset' => bool_decide (c = d) || inCutset c cutset'
  end.

(** [strings.TrimLeft(s, cutset)] *)
Fixpoint TrimLeft (s cutset : string) : string :=
  match s with
  | EmptyString => EmptyString
  | String c s' => if inCutset c cutset then TrimLeft s' cutset else s
  end.

(** [strings.Join(elems, sep)] *)
Fixpoint Join (elems : list string) (sep : string) : string :=
  match elems with
  | [] => EmptyString
  | [e] => e
  | e :: rest => e +:+ sep +:+ Join rest sep
  end.

(** [strings.Split(s, sep)] for a separator [sep] of one byte, which is
    all the command passes ("=", "\n", "/"). The result is never empty. *)
Fixpoint Split (s : string) (sep : ascii) : list string :=
  match s with
  | EmptyString => [EmptyString]
  | String c s' =>
      if decide (c = sep) then EmptyString :: Split s' sep
      else match Split s' sep with
           | x :: xs => String c x :: xs
           | [] => [String c EmptyString]
           end
  end.

(** [sort.Strings]: the ascending arrangement of the slice under Go's
    byte-wise string order. *)
Definition Sort (l : list string) : list string := merge_sort String.le l.

End strings.

(** ** [hash/crc32], IEEE polynomial, and the [%08X] verb *)

Module crc32.

Definition IEEE : Z := 0xedb88320.

Definition mask32 (x : Z) : Z := Z.land x 0xffffffff.

(** [^x] on [uint32] *)
Definition not32 (x : Z) : Z := Z.lxor (mask32 x) 0xffffffff.

(** the inner loop of [simplePopulateTable] *)
Fixpoint tableLoop (j : nat) (crc : Z) : Z :=
  match j with
  | O => crc
  | S j' =>
      tableLoop j'
        (if Z.testbit crc 0 then Z.lxor (Z.shiftr crc 1) IEEE
         else Z.shiftr crc 1)
  end.

(** [IEEETable[i]] *)
Definition IEEETable (i : Z) : Z := tableLoop 8 i.

Definition byteOf (c : ascii) : Z := Z.of_N (N_of_ascii c).

(** the loop of [simpleUpdate]: [crc = tab[byte(crc)^v] ^ (crc >> 8)] *)
Fixpoint updateLoop (crc : Z) (p : string) : Z :=
  match p with
  | EmptyString => crc
  | String v p' =>
      updateLoop
        (Z.lxor (IEEETable (Z.lxor (Z.land crc 0xff) (byteOf v)))
                (Z.shiftr crc 8))
        p'
  end.

Definition Update (crc : Z) (p : string) : Z :=
  not32 (updateLoop (not32 crc) p).

Definition ChecksumIEEE (data : string) : Z := Update 0 data.

End crc32.

Module fmt.

Definition upperHex (d : Z) : ascii :=
  match d with
  | 0 => "0" | 1 => "1" | 2 => "2" | 3 => "3" | 4 => "4" | 5 => "5"
  | 6 => "6" | 7 => "7" | 8 => "8" | 9 => "9" | 10 => "A" | 11 => "B"
  | 12 => "C" | 13 => "D" | 14 => "E" | _ => "F"
  end%char.

Fixpoint hexDigits (n : nat) (v : Z) (acc : string) : string :=
  match n with
  | O => acc
  | S n' => hexDigits n' (v / 16) (String (upperHex (v mod 16)) acc)
  end.

(** [fmt.Sprintf("%08X", v)] for a [uint32] value [v]: eight upper-case
    hexadecimal digits. *)
Definition Sprintf_08X (v : Z) : string := hexDigits 8 v EmptyString.

End fmt.

(** ** Constants of the command *)

Definition buildDirName : string := "BUILD".
Definition buildFileName : string := "BUILD.go".
Definition buildFilesDirName : string := "buildfiles".
Definition initFileName : string := "init.go".
Definition mainFileName : string := "main.go".
Definition modFileName : string := "go.mod".
Definition ninjaFileName : string := "build.ninja".
Definition outputDirName : string := "output".
Definition RulesDirName : string := "RULES".

(** ** The configuration name ([prepareGenerator], the hash of the flags)

<<
  sort.Strings(info.buildFlags)
  buildConfigHash := crc32.ChecksumIEEE([]byte(strings.Join(info.buildFlags, "#")))
  buildConfigName := fmt.Sprintf("%s-%08X", buildDirName, buildConfigHash)
>> *)

Definition buildConfigHash (sortedFlags : list string) : Z :=
  crc32.ChecksumIEEE (strings.Join sortedFlags "#").

Definition buildConfigName (buildFlags : list string) : string :=
  buildDirName +:+ "-" +:+ fmt.Sprintf_08X (buildConfigHash (strings.Sort buildFlags)).

(** ** The parts of Go's [path] package used by the command

    [path.Clean] is given by its documented rules, applied to the
    slash-separated elements of the path: empty and [.] elements are
    dropped, an inner [..] removes the element before it, a [..] at the
    start of a rooted path is dropped and at the start of a relative path
    is kept; the empty result is [.]. *)

Module path.

(** one element of the path, [out] being the elements written so far,
    last one first *)
Definition cleanStep (rooted : bool) (out : list string) (elem : string)
  : list string :=
  if decide (elem = "") then out
  else if decide (elem = ".") then out
  else if decide (elem = "..") then
    match out with
    | top :: out' =>
        if decide (top = "..") then ".." :: out else out'
    | [] => if rooted then [] else [".."]
    end
  else elem :: out.

Definition Clean (p : string) : string :=
  if decide (p = "") then "."
  else
    let rooted := strings.HasPrefix p "/" in
    let out := fold_left (cleanStep rooted) (strings.Split p "/") [] in
    let body := strings.Join (rev out) "/" in
    if rooted then "/" +:+ body
    else if decide (body = "") then "." else body.

(** [path.Join(elem...)]: the non-empty elements joined by slashes and
    cleaned; the empty string when there is none. *)
Definition Join (elem : list string) : string :=
  match filter (λ e, e ≠ "") elem with
  | [] => ""
  | nonEmpty => Clean (strings.Join nonEmpty "/")
  end.

(** [strings.LastIndexByte(s, c)], -1 when [c] does not occur *)
Fixpoint LastIndexByte (s : string) (c : ascii) : Z :=
  match s with
  | EmptyString => -1
  | String d s' =>
      let r := LastIndexByte s' c in
      if 0 <=? r then r + 1
      else if decide (d = c) then 0 else -1
  end.

(** [path.Split(path)]: [path[:i+1], path[i+1:]] with [i] the index of
    the last slash *)
Definition Split (p : string) : string * string :=
  let i := LastIndexByte p "/" in
  (strings.take (Z.to_nat (i + 1)) p, strings.drop (Z.to_nat (i + 1)) p).

(** [path.Dir(path)] *)
Definition Dir (p : string) : string := Clean (fst (Split p)).

End path.

(** ** The syntax tree of a definition file ([go/ast], as far as
    [parseBuildFile] inspects it) *)

Module ast.

(** [token.Token] of a general declaration *)
Inductive Token := IMPORT | CONST | TYPE | VAR.

Definition Token_String (t : Token) : string :=
  match t with
  | IMPORT => "import" | CONST => "const" | TYPE => "type" | VAR => "var"
  end.

(** [ast.Spec]: [*ast.ImportSpec], [*ast.ValueSpec] (its [Names]) or
    [*ast.TypeSpec] *)
Inductive Spec :=
| ImportSpec (Path : string)
| ValueSpec (Names : list string)
| TypeSpec (Name : string).

(** [ast.Decl]: [*ast.BadDecl], [*ast.GenDecl] or [*ast.FuncDecl] *)
Inductive Decl :=
| BadDecl
| GenDecl (Tok : Token) (Specs : list Spec)
| FuncDecl (Name : string).

Record File := { Name : string; Decls : list Decl }.

End ast.

(** ** Effects: what an invocation does to the outside, and how it ends *)

(** The causes of [log.Fatal] in the command. *)
Inductive FatalError :=
| FailedToParse (buildFilePath : string)
| InvalidDeclarations (buildFilePath : string)
| AnonymousTarget (buildFilePath : string)
| SearchFailed (moduleName : string)
| CopyRulesFailed (moduleName : string)
| TargetDoesNotExist (target : string)
| NoTargetMatching (target : string)
| FlagDoesNotExist (name : string)
| GeneratorFailed (mode : string)
| NinjaFailed.

(** What is written to a file: bytes, or one of the generated files, given
    by the values substituted into its template. *)
Inductive Content :=
| Bytes (data : string)
| InitFile (packageName : string) (targets : list string)
| MainFile (packages : list string)
| ModFile (moduleName : string) (modules : list string) (pathPrefix : string).

Inductive Event :=
| Stdout (text : string)
| RemoveDir (dir : string)
| WriteFile (filePath : string) (content : Content)
| CopyFile (src dst : string)
| Exec (name : string) (args : list string) (dir : string).

Inductive Exit (A : Type) :=
| Return (a : A)
| Fatal (e : FatalError).
Arguments Return {A} a.
Arguments Fatal {A} e.

(** A computation yields the events it performed, in order, and either a
    value or the fatal error that terminated the process. [log.Debug]
    lines are not recorded. *)
Record M (A : Type) := mkM { trace : list Event; exit : Exit A }.
Arguments mkM {A} trace exit.
Arguments trace {A} m.
Arguments exit {A} m.

Global Instance M_ret : MRet M := λ A a, mkM [] (Return a).

Global Instance M_bind : MBind M := λ A B f m,
  match exit m with
  | Return a => mkM (trace m ++ trace (f a)) (exit (f a))
  | Fatal e => mkM (trace m) (Fatal e)
  end.

Definition emit (e : Event) : M unit := mkM [e] (Return ()).
Definition fatal {A} (e : FatalError) : M A := mkM [] (Fatal e).

(** [for _, x := range l { s = body(s, x) }] where the body may be fatal *)
Fixpoint forRange {A S} (body : S → A → M S) (s : S) (l : list A) : M S :=
  match l with
  | [] => mret s
  | x :: l' => s' ← body s x; forRange body s' l'
  end.

(** The result of running a child process to completion. *)
Record ProcResult := { stdout : string; stderr : string; failed : bool }.

(** The surroundings of one invocation: the helpers of packages [util],
    [module] and [log], the file system as the walks see it, [go/parser]
    and [os/exec]. *)
Record World := {
  GetWorkingDir : string;
  GetWorkspaceRoot : string;
  GetModuleRootForPath : string → string;
  DepsDirName : string;
  (** [module.GetAllModulePaths(workspaceRoot)], as ranged over *)
  GetAllModulePaths : list (string * string);
  (** the [BUILD.go] files [util.WalkSymlink] collects under a module, and
      whether the walk returned an error *)
  WalkBuildFiles : string → list string * bool;
  (** [parser.ParseFile]; [None] is a parse error *)
  ParseFile : string → option ast.File;
  DirExists : string → bool;
  (** the [.go] files [filepath.Walk] visits under a rules directory, and
      whether the walk returned an error *)
  WalkRuleFiles : string → list string * bool;
  (** [exec.Command(name, args...)] run in [dir] *)
  Run : string → list string → string → ProcResult;
  Verbose : bool
}.

Record buildInfo := {
  workingDir : string;
  sourceDir : string;
  buildOutputDir : string;
  buildFilesDir : string;
  buildFlags : list string;
  targets : list string;
  ninjaTargets : list string
}.

Definition newline : string := String "010"%char EmptyString.

(** ** The command *)

(** [normalizeTarget] *)
Definition normalizeTarget (w : World) (target : string) : string :=
  if strings.HasPrefix target "//" then strings.TrimLeft target "/"
  else
    let endsWithSlash :=
      strings.HasSuffix target "/" || bool_decide (target = "") in
    let target := path.Join [GetWorkingDir w; target] in
    let moduleRoot := GetModuleRootForPath w target in
    let target := strings.TrimPrefix target (path.Dir moduleRoot) in
    let target := if endsWithSlash then target +:+ "/" else target in
    strings.TrimLeft target "/".

(** [parseBuildFile]: the loop over [spec.Names] *)
Definition parseNames (buildFilePath : string)
    (targets : list string) (Names : list string) : M (list string) :=
  forRange (λ targets id,
      if decide (id = "_") then fatal (AnonymousTarget buildFilePath)
      else mret (targets ++ [id]))
    targets Names.

(** [parseBuildFile]: the loop over [decl.Specs] *)
Definition parseSpecs (buildFilePath : string) (Tok : ast.Token)
    (targets : list string) (Specs : list ast.Spec) : M (list string) :=
  forRange (λ targets spec,
      match spec with
      | ast.ImportSpec _ => mret targets
      | ast.ValueSpec Names =>
          if decide (ast.Token_String Tok ≠ "var")
          then fatal (InvalidDeclarations buildFilePath)
          else parseNames buildFilePath targets Names
      | ast.TypeSpec _ => fatal (InvalidDeclarations buildFilePath)
      end)
    targets Specs.

(** [parseBuildFile]: the loop over [fileAst.Decls] *)
Definition parseDecls (buildFilePath : string)
    (targets : list string) (Decls : list ast.Decl) : M (list string) :=
  forRange (λ targets decl,
      match decl with
      | ast.GenDecl Tok Specs => parseSpecs buildFilePath Tok targets Specs
      | _ => fatal (InvalidDeclarations buildFilePath)
      end)
    targets Decls.

Definition parseBuildFile (w : World) (buildFilePath : string)
  : M (string * list string) :=
  match ParseFile w buildFilePath with
  | None => fatal (FailedToParse buildFilePath)
  | Some fileAst =>
      targets ← parseDecls buildFilePath [] (ast.Decls fileAst);
      mret (ast.Name fileAst, targets)
  end.

Definition copyBuildAndRuleFiles (w : World)
    (moduleName modulePath buildFilesDir : string) (modules : list string)
  : M (list string) :=
  _ ← emit (WriteFile (path.Join [buildFilesDir; modFileName])
                      (ModFile moduleName modules ".."));
  let '(buildFiles, err) := WalkBuildFiles w modulePath in
  if err then fatal (SearchFailed moduleName)
  else
    packages ← forRange (λ packages buildFile,
        let relativeFilePath :=
          strings.TrimPrefix buildFile (modulePath +:+ "/") in
        let relativeDirPath :=
          strings.TrimSuffix (path.Dir relativeFilePath) "/" in
        let packages := packages ++ [path.Join [moduleName; relativeDirPath]] in
        '(packageName, targets) ← parseBuildFile w buildFile;
        _ ← emit (WriteFile
                    (path.Join [buildFilesDir; relativeDirPath; initFileName])
                    (InitFile packageName targets));
        _ ← emit (CopyFile buildFile
                    (path.Join [buildFilesDir; relativeFilePath]));
        mret packages)
      [] buildFiles;
    let rulesDirPath := path.Join [modulePath; RulesDirName] in
    if negb (DirExists w rulesDirPath) then mret packages
    else
      let '(ruleFiles, err) := WalkRuleFiles w rulesDirPath in
      _ ← forRange (λ _ filePath,
          let relativeFilePath :=
            strings.TrimPrefix filePath (modulePath +:+ "/") in
          emit (CopyFile filePath (path.Join [buildFilesDir; relativeFilePath])))
        () ruleFiles;
      if err then fatal (CopyRulesFailed moduleName) else mret packages.

Definition createGeneratorMainFile (buildFilesDir : string)
    (packages modules : list string) : M unit :=
  _ ← emit (WriteFile (path.Join [buildFilesDir; mainFileName])
                      (MainFile packages));
  emit (WriteFile (path.Join [buildFilesDir; modFileName])
                  (ModFile "root" modules ".")).

(** [prepareGenerator]: the loop that splits the arguments. It fills
    [buildFlags] and [targets] of [info]. *)
Definition splitArgs (w : World) (info : buildInfo) (args : list string)
  : buildInfo :=
  fold_left (λ info arg,
      if strings.Contains arg "="
      then {| workingDir := workingDir info; sourceDir := sourceDir info;
              buildOutputDir := buildOutputDir info;
              buildFilesDir := buildFilesDir info;
              buildFlags := buildFlags info ++ [arg];
              targets := targets info;
              ninjaTargets := ninjaTargets info |}
      else {| workingDir := workingDir info; sourceDir := sourceDir info;
              buildOutputDir := buildOutputDir info;
              buildFilesDir := buildFilesDir info;
              buildFlags := buildFlags info;
              targets := targets info ++ [normalizeTarget w arg];
              ninjaTargets := ninjaTargets info |})
    args info.

Definition prepareGenerator (w : World) (args : list string) : M buildInfo :=
  let workspaceRoot := GetWorkspaceRoot w in
  let info :=
    splitArgs w
      {| workingDir := GetWorkingDir w;
         sourceDir := path.Join [workspaceRoot; DepsDirName w];
         buildOutputDir := ""; buildFilesDir := "";
         buildFlags := []; targets := []; ninjaTargets := [] |}
      args in
  let sortedFlags := strings.Sort (buildFlags info) in
  let buildDir :=
    path.Join [workspaceRoot; buildDirName; buildConfigName (buildFlags info)] in
  let info :=
    {| workingDir := workingDir info; sourceDir := sourceDir info;
       buildOutputDir := path.Join [buildDir; outputDirName];
       buildFilesDir := path.Join [buildDir; buildFilesDirName];
       buildFlags := sortedFlags;
       targets := targets info;
       ninjaTargets := ninjaTargets info |} in
  _ ← emit (RemoveDir (buildFilesDir info));
  let modules := GetAllModulePaths w in
  packages ← forRange (λ packages '(modName, modPath),
      let modBuildfilesDir := path.Join [buildFilesDir info; modName] in
      modulePackages ←
        copyBuildAndRuleFiles w modName modPath modBuildfilesDir modules.*1;
      mret (packages ++ modulePackages))
    [] modules;
  _ ← createGeneratorMainFile (buildFilesDir info) packages modules.*1;
  mret info.

Definition runGenerator (w : World) (info : buildInfo) (mode : string)
  : M string :=
  let cmdArgs :=
    ["run"; mainFileName; mode; sourceDir info; buildOutputDir info;
     workingDir info] ++ buildFlags info in
  let r := Run w "go" cmdArgs (buildFilesDir info) in
  _ ← emit (Exec "go" cmdArgs (buildFilesDir info));
  _ ← emit (Stdout (stderr r));
  if failed r then fatal (GeneratorFailed mode) else mret (stdout r).

Definition getAvailable (w : World) (kind : string) (info : buildInfo)
  : M (gset string) :=
  stdout ← runGenerator w info kind;
  let lines := strings.Split stdout "010" in
  mret (fold_left (λ (result : gset string) line,
            if decide (line ≠ "") then {[line]} ∪ result else result)
          lines ∅).

Definition getAvailableTargets (w : World) (info : buildInfo) :=
  getAvailable w "targets" info.

Definition getAvailableFlags (w : World) (info : buildInfo) :=
  getAvailable w "flags" info.

Definition runNinja (w : World) (info : buildInfo) : M unit :=
  ninjaFileContent ← runGenerator w info "ninja";
  _ ← emit (WriteFile (path.Join [buildOutputDir info; ninjaFileName])
                      (Bytes ninjaFileContent));
  let args :=
    if Verbose w then "-v" :: ninjaTargets info else ninjaTargets info in
  _ ← emit (Exec "ninja" args (buildOutputDir info));
  if failed (Run w "ninja" args (buildOutputDir info))
  then fatal NinjaFailed else mret ().

(** [runBuild]: one iteration of the loop over [info.targets]. A Go map
    is ranged over in an unspecified order; the wildcard loop only inserts
    into a set, so the order does not show in its result. *)
Definition expandTarget (availableTargets uniqueNinjaTargets : gset string)
    (target : string) : M (gset string) :=
  if negb (strings.HasSuffix target "...") then
    if decide (target ∈ availableTargets)
    then mret ({[target]} ∪ uniqueNinjaTargets)
    else fatal (TargetDoesNotExist target)
  else
    let targetPrefix := strings.TrimSuffix target "..." in
    let '(found, uniqueNinjaTargets) :=
      fold_left (λ '(found, unique) availableTarget,
          if strings.HasPrefix availableTarget targetPrefix
          then (true, {[availableTarget]} ∪ unique)
          else (found, unique))
        (elements availableTargets) (false, uniqueNinjaTargets) in
    if negb found then fatal (NoTargetMatching target)
    else mret uniqueNinjaTargets.

(** [runBuild]: the loop over [info.buildFlags] *)
Definition checkFlags (availableFlags : gset string) (flags : list string)
  : M unit :=
  forRange (λ _ flag,
      let name := hd "" (strings.Split flag "=") in
      if decide (name ∈ availableFlags) then mret ()
      else fatal (FlagDoesNotExist name))
    () flags.

(** [runBuild]: the listing printed when no target is given *)
Definition printAvailable (availableTargets availableFlags : gset string)
  : M unit :=
  _ ← emit (Stdout (newline +:+ "Available targets:" +:+ newline));
  _ ← forRange (λ _ target, emit (Stdout ("  //" +:+ target +:+ newline)))
        () (elements availableTargets);
  _ ← emit (Stdout (newline +:+ "Available flags:" +:+ newline));
  forRange (λ _ flag, emit (Stdout ("  " +:+ flag +:+ "=" +:+ newline)))
    () (elements availableFlags).

(** [runBuild]: from the expansion of the targets to the end *)
Definition buildRequested (w : World) (info : buildInfo)
    (availableTargets availableFlags : gset string) : M unit :=
  uniqueNinjaTargets ←
    forRange (expandTarget availableTargets) ∅ (targets info);
  let info :=
    {| workingDir := workingDir info; sourceDir := sourceDir info;
       buildOutputDir := buildOutputDir info;
       buildFilesDir := buildFilesDir info;
       buildFlags := buildFlags info;
       targets := targets info;
       ninjaTargets := ninjaTargets info ++ elements uniqueNinjaTargets |} in
  _ ← checkFlags availableFlags (buildFlags info);
  runNinja w info.

Definition runBuild (w : World) (args : list string) : M unit :=
  info ← prepareGenerator w args;
  availableTargets ← getAvailableTargets w info;
  availableFlags ← getAvailableFlags w info;
  if decide (length (targets info) = 0%nat) then
    printAvailable availableTargets availableFlags
  else
    buildRequested w info availableTargets availableFlags.

(** Whether the external executor was started. *)
Definition ninjaInvoked (tr : list Event) : Prop :=
  ∃ args dir, Exec "ninja" args dir ∈ tr.


(** ** Vocabulary of the statements *)

(** The test [prepareGenerator] applies to an argument. *)
Definition isFlag (arg : string) : Prop := strings.Contains arg "=" = true.

Global Instance isFlag_dec arg : Decision (isFlag arg).
Proof. unfold isFlag. apply _. Defined.

(** The [buildInfo] that [prepareGenerator] returns once staging is done. *)
Definition preparedInfo (w : World) (args : list string) : buildInfo :=
  let flags := filter isFlag args in
  let buildDir :=
    path.Join [GetWorkspaceRoot w; buildDirName; buildConfigName flags] in
  {| workingDir := GetWorkingDir w;
     sourceDir := path.Join [GetWorkspaceRoot w; DepsDirName w];
     buildOutputDir := path.Join [buildDir; outputDirName];
     buildFilesDir := path.Join [buildDir; buildFilesDirName];
     buildFlags := strings.Sort flags;
     targets := normalizeTarget w <$> filter (λ a, ¬ isFlag a) args;
     ninjaTargets := [] |}.

(** ** A small workspace, for running the definitions

    One module [mod] at [/ws/mod] with a single [BUILD.go] in [a/]; the
    generator answers the [targets] and [flags] queries with the given
    texts. The caller stands in [/ws/mod/a/b]. *)

Definition exampleRun (targetsOut flagsOut : string)
    (name : string) (args : list string) (dir : string) : ProcResult :=
  if decide (name = "go") then
    match args with
    | _ :: _ :: mode :: _ =>
        if decide (mode = "targets")
        then {| stdout := targetsOut; stderr := ""; failed := false |}
        else if decide (mode = "flags")
        then {| stdout := flagsOut; stderr := ""; failed := false |}
        else {| stdout := "rule cc"; stderr := ""; failed := false |}
    | _ => {| stdout := ""; stderr := ""; failed := true |}
    end
  else {| stdout := ""; stderr := ""; failed := false |}.

Definition exampleFile : ast.File :=
  {| ast.Name := "a";
     ast.Decls := [ast.GenDecl ast.IMPORT [ast.ImportSpec "dbt/RULES/cc"];
                   ast.GenDecl ast.VAR [ast.ValueSpec ["x"]]] |}.

Definition exampleWorld (fileAst : ast.File) (targetsOut flagsOut : string)
  : World :=
  {| GetWorkingDir := "/ws/mod/a/b";
     GetWorkspaceRoot := "/ws";
     GetModuleRootForPath := λ _, "/ws/mod";
     DepsDirName := "DEPS";
     GetAllModulePaths := [("mod", "/ws/mod")];
     WalkBuildFiles := λ _, (["/ws/mod/a/BUILD.go"], false);
     ParseFile := λ _, Some fileAst;
     DirExists := λ _, false;
     WalkRuleFiles := λ _, ([], false);
     Run := exampleRun targetsOut flagsOut;
     Verbose := false |}.

Definition exampleTargets : string :=
  "a/x" +:+ newline +:+ "ab/y" +:+ newline +:+ "b/z" +:+ newline.

Definition exampleFlags : string := "opt" +:+ newline.

Definition world1 : World := exampleWorld exampleFile exampleTargets exampleFlags.

(** ** What [parseBuildFile] lets through *)

Global Instance Token_eq_dec : EqDecision ast.Token.
Proof. solve_decision. Defined.

(** a spec that the loop over [decl.Specs] passes without [log.Fatal] *)
Definition specAccepted (Tok : ast.Token) (spec : ast.Spec) : Prop :=
  match spec with
  | ast.ImportSpec _ => True
  | ast.ValueSpec Names => Tok = ast.VAR ∧ "_" ∉ Names
  | ast.TypeSpec _ => False
  end.

Global Instance specAccepted_dec Tok spec : Decision (specAccepted Tok spec).
Proof. destruct spec; simpl; apply _. Defined.

(** a declaration that the loop over [fileAst.Decls] passes *)
Definition declAccepted (decl : ast.Decl) : Prop :=
  match decl with
  | ast.GenDecl Tok Specs => Forall (specAccepted Tok) Specs
  | _ => False
  end.

Global Instance declAccepted_dec decl : Decision (declAccepted decl).
Proof. destruct decl; simpl; apply _. Defined.

Definition specNames (spec : ast.Spec) : list string :=
  match spec with
  | ast.ValueSpec Names => Names
  | _ => []
  end.

(** the identifiers a declaration declares as values *)
Definition declNames (decl : ast.Decl) : list string :=
  match decl with
  | ast.GenDecl _ Specs => concat (specNames <$> Specs)
  | _ => []
  end.

(** [package p] followed by [const ()]: a constant declaration with an
    empty group *)
Definition emptyConstGroupFile : ast.File :=
  {| ast.Name := "p"; ast.Decls := [ast.GenDecl ast.CONST []] |}.

(** [package p] followed by [type ()] *)
Definition emptyTypeGroupFile : ast.File :=
  {| ast.Name := "p"; ast.Decls := [ast.GenDecl ast.TYPE []] |}.

(** the discovered labels that have [targetPrefix] as a string prefix *)
Definition labelsWithPrefix (targetPrefix : string)
    (availableTargets : gset string) : gset string :=
  filter (λ label, strings.HasPrefix label targetPrefix = true)
    availableTargets.

(** the lines of the listing of targets and flags *)
Definition listing (availableTargets availableFlags : gset string)
  : list Event :=
  [Stdout (newline +:+ "Available targets:" +:+ newline)]
  ++ ((λ target, Stdout ("  //" +:+ target +:+ newline))
        <$> elements availableTargets)
  ++ [Stdout (newline +:+ "Available flags:" +:+ newline)]
  ++ ((λ flag, Stdout ("  " +:+ flag +:+ "=" +:+ newline))
        <$> elements availableFlags).

(** an event other than the start of the external executor *)
Definition notNinja (e : Event) : Prop :=
  match e with
  | Exec name _ _ => name ≠ "ninja"
  | _ => True
  end.

(** a path element that [path.Clean] keeps as it is *)
Definition isName (elem : string) : Prop :=
  elem ≠ "" ∧ elem ≠ "." ∧ elem ≠ ".." ∧ strings.Contains elem "/" = false.

(** the clean absolute path with the given elements *)
Definition absPath (elems : list string) : string :=
  "/" +:+ strings.Join elems "/".


(** a module with a definition file at its root and one below, and a rules
    directory with one rule file *)
Definition stagingWorld : World :=
  {| GetWorkingDir := "/ws/mod";
     GetWorkspaceRoot := "/ws";
     GetModuleRootForPath := λ _, "/ws/mod";
     DepsDirName := "DEPS";
     GetAllModulePaths := [("mod", "/ws/mod")];
     WalkBuildFiles := λ _, (["/ws/mod/BUILD.go"; "/ws/mod/a/b/BUILD.go"], false);
     ParseFile := λ _, Some exampleFile;
     DirExists := λ _, true;
     WalkRuleFiles := λ _, (["/ws/mod/RULES/core/rules.go"], false);
     Run := exampleRun exampleTargets exampleFlags;
     Verbose := false |}.

(** ** The argument loop of the earlier revision (src/cmd/build.go)

<<
  for _, arg := range args {
    if strings.HasPrefix(arg, "--") {
      buildFlags = append(buildFlags, arg)
      continue
    }
    if !strings.HasPrefix(arg, "//") {
      workingDir, _ := os.Getwd()
      arg = path.Join(workingDir, arg)
      moduleRoot := util.GetModuleRootForPath(arg)
      arg = strings.TrimPrefix(arg, path.Dir(moduleRoot))
    }
    targets = append(targets, strings.TrimLeft(arg, "/"))
  }
>> *)

Module rev011.

Definition normalize (w : World) (arg : string) : string :=
  let arg :=
    if negb (strings.HasPrefix arg "//") then
      let arg := path.Join [GetWorkingDir w; arg] in
      let moduleRoot := GetModuleRootForPath w arg in
      strings.TrimPrefix arg (path.Dir moduleRoot)
    else arg in
  strings.TrimLeft arg "/".

(** the pair of [targets] and [buildFlags] after the loop *)
Definition splitArgs (w : World) (args : list string)
  : list string * list string :=
  fold_left (λ '(targets, buildFlags) arg,
      if strings.HasPrefix arg "--" then (targets, buildFlags ++ [arg])
      else (targets ++ [normalize w arg], buildFlags))
    args ([], []).

End rev011.


(** ** The rest of the file: generated texts and shell completion *)

Definition goVersion : string := "1.13".
Definition dbtModulePath : string := "github.com/daedaleanai/dbt v0.1.8".

(** the double quote character *)
Definition quote : string := String "034"%char EmptyString.

(** [createModFileContent]; [modules] holds the names of the modules in
    the order the map is ranged over. [builder] is the [strings.Builder]
    that the source calls mod. *)
Definition createModFileContent (moduleName : string) (modules : list string)
    (pathPrefix : string) : string :=
  let builder := "module " +:+ moduleName +:+ newline +:+ newline in
  let builder := builder +:+ "go " +:+ goVersion +:+ newline +:+ newline in
  let builder :=
    fold_left (λ builder modName,
        let builder :=
          builder +:+ "require " +:+ modName +:+ " v0.0.0" +:+ newline in
        builder +:+ "replace " +:+ modName +:+ " => " +:+ pathPrefix +:+ "/"
                +:+ modName +:+ newline +:+ newline)
      modules builder in
  let builder := builder +:+ "require dbt v0.0.0" +:+ newline in
  builder +:+ "replace dbt => " +:+ dbtModulePath +:+ newline +:+ newline.

(** [createGeneratorMainFile]: the two [fmt.Sprintf] of the loop, the
    import of a package under the name p followed by its index, and the call
    of its [DbtMain]; the verb [%d] of an index is its decimal notation. *)
Definition importLine (idx : nat) (pkg : string) : string :=
  "import p" +:+ pretty idx +:+ " " +:+ quote +:+ pkg +:+ quote.

Definition dbtMainLine (idx : nat) : string :=
  "    p" +:+ pretty idx +:+ ".DbtMain(ctx)".

(** [createGeneratorMainFile]: the loop over [packages], from index [idx]
    on; it yields [importLines] and [dbtMainLines]. *)
Fixpoint mainFileLines (idx : nat) (packages : list string)
    (importLines dbtMainLines : list string) : list string * list string :=
  match packages with
  | [] => (importLines, dbtMainLines)
  | pkg :: packages' =>
      mainFileLines (S idx) packages'
        (importLines ++ [importLine idx pkg])
        (dbtMainLines ++ [dbtMainLine idx])
  end.

(** [copyBuildAndRuleFiles]: the line that registers a target in the
    generated [init.go] *)
Definition targetLine (targetName : string) : string :=
  "    ctx.AddTarget(reflect.TypeOf(__internal_pkg{}).PkgPath()+" +:+ quote
  +:+ "/" +:+ targetName +:+ quote +:+ ", " +:+ targetName +:+ ")".

(** [strings.SplitAfter(s, sep)] for a separator of one byte: the pieces
    keep their separator. *)
Fixpoint SplitAfter (s : string) (sep : ascii) : list string :=
  match s with
  | EmptyString => [EmptyString]
  | String c s' =>
      if decide (c = sep) then String c EmptyString :: SplitAfter s' sep
      else match SplitAfter s' sep with
           | x :: xs => String c x :: xs
           | [] => [String c EmptyString]
           end
  end.

(** the slice expression [l[0:n]]: it panics when [n] exceeds the capacity
    of [l], which for the result of [strings.SplitAfter] is its length;
    [None] stands for the panic. *)
Definition sliceTo {A} (n : nat) (l : list A) : option (list A) :=
  if decide (n ≤ length l)%nat then Some (take n l) else None.

(** [completeArgs]: the body of the loop over the available targets *)
Definition completeTarget (toComplete targetToComplete : string)
    (numParts : nat) (suggestions : list string) (target : string)
  : option (list string) :=
  if negb (strings.HasPrefix target targetToComplete) then Some suggestions
  else
    parts ← sliceTo numParts (SplitAfter target "/");
    let suggestion := strings.Join parts "" in
    let suggestion :=
      toComplete +:+ strings.TrimPrefix suggestion targetToComplete in
    Some (suggestions ++ [suggestion]).

(** [completeArgs]; the result [None] stands for a run-time panic. *)
Definition completeArgs (w : World) (args : list string)
    (toComplete : string) : M (option (list string)) :=
  info ← prepareGenerator w args;
  availableFlags ← getAvailableFlags w info;
  let suggestions :=
    fold_left (λ suggestions flag, suggestions ++ [flag +:+ "="])
      (elements availableFlags) [] in
  let targetToComplete := normalizeTarget w toComplete in
  let numParts := length (strings.Split targetToComplete "/") in
  availableTargets ← getAvailableTargets w info;
  mret (fold_left (λ suggestions target,
            suggestions ≫= λ suggestions,
              completeTarget toComplete targetToComplete numParts
                suggestions target)
          (elements availableTargets) (Some suggestions)).

(** ** Vocabulary of the further statements *)

(** what a generator prints for a list of labels: each on a line of its own *)
Definition printedLines (labels : list string) : string :=
  foldr (λ label text, label +:+ newline +:+ text) "" labels.

(** the arguments of the child process that [runGenerator] starts *)
Definition generatorArgs (info : buildInfo) (mode : string) : list string :=
  ["run"; mainFileName; mode; sourceDir info; buildOutputDir info;
   workingDir info] ++ buildFlags info.

(** the labels that one target of the command line stands for *)
Definition selected (availableTargets : gset string) (target : string)
  : gset string :=
  if strings.HasSuffix target "..."
  then labelsWithPrefix (strings.TrimSuffix target "...") availableTargets
  else {[target]}.

(** a target that the loop of [runBuild] passes without [log.Fatal] *)
Definition resolves (availableTargets : gset string) (target : string)
  : Prop :=
  if strings.HasSuffix target "..."
  then labelsWithPrefix (strings.TrimSuffix target "...") availableTargets ≠ ∅
  else target ∈ availableTargets.

Global Instance resolves_dec availableTargets target :
  Decision (resolves availableTargets target).
Proof. unfold resolves. destruct (strings.HasSuffix target "..."); apply _. Defined.

(** the error that the loop of [runBuild] reports for a target *)
Definition targetError (target : string) : FatalError :=
  if strings.HasSuffix target "..." then NoTargetMatching target
  else TargetDoesNotExist target.

(** the name of a flag: [strings.Split(flag, "=")[0]] *)
Definition flagName (flag : string) : string :=
  hd "" (strings.Split flag "=").

(** the arguments that [runNinja] passes to Ninja for a set of labels *)
Definition ninjaArgs (w : World) (labels : gset string) : list string :=
  (if Verbose w then ["-v"] else []) ++ elements labels.

(** [copyBuildAndRuleFiles]: the paths computed for a file of a module *)
Definition relativeFilePath (modulePath filePath : string) : string :=
  strings.TrimPrefix filePath (modulePath +:+ "/").

Definition relativeDirPath (modulePath buildFile : string) : string :=
  strings.TrimSuffix (path.Dir (relativeFilePath modulePath buildFile)) "/".

(** the package of a build file, as appended to [packages] *)
Definition packageOf (moduleName modulePath buildFile : string) : string :=
  path.Join [moduleName; relativeDirPath modulePath buildFile].

Definition initFilePathOf (buildFilesDir modulePath buildFile : string)
  : string :=
  path.Join [buildFilesDir; relativeDirPath modulePath buildFile; initFileName].

Definition copyFilePathOf (buildFilesDir modulePath filePath : string)
  : string :=
  path.Join [buildFilesDir; relativeFilePath modulePath filePath].

(** a build file that [parseBuildFile] lets through *)
Definition buildFileAccepted (w : World) (buildFile : string) : Prop :=
  ∃ fileAst, ParseFile w buildFile = Some fileAst
             ∧ Forall declAccepted (ast.Decls fileAst).

(** what one accepted build file adds to the staging tree: the glue file
    and the copy *)
Definition stagedEvents (w : World) (buildFilesDir modulePath : string)
    (buildFile : string) : list Event :=
  match ParseFile w buildFile with
  | Some fileAst =>
      [WriteFile (initFilePathOf buildFilesDir modulePath buildFile)
         (InitFile (ast.Name fileAst)
            (concat (declNames <$> ast.Decls fileAst)));
       CopyFile buildFile (copyFilePathOf buildFilesDir modulePath buildFile)]
  | None => []
  end.

(** the lines of a module manifest: the two lines and the blank line that
    one iteration of the loop of [createModFileContent] appends *)
Definition requireLines (pathPrefix modName : string) : list string :=
  ["require " +:+ modName +:+ " v0.0.0";
   "replace " +:+ modName +:+ " => " +:+ pathPrefix +:+ "/" +:+ modName;
   ""].

(** all lines of a module manifest *)
Definition modFileLines (moduleName : string) (modules : list string)
    (pathPrefix : string) : list string :=
  ["module " +:+ moduleName; ""; "go " +:+ goVersion; ""]
  ++ (modules ≫= requireLines pathPrefix)
  ++ ["require dbt v0.0.0"; "replace dbt => " +:+ dbtModulePath; ""].

(** a text of one line *)
Definition oneLine (s : string) : Prop := strings.Contains s newline = false.

(** the piece of [rest] up to and including its first slash, all of [rest]
    when it has none: [strings.SplitAfter(rest, "/")[0]] *)
Definition firstSegment (rest : string) : string :=
  hd "" (SplitAfter rest "/").

(** [completeArgs]: what is suggested for an available target that starts
    with the normalized text to complete *)
Definition targetSuggestion (toComplete targetToComplete target : string)
  : string :=
  toComplete
  +:+ firstSegment (strings.drop (strings.len targetToComplete) target).

(** [prepareGenerator]: the staging of one module of the workspace into
    its directory below [buildFilesDir] *)
Definition stageModule (w : World) (buildFilesDir : string)
    (m : string * string) : M (list string) :=
  copyBuildAndRuleFiles w m.1 m.2 (path.Join [buildFilesDir; m.1])
    (GetAllModulePaths w).*1.

(** ** The rest of the earlier revision (src/cmd/build.go)

    The earlier revision collects import lines where the later one collects
    packages, runs the generator once, and hands the targets to Ninja as
    they were given. Its [parseBuildFile] and [createModFileContent] are
    those of the later revision. *)

Module earlier.

(** [copyBuildAndRuleFiles]: the import line of a build file, an import
    for side effects of the module name followed by the directory of the
    build file, and of the module name alone when that directory is the dot *)
Definition importLine (moduleName relativeDirPath : string) : string :=
  if decide (relativeDirPath = ".")
  then "import _ " +:+ quote +:+ moduleName +:+ quote
  else "import _ " +:+ quote +:+ moduleName +:+ "/" +:+ relativeDirPath
       +:+ quote.

(** [mainFileTemplate] with the joined import lines substituted *)
Definition mainFileText (importLines : list string) : string :=
  newline +:+ "// This file is generated. Do not edit this file." +:+ newline
  +:+ newline +:+ "package main" +:+ newline +:+ newline
  +:+ strings.Join importLines newline +:+ newline +:+ newline
  +:+ "func main() {}" +:+ newline.

Definition copyBuildAndRuleFiles (w : World)
    (moduleName modulePath buildFilesDir : string) (modules : list string)
  : M (list string) :=
  _ ← emit (WriteFile (path.Join [buildFilesDir; modFileName])
                      (ModFile moduleName modules ".."));
  let '(buildFiles, err) := WalkBuildFiles w modulePath in
  if err then fatal (SearchFailed moduleName)
  else
    importLines ← forRange (λ importLines buildFile,
        let relativeFilePath :=
          strings.TrimPrefix buildFile (modulePath +:+ "/") in
        let relativeDirPath :=
          strings.TrimSuffix (path.Dir relativeFilePath) "/" in
        let importLines :=
          importLines ++ [importLine moduleName relativeDirPath] in
        '(packageName, targets) ← parseBuildFile w buildFile;
        _ ← emit (WriteFile
                    (path.Join [buildFilesDir; relativeDirPath; initFileName])
                    (InitFile packageName targets));
        _ ← emit (CopyFile buildFile
                    (path.Join [buildFilesDir; relativeFilePath]));
        mret importLines)
      [] buildFiles;
    let rulesDirPath := path.Join [modulePath; RulesDirName] in
    if negb (DirExists w rulesDirPath) then mret importLines
    else
      let '(ruleFiles, err) := WalkRuleFiles w rulesDirPath in
      _ ← forRange (λ _ filePath,
          let relativeFilePath :=
            strings.TrimPrefix filePath (modulePath +:+ "/") in
          emit (CopyFile filePath (path.Join [buildFilesDir; relativeFilePath])))
        () ruleFiles;
      if err then fatal (CopyRulesFailed moduleName) else mret importLines.

(** [generateNinjaFile]; its [log.Fatal] is recorded as the failure of the
    generator in mode [ninja], the one run this revision makes. *)
Definition generateNinjaFile (w : World)
    (sourceDir buildDir buildFilesDir : string)
    (importLines buildFlags modules : list string) : M unit :=
  _ ← emit (WriteFile (path.Join [buildFilesDir; mainFileName])
                      (Bytes (mainFileText importLines)));
  _ ← emit (WriteFile (path.Join [buildFilesDir; modFileName])
                      (ModFile "root" modules "."));
  let args := ["run"; mainFileName; sourceDir; buildDir] ++ buildFlags in
  let r := Run w "go" args buildFilesDir in
  _ ← emit (Exec "go" args buildFilesDir);
  _ ← emit (Stdout (stderr r +:+ newline));
  if failed r then fatal (GeneratorFailed "ninja")
  else emit (WriteFile (path.Join [buildDir; ninjaFileName])
                       (Bytes (stdout r))).

Definition runNinja (w : World) (buildDir : string) (targets : list string)
  : M unit :=
  let targets := if Verbose w then "-v" :: targets else targets in
  _ ← emit (Exec "ninja" targets buildDir);
  if failed (Run w "ninja" targets buildDir)
  then fatal NinjaFailed else mret ().

Definition runBuild (w : World) (args : list string) : M unit :=
  let workspaceRoot := GetWorkspaceRoot w in
  let sourceDir := path.Join [workspaceRoot; DepsDirName w] in
  let '(targets, buildFlags) := rev011.splitArgs w args in
  let buildFlags := strings.Sort buildFlags in
  let buildConfigHash := buildConfigHash buildFlags in
  let buildConfigName :=
    buildDirName +:+ "-" +:+ fmt.Sprintf_08X buildConfigHash in
  let buildDir :=
    path.Join [workspaceRoot; buildDirName; buildConfigName; outputDirName] in
  let buildFilesDir :=
    path.Join [workspaceRoot; buildDirName; buildConfigName;
               buildFilesDirName] in
  _ ← emit (RemoveDir buildFilesDir);
  let modules := GetAllModulePaths w in
  importLines ← forRange (λ importLines '(modName, modPath),
      let modBuildfilesDir := path.Join [buildFilesDir; modName] in
      moduleImportLines ←
        copyBuildAndRuleFiles w modName modPath modBuildfilesDir modules.*1;
      mret (importLines ++ moduleImportLines))
    [] modules;
  _ ← generateNinjaFile w sourceDir buildDir buildFilesDir importLines
        buildFlags modules.*1;
  runNinja w buildDir targets.

(** *** Vocabulary *)

(** the flags of the command line: the arguments that start with two
    dashes, sorted *)
Definition sortedFlags (args : list string) : list string :=
  strings.Sort (filter (λ arg, strings.HasPrefix arg "--" = true) args).

(** the targets of the command line, normalized, in the order given *)
Definition targetsOf (w : World) (args : list string) : list string :=
  rev011.normalize w
    <$> filter (λ arg, strings.HasPrefix arg "--" = false) args.

(** a directory of the configuration of the flags *)
Definition configDir (w : World) (args : list string) (sub : string)
  : string :=
  path.Join [GetWorkspaceRoot w; buildDirName;
             buildDirName +:+ "-"
             +:+ fmt.Sprintf_08X (buildConfigHash (sortedFlags args));
             sub].

Definition stageModule (w : World) (buildFilesDir : string)
    (m : string * string) : M (list string) :=
  copyBuildAndRuleFiles w m.1 m.2 (path.Join [buildFilesDir; m.1])
    (GetAllModulePaths w).*1.

(** the arguments of the one run of the generator *)
Definition generatorArgs (w : World) (args : list string) : list string :=
  ["run"; mainFileName; path.Join [GetWorkspaceRoot w; DepsDirName w];
   configDir w args outputDirName] ++ sortedFlags args.

(** the arguments of Ninja *)
Definition ninjaArgs (w : World) (args : list string) : list string :=
  (if Verbose w then ["-v"] else []) ++ targetsOf w args.

End earlier.
(** * Facts about the string functions *)

Section string_facts.

Implicit Types (s t p r : string) (c : ascii).

Lemma app_cons c s t : String c s +:+ t = String c (s +:+ t).
Proof. reflexivity. Qed.

Lemma app_empty_l s : "" +:+ s = s.
Proof. reflexivity. Qed.

Lemma app_empty_r s : s +:+ "" = s.
Proof. induction s as [|c s IH]; [done|]. by rewrite app_cons, IH. Qed.

Lemma app_assoc' s t r : (s +:+ t) +:+ r = s +:+ (t +:+ r).
Proof. induction s as [|c s IH]; [done|]. by rewrite !app_cons, IH. Qed.

Lemma len_app s t : strings.len (s +:+ t) = (strings.len s + strings.len t)%nat.
Proof.
  induction s as [|c s IH]; [done|].
  rewrite app_cons. unfold strings.len in *. simpl. by rewrite IH.
Qed.

Lemma HasPrefix_app p r : strings.HasPrefix (p +:+ r) p = true.
Proof.
  induction p as [|c p IH]; [by destruct r|].
  rewrite app_cons. simpl. by rewrite decide_True.
Qed.

Lemma HasPrefix_inv s p :
  strings.HasPrefix s p = true → ∃ r, s = p +:+ r.
Proof.
  revert s. induction p as [|c p IH]; intros s H.
  - by exists s.
  - destruct s as [|d s]; [done|]. simpl in H.
    destruct (decide (c = d)) as [->|]; [|done].
    destruct (IH _ H) as [r ->]. by exists r.
Qed.

Lemma HasPrefix_spec s p :
  strings.HasPrefix s p = true ↔ ∃ r, s = p +:+ r.
Proof.
  split; [apply HasPrefix_inv|]. intros [r ->]. apply HasPrefix_app.
Qed.

Lemma drop_app p r : strings.drop (strings.len p) (p +:+ r) = r.
Proof. induction p as [|c p IH]; [by destruct r|]. by rewrite app_cons. Qed.

Lemma take_app p r : strings.take (strings.len p) (p +:+ r) = p.
Proof.
  induction p as [|c p IH]; [by destruct r|].
  rewrite app_cons. unfold strings.len in *. simpl. by rewrite IH.
Qed.

Lemma take_drop n s : strings.take n s +:+ strings.drop n s = s.
Proof.
  revert s. induction n as [|n IH]; intros [|c s]; try done.
  simpl. by rewrite app_cons, IH.
Qed.

Lemma TrimPrefix_app p r : strings.TrimPrefix (p +:+ r) p = r.
Proof. unfold strings.TrimPrefix. by rewrite HasPrefix_app, drop_app. Qed.

Lemma HasSuffix_app p t : strings.HasSuffix (p +:+ t) t = true.
Proof.
  unfold strings.HasSuffix. rewrite len_app.
  replace (strings.len p + strings.len t - strings.len t)%nat
    with (strings.len p) by lia.
  rewrite drop_app. rewrite !bool_decide_eq_true_2; [done..|lia].
Qed.

Lemma HasSuffix_inv s t :
  strings.HasSuffix s t = true → ∃ p, s = p +:+ t.
Proof.
  unfold strings.HasSuffix. intros [_ H]%andb_true_iff.
  apply bool_decide_eq_true in H.
  exists (strings.take (strings.len s - strings.len t) s).
  rewrite <-H at 2. by rewrite take_drop.
Qed.

Lemma TrimSuffix_app p t : strings.TrimSuffix (p +:+ t) t = p.
Proof.
  unfold strings.TrimSuffix. rewrite HasSuffix_app, len_app.
  replace (strings.len p + strings.len t - strings.len t)%nat
    with (strings.len p) by lia.
  apply take_app.
Qed.

End string_facts.

(** * The configuration name *)

Section config_name.

(** Whatever algorithm [sort.Strings] runs, its result is the one
    ascending arrangement of the slice. *)
Lemma Sort_unique (l l' : list string) :
  Sorted String.le l' → l' ≡ₚ l → l' = strings.Sort l.
Proof.
  intros Hs Hp. apply (Sorted_unique String.le); [done| |].
  - apply (Sorted_merge_sort String.le).
  - unfold strings.Sort. by rewrite merge_sort_Permutation.
Qed.

Lemma Sort_Permutation (l1 l2 : list string) :
  l1 ≡ₚ l2 → strings.Sort l1 = strings.Sort l2.
Proof.
  intros Hp. apply Sort_unique.
  - apply (Sorted_merge_sort String.le).
  - unfold strings.Sort. by rewrite merge_sort_Permutation.
Qed.

Lemma Sort_elem_of (l : list string) x : x ∈ strings.Sort l ↔ x ∈ l.
Proof. unfold strings.Sort. by rewrite merge_sort_Permutation. Qed.

(** the name is the prefix and eight hexadecimal digits *)
Lemma hexDigits_length n v acc :
  String.length (fmt.hexDigits n v acc) = (n + String.length acc)%nat.
Proof.
  revert v acc. induction n as [|n IH]; intros v acc; [done|].
  simpl. rewrite IH. simpl. lia.
Qed.

Lemma buildConfigName_form (buildFlags : list string) :
  ∃ digits, buildConfigName buildFlags = "BUILD-" +:+ digits
            ∧ String.length digits = 8%nat.
Proof.
  exists (fmt.Sprintf_08X (buildConfigHash (strings.Sort buildFlags))).
  split; [done|]. unfold fmt.Sprintf_08X. by rewrite hexDigits_length.
Qed.

End config_name.

(** C1, as stated, fails: the flags are sorted but never deduplicated, so
    two flag lists that are equal as sets and differ in the repetition of a
    flag get different configuration names. *)
Lemma C1_duplicated_flag_changes_name :
  ¬ ∀ F1 F2 : list string,
      (∀ f, f ∈ F1 ↔ f ∈ F2) → buildConfigName F1 = buildConfigName F2.
Proof.
  intros H.
  assert (Hset : ∀ f : string, f ∈ ["a=1"] ↔ f ∈ ["a=1"; "a=1"])
    by (intros f; rewrite !elem_of_cons; tauto).
  specialize (H _ _ Hset). vm_compute in H. discriminate H.
Qed.

(** C1, amended: two flag lists that hold the same flags with the same
    multiplicities, in any order, get the same configuration directory name
    (the prefix BUILD, a dash and the eight hexadecimal digits of the CRC-32
    of the sorted flags joined with #). *)
Theorem C1_config_name_order_independent (F1 F2 : list string) :
  F1 ≡ₚ F2 → buildConfigName F1 = buildConfigName F2.
Proof.
  intros Hp. unfold buildConfigName. by rewrite (Sort_Permutation F1 F2 Hp).
Qed.

Lemma C1_config_name_order_independent_witness :
  ["b=2"; "a=1"] ≡ₚ ["a=1"; "b=2"]
  ∧ buildConfigName ["b=2"; "a=1"] = buildConfigName ["a=1"; "b=2"].
Proof.
  split; [apply perm_swap|].
  apply (C1_config_name_order_independent ["b=2"; "a=1"] ["a=1"; "b=2"]).
  apply perm_swap.
Defined.

(** * The effect monad *)

Section monad_facts.

Context {A B : Type}.
Implicit Types (m : M A) (f : A → M B).

Lemma bind_unfold m f :
  m ≫= f = match exit m with
            | Return a => mkM (trace m ++ trace (f a)) (exit (f a))
            | Fatal e => mkM (trace m) (Fatal e)
            end.
Proof. reflexivity. Qed.

Lemma bind_Return m f a :
  exit m = Return a → m ≫= f = mkM (trace m ++ trace (f a)) (exit (f a)).
Proof. intros H. by rewrite bind_unfold, H. Qed.

Lemma bind_Fatal m f e :
  exit m = Fatal e → m ≫= f = mkM (trace m) (Fatal e).
Proof. intros H. by rewrite bind_unfold, H. Qed.

Lemma bind_ext m f (g : A → M B) : (∀ a, f a = g a) → m ≫= f = m ≫= g.
Proof.
  intros H. rewrite !bind_unfold. destruct (exit m); [|done]. by rewrite H.
Qed.

Lemma exit_bind_Return m f a :
  exit m = Return a → exit (m ≫= f) = exit (f a).
Proof. intros H. by rewrite (bind_Return _ _ _ H). Qed.

Lemma exit_bind_Fatal m f e :
  exit m = Fatal e → exit (m ≫= f) = Fatal e.
Proof. intros H. by rewrite (bind_Fatal _ _ _ H). Qed.

Lemma trace_bind_Return m f a :
  exit m = Return a → trace (m ≫= f) = trace m ++ trace (f a).
Proof. intros H. by rewrite (bind_Return _ _ _ H). Qed.

Lemma trace_bind_Fatal m f e :
  exit m = Fatal e → trace (m ≫= f) = trace m.
Proof. intros H. by rewrite (bind_Fatal _ _ _ H). Qed.

Lemma exit_bind_Return_inv m f b :
  exit (m ≫= f) = Return b → ∃ a, exit m = Return a ∧ exit (f a) = Return b.
Proof.
  rewrite bind_unfold. destruct (exit m) as [a|e]; simpl; [eauto|done].
Qed.

End monad_facts.

(** * Classification of the arguments *)

Section classification.

Variable w : World.

Lemma splitArgs_buildFlags args info :
  buildFlags (splitArgs w info args) = buildFlags info ++ filter isFlag args.
Proof.
  revert info. induction args as [|a args IH]; intros info.
  - simpl. by rewrite app_nil_r.
  - unfold splitArgs in *. simpl. rewrite IH. unfold isFlag at 2.
    destruct (strings.Contains a "=") eqn:E; simpl.
    + rewrite filter_cons_True by done. by rewrite <-app_assoc.
    + rewrite filter_cons_False; [done|]. unfold isFlag. congruence.
Qed.

Lemma splitArgs_targets args info :
  targets (splitArgs w info args)
  = targets info ++ (normalizeTarget w <$> filter (λ a, ¬ isFlag a) args).
Proof.
  revert info. induction args as [|a args IH]; intros info.
  - simpl. by rewrite app_nil_r.
  - unfold splitArgs in *. simpl. rewrite IH.
    destruct (strings.Contains a "=") eqn:E; simpl.
    + rewrite filter_cons_False; [done|]. unfold isFlag. tauto.
    + rewrite filter_cons_True by (unfold isFlag; congruence).
      by rewrite <-app_assoc.
Qed.

Lemma splitArgs_other args info :
  workingDir (splitArgs w info args) = workingDir info
  ∧ sourceDir (splitArgs w info args) = sourceDir info
  ∧ ninjaTargets (splitArgs w info args) = ninjaTargets info.
Proof.
  revert info. induction args as [|a args IH]; intros info; [done|].
  unfold splitArgs in *. simpl.
  destruct (strings.Contains a "=");
    match goal with
    | |- context [fold_left _ args ?i] => exact (IH i)
    end.
Qed.

(** What [prepareGenerator] returns, when it returns. *)
Lemma prepareGenerator_Return args info :
  exit (prepareGenerator w args) = Return info → info = preparedInfo w args.
Proof.
  unfold prepareGenerator. intros H.
  apply exit_bind_Return_inv in H as (_ & _ & H).
  apply exit_bind_Return_inv in H as (packages & _ & H).
  apply exit_bind_Return_inv in H as (_ & _ & H).
  simpl in H. injection H as <-. unfold preparedInfo.
  destruct (splitArgs_other args
    {| workingDir := GetWorkingDir w;
       sourceDir := path.Join [GetWorkspaceRoot w; DepsDirName w];
       buildOutputDir := ""; buildFilesDir := "";
       buildFlags := []; targets := []; ninjaTargets := [] |})
    as (-> & -> & ->).
  rewrite splitArgs_buildFlags, splitArgs_targets. done.
Qed.

End classification.

(** C5: the loop of [prepareGenerator] puts an argument among the build
    flags exactly when it contains the character =, and puts every other
    argument, normalized, among the targets; both lists keep the order of
    the arguments, and the [buildInfo] handed on holds the flags sorted. *)
Theorem C5_argument_is_flag_iff_contains_equals
    (w : World) (args : list string) :
  (∀ info0,
     buildFlags (splitArgs w info0 args)
       = buildFlags info0 ++ filter (λ a, strings.Contains a "=" = true) args
     ∧ targets (splitArgs w info0 args)
       = targets info0
         ++ (normalizeTarget w
               <$> filter (λ a, ¬ strings.Contains a "=" = true) args))
  ∧ (∀ info,
       exit (prepareGenerator w args) = Return info →
       buildFlags info
         = strings.Sort (filter (λ a, strings.Contains a "=" = true) args)
       ∧ targets info
         = normalizeTarget w
             <$> filter (λ a, ¬ strings.Contains a "=" = true) args).
Proof.
  split.
  - intros info0. split.
    + apply splitArgs_buildFlags.
    + apply splitArgs_targets.
  - intros info H. apply prepareGenerator_Return in H as ->. done.
Qed.

Lemma C5_argument_is_flag_iff_contains_equals_witness :
  exit (prepareGenerator world1 ["x"; "opt=1"; "//a/y"; "dbg=0"])
    = Return (preparedInfo world1 ["x"; "opt=1"; "//a/y"; "dbg=0"])
  ∧ buildFlags (preparedInfo world1 ["x"; "opt=1"; "//a/y"; "dbg=0"])
    = ["dbg=0"; "opt=1"]
  ∧ targets (preparedInfo world1 ["x"; "opt=1"; "//a/y"; "dbg=0"])
    = ["mod/a/b/x"; "a/y"].
Proof.
  assert (H : exit (prepareGenerator world1 ["x"; "opt=1"; "//a/y"; "dbg=0"])
              = Return (preparedInfo world1 ["x"; "opt=1"; "//a/y"; "dbg=0"]))
    by (vm_compute; reflexivity).
  split; [exact H|].
  destruct (C5_argument_is_flag_iff_contains_equals world1
              ["x"; "opt=1"; "//a/y"; "dbg=0"]) as [_ Hc].
  destruct (Hc _ H) as [-> ->].
  split; vm_compute; reflexivity.
Defined.

(** * The restricted parser *)

Section parser.

Lemma mret_bind {A B} (a : A) (f : A → M B) : mret a ≫= f = f a.
Proof. rewrite bind_unfold. simpl. by destruct (f a). Qed.

Lemma fatal_bind {A B} (e : FatalError) (f : A → M B) :
  fatal e ≫= f = fatal e.
Proof. reflexivity. Qed.

Variable buildFilePath : string.

Lemma parseNames_cons id Names targets :
  parseNames buildFilePath targets (id :: Names)
  = (if decide (id = "_") then fatal (AnonymousTarget buildFilePath)
     else mret (targets ++ [id]))
    ≫= λ targets, parseNames buildFilePath targets Names.
Proof. reflexivity. Qed.

Lemma parseSpecs_cons Tok spec Specs targets :
  parseSpecs buildFilePath Tok targets (spec :: Specs)
  = match spec with
    | ast.ImportSpec _ => mret targets
    | ast.ValueSpec Names =>
        if decide (ast.Token_String Tok ≠ "var")
        then fatal (InvalidDeclarations buildFilePath)
        else parseNames buildFilePath targets Names
    | ast.TypeSpec _ => fatal (InvalidDeclarations buildFilePath)
    end
    ≫= λ targets, parseSpecs buildFilePath Tok targets Specs.
Proof. reflexivity. Qed.

Lemma parseDecls_cons decl Decls targets :
  parseDecls buildFilePath targets (decl :: Decls)
  = match decl with
    | ast.GenDecl Tok Specs => parseSpecs buildFilePath Tok targets Specs
    | _ => fatal (InvalidDeclarations buildFilePath)
    end
    ≫= λ targets, parseDecls buildFilePath targets Decls.
Proof. reflexivity. Qed.

Lemma parseNames_accepted Names targets :
  "_" ∉ Names →
  parseNames buildFilePath targets Names = mret (targets ++ Names).
Proof.
  revert targets. induction Names as [|id Names IH]; intros targets Hn.
  - unfold parseNames. simpl. by rewrite app_nil_r.
  - apply not_elem_of_cons in Hn as [Hid Hn].
    rewrite parseNames_cons, decide_False by done.
    rewrite mret_bind, IH by done. by rewrite <-app_assoc.
Qed.

Lemma parseNames_anonymous Names targets :
  "_" ∈ Names →
  parseNames buildFilePath targets Names
  = fatal (AnonymousTarget buildFilePath).
Proof.
  revert targets. induction Names as [|id Names IH]; intros targets Hn.
  - by apply elem_of_nil in Hn.
  - rewrite parseNames_cons. destruct (decide (id = "_")) as [->|Hid].
    + apply fatal_bind.
    + rewrite mret_bind. apply IH.
      apply elem_of_cons in Hn as [?|?]; [congruence|done].
Qed.

Lemma Token_String_var Tok : ast.Token_String Tok = "var" ↔ Tok = ast.VAR.
Proof. destruct Tok; simpl; split; intros; congruence. Qed.

Lemma parseSpecs_accepted Tok Specs targets :
  Forall (specAccepted Tok) Specs →
  parseSpecs buildFilePath Tok targets Specs
  = mret (targets ++ concat (specNames <$> Specs)).
Proof.
  intros H. revert targets.
  induction H as [|spec Specs Hs _ IH]; intros targets.
  - unfold parseSpecs. simpl. by rewrite app_nil_r.
  - rewrite parseSpecs_cons.
    destruct spec as [?|Names|?]; simpl in Hs; [| |done].
    + by rewrite mret_bind, IH.
    + destruct Hs as [-> Hn].
      rewrite decide_False by (intros ?; done).
      rewrite parseNames_accepted, mret_bind, IH by done.
      simpl. by rewrite <-app_assoc.
Qed.

Lemma parseSpecs_rejected Tok Specs targets :
  ¬ Forall (specAccepted Tok) Specs →
  ∃ e, parseSpecs buildFilePath Tok targets Specs = fatal e
       ∧ (e = InvalidDeclarations buildFilePath
          ∨ e = AnonymousTarget buildFilePath).
Proof.
  revert targets. induction Specs as [|spec Specs IH]; intros targets Hn.
  - destruct Hn. constructor.
  - rewrite parseSpecs_cons.
    destruct (decide (specAccepted Tok spec)) as [Hs|Hs].
    + assert (Hrest : ¬ Forall (specAccepted Tok) Specs)
        by (intros ?; apply Hn; by constructor).
      destruct spec as [?|Names|?]; simpl in Hs; [| |done].
      * rewrite mret_bind. by apply IH.
      * destruct Hs as [-> Hnames].
        rewrite decide_False by (intros ?; done).
        rewrite parseNames_accepted, mret_bind by done. by apply IH.
    + destruct spec as [?|Names|?]; simpl in Hs.
      * by destruct Hs.
      * destruct (decide (ast.Token_String Tok ≠ "var")) as [Ht|Ht].
        { eexists. split; [apply fatal_bind|by left]. }
        apply dec_stable, Token_String_var in Ht.
        destruct (decide ("_" ∈ Names)) as [Hin|Hin]; [|by destruct Hs].
        rewrite parseNames_anonymous by done.
        eexists. split; [apply fatal_bind|by right].
      * eexists. split; [apply fatal_bind|by left].
Qed.

Lemma parseDecls_accepted Decls targets :
  Forall declAccepted Decls →
  parseDecls buildFilePath targets Decls
  = mret (targets ++ concat (declNames <$> Decls)).
Proof.
  intros H. revert targets.
  induction H as [|decl Decls Hd _ IH]; intros targets.
  - unfold parseDecls. simpl. by rewrite app_nil_r.
  - rewrite parseDecls_cons.
    destruct decl as [|Tok Specs|?]; simpl in Hd; [done| |done].
    rewrite parseSpecs_accepted, mret_bind, IH by done.
    simpl. by rewrite <-app_assoc.
Qed.

Lemma parseDecls_rejected Decls targets :
  ¬ Forall declAccepted Decls →
  ∃ e, parseDecls buildFilePath targets Decls = fatal e
       ∧ (e = InvalidDeclarations buildFilePath
          ∨ e = AnonymousTarget buildFilePath).
Proof.
  revert targets. induction Decls as [|decl Decls IH]; intros targets Hn.
  - destruct Hn. constructor.
  - rewrite parseDecls_cons.
    destruct (decide (declAccepted decl)) as [Hd|Hd].
    + assert (Hrest : ¬ Forall declAccepted Decls)
        by (intros ?; apply Hn; by constructor).
      destruct decl as [|Tok Specs|?]; simpl in Hd; [done| |done].
      rewrite parseSpecs_accepted, mret_bind by done. by apply IH.
    + destruct decl as [|Tok Specs|?]; simpl in Hd.
      * eexists. split; [apply fatal_bind|by left].
      * destruct (parseSpecs_rejected Tok Specs targets Hd) as (e & -> & He).
        exists e. split; [apply fatal_bind|done].
      * eexists. split; [apply fatal_bind|by left].
Qed.

(** What [parseBuildFile] does on every file: it is fatal on a parse
    error and on a declaration that is not accepted, and otherwise
    returns the package name and every declared identifier, in order. *)
Lemma parseBuildFile_spec (w : World) :
  match ParseFile w buildFilePath with
  | None =>
      parseBuildFile w buildFilePath = fatal (FailedToParse buildFilePath)
  | Some fileAst =>
      (Forall declAccepted (ast.Decls fileAst) →
       parseBuildFile w buildFilePath
       = mret (ast.Name fileAst, concat (declNames <$> ast.Decls fileAst)))
      ∧ (¬ Forall declAccepted (ast.Decls fileAst) →
         ∃ e, parseBuildFile w buildFilePath = fatal e
              ∧ (e = InvalidDeclarations buildFilePath
                 ∨ e = AnonymousTarget buildFilePath))
  end.
Proof.
  unfold parseBuildFile. destruct (ParseFile w buildFilePath) as [f|]; [|done].
  split; intros H.
  - by rewrite parseDecls_accepted, mret_bind.
  - destruct (parseDecls_rejected _ [] H) as (e & -> & He).
    exists e. split; [apply fatal_bind|done].
Qed.

End parser.

(** C4, at the input that separates code and claim: a definition file
    whose only top-level declaration is the constant declaration [const ()]
    holds a declaration that is neither an import nor a [var] declaration,
    and [parseBuildFile] returns normally, with no target; staging goes on
    and the command lists the targets. The same holds for [type ()]. *)
Theorem C4_empty_const_group_is_accepted :
  ¬ (∀ decl, decl ∈ ast.Decls emptyConstGroupFile →
       ∃ Specs, decl = ast.GenDecl ast.IMPORT Specs
                ∨ decl = ast.GenDecl ast.VAR Specs)
  ∧ parseBuildFile (exampleWorld emptyConstGroupFile "" "") "/ws/mod/a/BUILD.go"
    = mret ("p", [])
  ∧ parseBuildFile (exampleWorld emptyTypeGroupFile "" "") "/ws/mod/a/BUILD.go"
    = mret ("p", [])
  ∧ exit (runBuild (exampleWorld emptyConstGroupFile "" "") []) = Return ().
Proof.
  split; [|split; [|split]]; try (vm_compute; reflexivity).
  intros H. destruct (H (ast.GenDecl ast.CONST [])) as [Specs [?|?]];
    [apply list_elem_of_singleton; reflexivity|done..].
Qed.

(** * Wildcard expansion *)

Section expansion.

Implicit Types (availableTargets unique : gset string).

Lemma forRange_cons {A S} (body : S → A → M S) s x l :
  forRange body s (x :: l) = body s x ≫= λ s', forRange body s' l.
Proof. reflexivity. Qed.

Lemma forRange_nil {A S} (body : S → A → M S) s :
  forRange body s [] = mret s.
Proof. reflexivity. Qed.

Lemma bind_mret_r {A} (m : M A) : m ≫= mret = m.
Proof.
  rewrite bind_unfold. destruct m as [tr [a|e]]; simpl; [|done].
  by rewrite app_nil_r.
Qed.

(** the loop over [availableTargets] in the wildcard branch *)
Lemma wildcard_loop targetPrefix (l : list string) found unique :
  fold_left (λ '(found, unique) availableTarget,
      if strings.HasPrefix availableTarget targetPrefix
      then (true, {[availableTarget]} ∪ unique)
      else (found, unique))
    l (found, unique)
  = (found
     || bool_decide
          (Exists (λ t, strings.HasPrefix t targetPrefix = true) l),
     unique
     ∪ list_to_set
         (filter (λ t, strings.HasPrefix t targetPrefix = true) l)).
Proof.
  revert found unique. induction l as [|x l IH]; intros found unique.
  - simpl. rewrite orb_false_r. by rewrite (right_id_L ∅ (∪)).
  - rewrite filter_cons. simpl fold_left.
    destruct (strings.HasPrefix x targetPrefix) eqn:E.
    + rewrite IH, decide_True by done.
      rewrite (bool_decide_eq_true_2 (Exists _ (x :: l)))
        by (by constructor).
      rewrite orb_true_r, list_to_set_cons. simpl. f_equal.
      by rewrite (comm_L (∪) {[x]} unique), <-(assoc_L (∪)).
    + rewrite IH, decide_False by done. f_equal. f_equal.
      apply bool_decide_ext. rewrite Exists_cons. split.
      * auto.
      * intros [?|?]; [congruence|done].
Qed.

Lemma labelsWithPrefix_elements targetPrefix availableTargets :
  list_to_set
    (filter (λ t, strings.HasPrefix t targetPrefix = true)
       (elements availableTargets))
  = labelsWithPrefix targetPrefix availableTargets.
Proof.
  apply set_eq. intros x. unfold labelsWithPrefix.
  rewrite elem_of_list_to_set, list_elem_of_filter, elem_of_elements.
  by rewrite elem_of_filter.
Qed.

Lemma labelsWithPrefix_Exists targetPrefix availableTargets :
  Exists (λ t, strings.HasPrefix t targetPrefix = true)
    (elements availableTargets)
  ↔ labelsWithPrefix targetPrefix availableTargets ≠ ∅.
Proof.
  rewrite Exists_exists. unfold labelsWithPrefix. split.
  - intros (x & Hx & HP) Hempty.
    assert (x ∈ filter (λ label, strings.HasPrefix label targetPrefix = true)
                  availableTargets) as Hin
      by (apply elem_of_filter; split; [done|by apply elem_of_elements]).
    rewrite Hempty in Hin. by apply not_elem_of_empty in Hin.
  - intros Hne. apply set_choose_L in Hne as [x Hx].
    apply elem_of_filter in Hx as [HP Hx].
    exists x. split; [by apply elem_of_elements|done].
Qed.

(** One wildcard target: every discovered label with the prefix is added
    to the set, and nothing else; no such label is fatal. *)
Lemma expandTarget_wildcard availableTargets unique target :
  strings.HasSuffix target "..." = true →
  expandTarget availableTargets unique target
  = if decide (labelsWithPrefix (strings.TrimSuffix target "...")
                 availableTargets = ∅)
    then fatal (NoTargetMatching target)
    else mret (unique
               ∪ labelsWithPrefix (strings.TrimSuffix target "...")
                   availableTargets).
Proof.
  intros Hs. unfold expandTarget. rewrite Hs. simpl.
  rewrite wildcard_loop, labelsWithPrefix_elements. simpl.
  destruct (decide (labelsWithPrefix _ availableTargets = ∅)) as [He|He].
  - rewrite bool_decide_eq_false_2; [done|].
    intros H%labelsWithPrefix_Exists. done.
  - rewrite bool_decide_eq_true_2; [done|].
    by apply labelsWithPrefix_Exists.
Qed.

Lemma expandTarget_plain availableTargets unique target :
  strings.HasSuffix target "..." = false →
  expandTarget availableTargets unique target
  = if decide (target ∈ availableTargets)
    then mret ({[target]} ∪ unique)
    else fatal (TargetDoesNotExist target).
Proof. intros Hs. unfold expandTarget. by rewrite Hs. Qed.

Lemma expandTarget_trace availableTargets unique target :
  trace (expandTarget availableTargets unique target) = [].
Proof.
  destruct (strings.HasSuffix target "...") eqn:Hs.
  - rewrite expandTarget_wildcard by done. by case_decide.
  - rewrite expandTarget_plain by done. by case_decide.
Qed.

(** A wildcard without a match anywhere among the targets makes the
    whole loop fatal. *)
Lemma expandTargets_no_match availableTargets unique targets target :
  target ∈ targets →
  strings.HasSuffix target "..." = true →
  labelsWithPrefix (strings.TrimSuffix target "...") availableTargets = ∅ →
  ∃ e, forRange (expandTarget availableTargets) unique targets
       = fatal e.
Proof.
  intros Hin Hs He. revert unique.
  induction targets as [|t targets IH]; intros unique.
  - by apply elem_of_nil in Hin.
  - rewrite forRange_cons.
    destruct (exit (expandTarget availableTargets unique t)) as [u|e] eqn:Ex.
    + pose proof (expandTarget_trace availableTargets unique t) as Ht.
      assert (expandTarget availableTargets unique t = mret u) as ->
        by (destruct (expandTarget _ _ _); simpl in *; by subst).
      rewrite mret_bind. apply IH.
      apply elem_of_cons in Hin as [->|Hin]; [|done].
      rewrite expandTarget_wildcard, decide_True in Ex by done. done.
    + exists e.
      pose proof (expandTarget_trace availableTargets unique t) as Ht.
      assert (expandTarget availableTargets unique t = fatal e) as ->
        by (destruct (expandTarget _ _ _); simpl in *; by subst).
      apply fatal_bind.
Qed.

End expansion.

(** * The external executor is started at one place only *)

Section quiet.

Lemma notNinja_ninjaInvoked tr : Forall notNinja tr ↔ ¬ ninjaInvoked tr.
Proof.
  unfold ninjaInvoked. rewrite Forall_forall. split.
  - intros H (args & dir & Hin). by apply (H _ Hin).
  - intros H e Hin. destruct e as [| | | |name args dir]; simpl; try done.
    intros ->. apply H. eauto.
Qed.

Lemma quiet_bind {A B} (m : M A) (f : A → M B) :
  Forall notNinja (trace m) →
  (∀ a, exit m = Return a → Forall notNinja (trace (f a))) →
  Forall notNinja (trace (m ≫= f)).
Proof.
  intros Hm Hf. rewrite bind_unfold.
  destruct (exit m) as [a|e] eqn:E; simpl; [|done].
  apply Forall_app. split; [done|by apply Hf].
Qed.

Lemma quiet_forRange {A S} (body : S → A → M S) s l :
  (∀ s x, Forall notNinja (trace (body s x))) →
  Forall notNinja (trace (forRange body s l)).
Proof.
  intros Hb. revert s. induction l as [|x l IH]; intros s.
  - constructor.
  - rewrite forRange_cons. apply quiet_bind; [apply Hb|]. intros; apply IH.
Qed.

Lemma quiet_emit e : notNinja e → Forall notNinja (trace (emit e)).
Proof. intros H. by repeat constructor. Qed.

Lemma quiet_mret {A} (a : A) : Forall notNinja (trace (mret a : M A)).
Proof. constructor. Qed.

Lemma quiet_fatal {A} e : Forall notNinja (trace (fatal e : M A)).
Proof. constructor. Qed.

Lemma forRange_trace_nil {A S} (body : S → A → M S) s l :
  (∀ s x, trace (body s x) = []) → trace (forRange body s l) = [].
Proof.
  intros Hb. revert s. induction l as [|x l IH]; intros s; [done|].
  rewrite forRange_cons, bind_unfold. specialize (Hb s x).
  destruct (exit (body s x)); simpl; rewrite Hb; [apply IH|done].
Qed.

Variable w : World.

Lemma parseBuildFile_trace buildFilePath :
  trace (parseBuildFile w buildFilePath) = [].
Proof.
  pose proof (parseBuildFile_spec buildFilePath w) as H.
  destruct (ParseFile w buildFilePath) as [f|]; [|by rewrite H].
  destruct H as [Hok Hno].
  destruct (decide (Forall declAccepted (ast.Decls f))) as [Hd|Hd].
  - by rewrite Hok.
  - by destruct (Hno Hd) as (e & -> & _).
Qed.

Lemma quiet_copyBuildAndRuleFiles moduleName modulePath dir modules :
  Forall notNinja
    (trace (copyBuildAndRuleFiles w moduleName modulePath dir modules)).
Proof.
  unfold copyBuildAndRuleFiles.
  apply quiet_bind; [by apply quiet_emit|]. intros _ _.
  destruct (WalkBuildFiles w modulePath) as [buildFiles err].
  destruct err; [(simpl; constructor)|].
  apply quiet_bind.
  - apply quiet_forRange. intros packages buildFile.
    apply quiet_bind; [rewrite parseBuildFile_trace; constructor|].
    intros [packageName targets] _.
    apply quiet_bind; [by apply quiet_emit|]. intros _ _.
    apply quiet_bind; [by apply quiet_emit|]. intros _ _.
    (simpl; constructor).
  - intros packages _.
    destruct (DirExists w _); simpl; [|(simpl; constructor)].
    destruct (WalkRuleFiles w _) as [ruleFiles err].
    apply quiet_bind.
    + apply quiet_forRange. intros _ filePath. by apply quiet_emit.
    + intros _ _. destruct err; [(simpl; constructor)|(simpl; constructor)].
Qed.

Lemma quiet_prepareGenerator args :
  Forall notNinja (trace (prepareGenerator w args)).
Proof.
  unfold prepareGenerator.
  apply quiet_bind; [by apply quiet_emit|]. intros _ _.
  apply quiet_bind.
  - apply quiet_forRange. intros packages [modName modPath].
    apply quiet_bind; [apply quiet_copyBuildAndRuleFiles|].
    intros; (simpl; constructor).
  - intros packages _. apply quiet_bind.
    + unfold createGeneratorMainFile.
      apply quiet_bind; [by apply quiet_emit|]. intros _ _.
      by apply quiet_emit.
    + intros; (simpl; constructor).
Qed.

Lemma quiet_runGenerator info mode :
  Forall notNinja (trace (runGenerator w info mode)).
Proof.
  unfold runGenerator.
  apply quiet_bind; [by apply quiet_emit|]. intros _ _.
  apply quiet_bind; [by apply quiet_emit|]. intros _ _.
  destruct (failed _); [(simpl; constructor)|(simpl; constructor)].
Qed.

Lemma quiet_getAvailable kind info :
  Forall notNinja (trace (getAvailable w kind info)).
Proof.
  unfold getAvailable. apply quiet_bind; [apply quiet_runGenerator|].
  intros; (simpl; constructor).
Qed.

Lemma checkFlags_trace availableFlags flags :
  trace (checkFlags availableFlags flags) = [].
Proof.
  unfold checkFlags. apply forRange_trace_nil. intros _ flag.
  by case_decide.
Qed.

Lemma expandTargets_trace availableTargets unique targets :
  trace (forRange (expandTarget availableTargets) unique targets) = [].
Proof. apply forRange_trace_nil. intros; apply expandTarget_trace. Qed.

Lemma printAvailable_eq availableTargets availableFlags :
  printAvailable availableTargets availableFlags
  = mkM (listing availableTargets availableFlags) (Return ()).
Proof.
  assert (Hloop : ∀ (g : string → string) (l : list string),
            forRange (λ _ x, emit (Stdout (g x))) () l
            = mkM ((λ x, Stdout (g x)) <$> l) (Return ())).
  { intros g l. induction l as [|x l IH]; [done|].
    rewrite forRange_cons, bind_unfold. simpl. by rewrite IH. }
  unfold printAvailable, listing.
  rewrite (Hloop (λ target, "  //" +:+ target +:+ newline)).
  rewrite (Hloop (λ flag, "  " +:+ flag +:+ "=" +:+ newline)).
  reflexivity.
Qed.

(** [runBuild] once staging and the two queries have succeeded *)
Lemma runBuild_after_discovery args info availableTargets availableFlags :
  exit (prepareGenerator w args) = Return info →
  exit (getAvailableTargets w info) = Return availableTargets →
  exit (getAvailableFlags w info) = Return availableFlags →
  let rest :=
    if decide (length (targets info) = 0%nat)
    then printAvailable availableTargets availableFlags
    else buildRequested w info availableTargets availableFlags in
  trace (runBuild w args)
  = trace (prepareGenerator w args)
    ++ trace (getAvailableTargets w info)
    ++ trace (getAvailableFlags w info)
    ++ trace rest
  ∧ exit (runBuild w args) = exit rest.
Proof.
  intros Hp Ht Hf rest. unfold runBuild. split.
  - rewrite (trace_bind_Return _ _ _ Hp), (trace_bind_Return _ _ _ Ht).
    by rewrite (trace_bind_Return _ _ _ Hf).
  - rewrite (exit_bind_Return _ _ _ Hp), (exit_bind_Return _ _ _ Ht).
    by rewrite (exit_bind_Return _ _ _ Hf).
Qed.

(** [runBuild] case by case: a failure of staging or of a query is fatal
    and silent about Ninja; otherwise the rest decides. *)
Lemma runBuild_cases args (P : M unit → Prop) :
  (Forall notNinja (trace (runBuild w args)) →
   (∃ e, exit (runBuild w args) = Fatal e) → P (runBuild w args)) →
  (∀ info availableTargets availableFlags,
     exit (prepareGenerator w args) = Return info →
     exit (getAvailableTargets w info) = Return availableTargets →
     exit (getAvailableFlags w info) = Return availableFlags →
     P (runBuild w args)) →
  P (runBuild w args).
Proof.
  intros Hfatal Hrest.
  destruct (exit (prepareGenerator w args)) as [info|e] eqn:Hp.
  2:{ apply Hfatal; unfold runBuild.
      - rewrite (trace_bind_Fatal _ _ _ Hp). apply quiet_prepareGenerator.
      - rewrite (exit_bind_Fatal _ _ _ Hp). eauto. }
  destruct (exit (getAvailableTargets w info)) as [aT|e] eqn:Ht.
  2:{ apply Hfatal; unfold runBuild.
      - rewrite (trace_bind_Return _ _ _ Hp), (trace_bind_Fatal _ _ _ Ht).
        apply Forall_app. split;
          [apply quiet_prepareGenerator|apply quiet_getAvailable].
      - rewrite (exit_bind_Return _ _ _ Hp), (exit_bind_Fatal _ _ _ Ht).
        eauto. }
  destruct (exit (getAvailableFlags w info)) as [aF|e] eqn:Hf.
  2:{ apply Hfatal; unfold runBuild.
      - rewrite (trace_bind_Return _ _ _ Hp), (trace_bind_Return _ _ _ Ht).
        rewrite (trace_bind_Fatal _ _ _ Hf).
        rewrite !Forall_app. split_and!;
          [apply quiet_prepareGenerator|apply quiet_getAvailable..].
      - rewrite (exit_bind_Return _ _ _ Hp), (exit_bind_Return _ _ _ Ht).
        rewrite (exit_bind_Fatal _ _ _ Hf). eauto. }
  by eapply Hrest.
Qed.

End quiet.

(** * Flags: the name before the first = *)

Section flag_names.

Lemma Contains_unfold s sub :
  strings.Contains s sub
  = strings.HasPrefix s sub
    || match s with
       | EmptyString => false
       | String _ s' => strings.Contains s' sub
       end.
Proof. by destruct s. Qed.

Lemma Contains_app x sub y :
  strings.Contains (x +:+ sub +:+ y) sub = true.
Proof.
  induction x as [|c x IH].
  - rewrite app_empty_l, Contains_unfold. by rewrite HasPrefix_app.
  - rewrite app_cons, Contains_unfold, IH. apply orb_true_r.
Qed.

Lemma Contains_byte_cons c s sep :
  strings.Contains (String c s) (String sep "") = false →
  c ≠ sep ∧ strings.Contains s (String sep "") = false.
Proof.
  rewrite Contains_unfold. intros [H1 H2]%orb_false_iff. split; [|done].
  intros ->. simpl in H1. rewrite decide_True in H1 by done. by destruct s.
Qed.

Lemma Split_app_sep x sep s :
  strings.Contains x (String sep "") = false →
  strings.Split (x +:+ String sep s) sep = x :: strings.Split s sep.
Proof.
  induction x as [|c x IH]; intros H.
  - rewrite app_empty_l. simpl. by rewrite decide_True.
  - apply Contains_byte_cons in H as [Hc H].
    rewrite app_cons. simpl. rewrite decide_False by done.
    by rewrite IH.
Qed.

Lemma Split_no_sep x sep :
  strings.Contains x (String sep "") = false → strings.Split x sep = [x].
Proof.
  induction x as [|c x IH]; intros H; [done|].
  apply Contains_byte_cons in H as [Hc H].
  simpl. rewrite decide_False by done. by rewrite IH.
Qed.

(** the name of a flag [name=value] *)
Lemma flag_name name value :
  strings.Contains name "=" = false →
  hd "" (strings.Split (name +:+ "=" +:+ value) "=") = name.
Proof.
  intros H. change (name +:+ "=" +:+ value) with (name +:+ String "=" value).
  by rewrite (Split_app_sep name "=" value H).
Qed.

(** every flag is of the form [name=value] with a name free of = *)
Lemma flag_decompose flag :
  strings.Contains flag "=" = true →
  ∃ name value,
    flag = name +:+ "=" +:+ value ∧ strings.Contains name "=" = false.
Proof.
  induction flag as [|c flag IH]; intros H; [done|].
  destruct (decide (c = "="%char)) as [->|Hc].
  - by exists "", flag.
  - rewrite Contains_unfold in H. simpl in H.
    rewrite decide_False in H by done. simpl in H.
    destruct (IH H) as (name & value & -> & Hn).
    exists (String c name), value. split; [done|].
    rewrite Contains_unfold, Hn. simpl. by rewrite decide_False.
Qed.

Lemma checkFlags_cons availableFlags flag flags :
  checkFlags availableFlags (flag :: flags)
  = (if decide (hd "" (strings.Split flag "=") ∈ availableFlags)
     then mret ()
     else fatal (FlagDoesNotExist (hd "" (strings.Split flag "="))))
    ≫= λ _, checkFlags availableFlags flags.
Proof.
  unfold checkFlags. rewrite forRange_cons. apply bind_ext. by intros [].
Qed.

Lemma checkFlags_unknown (availableFlags : gset string) flags flag :
  flag ∈ flags →
  hd "" (strings.Split flag "=") ∉ availableFlags →
  ∃ name, checkFlags availableFlags flags = fatal (FlagDoesNotExist name).
Proof.
  intros Hin Hn. induction flags as [|f flags IH].
  - by apply elem_of_nil in Hin.
  - rewrite checkFlags_cons. case_decide as Hf.
    + rewrite mret_bind. apply IH.
      apply elem_of_cons in Hin as [->|?]; [done|done].
    + eexists. apply fatal_bind.
Qed.

Lemma checkFlags_known (availableFlags : gset string) flags :
  (∀ flag, flag ∈ flags →
     hd "" (strings.Split flag "=") ∈ availableFlags) →
  checkFlags availableFlags flags = mret ().
Proof.
  induction flags as [|f flags IH]; intros H; [done|].
  rewrite checkFlags_cons, decide_True by (apply H; by left).
  rewrite mret_bind. apply IH. intros; apply H. by right.
Qed.

End flag_names.

(** * The command as a whole *)

Section command.

Variable w : World.

Lemma no_target_args args info :
  Forall isFlag args →
  exit (prepareGenerator w args) = Return info →
  targets info = [].
Proof.
  intros Hall ->%prepareGenerator_Return. simpl.
  induction Hall as [|a args Ha _ IH]; [done|].
  by rewrite filter_cons_False by tauto.
Qed.

Lemma some_target_arg args info a :
  a ∈ args → ¬ isFlag a →
  exit (prepareGenerator w args) = Return info →
  length (targets info) ≠ 0%nat.
Proof.
  intros Hin Ha ->%prepareGenerator_Return. simpl.
  assert (a ∈ filter (λ a, ¬ isFlag a) args) as H
    by (by apply list_elem_of_filter).
  destruct (filter _ args); [by apply elem_of_nil in H|done].
Qed.

Lemma flag_arg_kept args info flag :
  flag ∈ args → isFlag flag →
  exit (prepareGenerator w args) = Return info →
  flag ∈ buildFlags info.
Proof.
  intros Hin Hf ->%prepareGenerator_Return. simpl.
  apply Sort_elem_of. by apply list_elem_of_filter.
Qed.

Lemma quiet_listing availableTargets availableFlags :
  Forall notNinja (listing availableTargets availableFlags).
Proof.
  unfold listing. rewrite !Forall_app, !Forall_fmap.
  split_and!; try (by repeat constructor); by apply Forall_true.
Qed.

(** Without a target the command lists and returns. *)
Lemma runBuild_no_targets args info availableTargets availableFlags :
  Forall isFlag args →
  exit (prepareGenerator w args) = Return info →
  exit (getAvailableTargets w info) = Return availableTargets →
  exit (getAvailableFlags w info) = Return availableFlags →
  exit (runBuild w args) = Return ()
  ∧ trace (runBuild w args)
    = trace (prepareGenerator w args)
      ++ trace (getAvailableTargets w info)
      ++ trace (getAvailableFlags w info)
      ++ listing availableTargets availableFlags.
Proof.
  intros Hall Hp Ht Hf.
  destruct (runBuild_after_discovery w args _ _ _ Hp Ht Hf) as [Htr Hex].
  cbv zeta in Htr, Hex.
  rewrite (no_target_args args info Hall Hp) in Htr, Hex.
  rewrite decide_True in Htr, Hex by done.
  rewrite printAvailable_eq in Htr, Hex. by rewrite Htr, Hex.
Qed.

Lemma runBuild_no_targets_quiet args :
  Forall isFlag args → Forall notNinja (trace (runBuild w args)).
Proof.
  intros Hall. apply (runBuild_cases w args (λ m, Forall notNinja (trace m)));
    [done|].
  intros info aT aF Hp Ht Hf.
  destruct (runBuild_no_targets args _ _ _ Hall Hp Ht Hf) as [_ ->].
  rewrite !Forall_app. split_and!.
  - apply quiet_prepareGenerator.
  - apply quiet_getAvailable.
  - apply quiet_getAvailable.
  - apply quiet_listing.
Qed.

(** A fatal error in the expansion of the targets or in the check of the
    flags ends the invocation before Ninja. *)
Lemma buildRequested_fatal info availableTargets availableFlags :
  (∃ e, forRange (expandTarget availableTargets) ∅ (targets info) = fatal e)
  ∨ (∃ e, checkFlags availableFlags (buildFlags info) = fatal e) →
  trace (buildRequested w info availableTargets availableFlags) = []
  ∧ ∃ e, exit (buildRequested w info availableTargets availableFlags)
         = Fatal e.
Proof.
  intros H. unfold buildRequested.
  destruct (exit (forRange (expandTarget availableTargets) ∅ (targets info)))
    as [u|e] eqn:Ex.
  - rewrite (trace_bind_Return _ _ _ Ex), (exit_bind_Return _ _ _ Ex).
    rewrite expandTargets_trace. simpl.
    destruct H as [[e He]|[e He]]; [by rewrite He in Ex|].
    rewrite He, fatal_bind. eauto.
  - rewrite (trace_bind_Fatal _ _ _ Ex), (exit_bind_Fatal _ _ _ Ex).
    rewrite expandTargets_trace. eauto.
Qed.

Lemma runBuild_fatal_before_ninja args :
  (∀ info availableTargets availableFlags,
     exit (prepareGenerator w args) = Return info →
     exit (getAvailableTargets w info) = Return availableTargets →
     exit (getAvailableFlags w info) = Return availableFlags →
     length (targets info) ≠ 0%nat
     ∧ ((∃ e, forRange (expandTarget availableTargets) ∅ (targets info)
              = fatal e)
        ∨ (∃ e, checkFlags availableFlags (buildFlags info) = fatal e))) →
  (∃ e, exit (runBuild w args) = Fatal e)
  ∧ ¬ ninjaInvoked (trace (runBuild w args)).
Proof.
  intros H.
  apply (runBuild_cases w args
           (λ m, (∃ e, exit m = Fatal e) ∧ ¬ ninjaInvoked (trace m))).
  - intros Hq He. split; [done|]. by apply notNinja_ninjaInvoked.
  - intros info aT aF Hp Ht Hf.
    destruct (H _ _ _ Hp Ht Hf) as [Hlen Hfatal].
    destruct (runBuild_after_discovery w args _ _ _ Hp Ht Hf) as [Htr Hex].
    cbv zeta in Htr, Hex.
    rewrite decide_False in Htr, Hex by done.
    destruct (buildRequested_fatal info aT aF Hfatal) as [Hnil He].
    rewrite Hnil in Htr. rewrite Hex. split; [done|].
    apply notNinja_ninjaInvoked. rewrite Htr, !Forall_app. split_and!.
    + apply quiet_prepareGenerator.
    + apply quiet_getAvailable.
    + apply quiet_getAvailable.
    + constructor.
Qed.

End command.

(** C2: for every set of discovered labels and every target ending in the
    wildcard marker, the loop of [runBuild] yields exactly the discovered
    labels that have the target without the marker as a string prefix; when
    there is none the loop is fatal, and an invocation with such a target
    ends in a fatal error without starting Ninja. *)
Theorem C2_wildcard_expands_to_labels_with_prefix
    (availableTargets : gset string) (target : string) :
  strings.HasSuffix target "..." = true →
  let targetPrefix := strings.TrimSuffix target "..." in
  let expanded := labelsWithPrefix targetPrefix availableTargets in
  target = targetPrefix +:+ "..."
  ∧ (∀ label, label ∈ expanded
              ↔ label ∈ availableTargets ∧ ∃ rest, label = targetPrefix +:+ rest)
  ∧ forRange (expandTarget availableTargets) ∅ [target]
    = (if decide (expanded = ∅) then fatal (NoTargetMatching target)
       else mret expanded)
  ∧ (expanded = ∅ →
     ∀ w args info,
       exit (prepareGenerator w args) = Return info →
       exit (getAvailableTargets w info) = Return availableTargets →
       target ∈ targets info →
       (∃ e, exit (runBuild w args) = Fatal e)
       ∧ ¬ ninjaInvoked (trace (runBuild w args))).
Proof.
  intros Hs targetPrefix expanded. split_and!.
  - destruct (HasSuffix_inv _ _ Hs) as [p Hp]. unfold targetPrefix.
    rewrite Hp at 2. by rewrite TrimSuffix_app.
  - intros label. unfold expanded, labelsWithPrefix.
    rewrite elem_of_filter, HasPrefix_spec. tauto.
  - rewrite forRange_cons, expandTarget_wildcard by done.
    fold targetPrefix. fold expanded. case_decide; [done|].
    rewrite mret_bind, forRange_nil. by rewrite (left_id_L ∅ (∪)).
  - intros Hempty w args info Hp Ht Hin.
    apply runBuild_fatal_before_ninja. intros info' aT aF Hp' Ht' _.
    assert (info' = info) as -> by congruence.
    assert (aT = availableTargets) as -> by congruence.
    split; [|left; by eapply expandTargets_no_match].
    destruct (targets info); [by apply elem_of_nil in Hin|done].
Qed.

Lemma C2_wildcard_expands_to_labels_with_prefix_witness :
  strings.HasSuffix "a/..." "..." = true
  ∧ forRange (expandTarget {["a/x"; "ab/y"; "b/z"]}) ∅ ["a/..."]
    = mret {["a/x"]}
  ∧ forRange (expandTarget {["a/x"; "ab/y"; "b/z"]}) ∅ ["c/..."]
    = fatal (NoTargetMatching "c/...")
  ∧ ((∃ e, exit (runBuild world1 ["//c/..."]) = Fatal e)
     ∧ ¬ ninjaInvoked (trace (runBuild world1 ["//c/..."]))).
Proof.
  split; [reflexivity|].
  destruct (C2_wildcard_expands_to_labels_with_prefix
              {["a/x"; "ab/y"; "b/z"]} "a/..." eq_refl) as (_ & _ & Ha & _).
  destruct (C2_wildcard_expands_to_labels_with_prefix
              {["a/x"; "ab/y"; "b/z"]} "c/..." eq_refl) as (_ & _ & Hc & Hf).
  refine (conj _ (conj _ _)).
  - rewrite Ha. vm_compute. reflexivity.
  - rewrite Hc. vm_compute. reflexivity.
  - apply (Hf ltac:(vm_compute; reflexivity) world1 ["//c/..."]
             (preparedInfo world1 ["//c/..."])).
    + vm_compute. reflexivity.
    + vm_compute. reflexivity.
    + left.
Defined.

(** C3: when no argument is a target label (each argument holds the
    character =, or there is no argument), Ninja is never started; and once
    staging and the two queries of the generator have succeeded, the command
    prints the available targets and the available flags and returns. *)
Theorem C3_no_target_lists_without_ninja (w : World) (args : list string) :
  Forall (λ arg, strings.Contains arg "=" = true) args →
  ¬ ninjaInvoked (trace (runBuild w args))
  ∧ ∀ info availableTargets availableFlags,
      exit (prepareGenerator w args) = Return info →
      exit (getAvailableTargets w info) = Return availableTargets →
      exit (getAvailableFlags w info) = Return availableFlags →
      exit (runBuild w args) = Return ()
      ∧ trace (runBuild w args)
        = trace (prepareGenerator w args)
          ++ trace (getAvailableTargets w info)
          ++ trace (getAvailableFlags w info)
          ++ listing availableTargets availableFlags.
Proof.
  intros Hall. split.
  - apply notNinja_ninjaInvoked. by apply runBuild_no_targets_quiet.
  - intros info aT aF. by apply runBuild_no_targets.
Qed.

Lemma C3_no_target_lists_without_ninja_witness :
  Forall (λ arg, strings.Contains arg "=" = true) ["opt=1"]
  ∧ ¬ ninjaInvoked (trace (runBuild world1 ["opt=1"]))
  ∧ exit (runBuild world1 ["opt=1"]) = Return ()
  ∧ (listing {["a/x"; "ab/y"; "b/z"]} {["opt"]})
    `suffix_of` (trace (runBuild world1 ["opt=1"])).
Proof.
  assert (Hall : Forall (λ arg, strings.Contains arg "=" = true) ["opt=1"])
    by (repeat constructor).
  destruct (C3_no_target_lists_without_ninja world1 ["opt=1"] Hall)
    as [Hq Hl].
  destruct (Hl (preparedInfo world1 ["opt=1"]) {["a/x"; "ab/y"; "b/z"]}
              {["opt"]}) as [He Ht]; [vm_compute; reflexivity..|].
  split_and!; [done..|].
  rewrite Ht, !app_assoc. by eexists.
Defined.

(** C8: when at least one target label is supplied, a supplied flag
    [name=value] whose name, the part before the first =, is not among the
    flags the staged definitions declare makes the invocation end in a fatal
    error, and Ninja is not started. *)
Theorem C8_unknown_flag_is_fatal_before_ninja
    (w : World) (args : list string) (name value target : string) :
  strings.Contains name "=" = false →
  name +:+ "=" +:+ value ∈ args →
  target ∈ args →
  strings.Contains target "=" = false →
  (∀ info availableFlags,
     exit (prepareGenerator w args) = Return info →
     exit (getAvailableFlags w info) = Return availableFlags →
     name ∉ availableFlags) →
  (∃ e, exit (runBuild w args) = Fatal e)
  ∧ ¬ ninjaInvoked (trace (runBuild w args)).
Proof.
  intros Hname Hflag Htarget Hnot Hunknown.
  apply runBuild_fatal_before_ninja. intros info aT aF Hp Ht Hf. split.
  - apply (some_target_arg w args info target); [done| |done].
    unfold isFlag. congruence.
  - right.
    destruct (checkFlags_unknown aF (buildFlags info) (name +:+ "=" +:+ value))
      as [n Hn].
    + apply (flag_arg_kept w args); [done| |done]. apply Contains_app.
    + rewrite flag_name by done. by eapply Hunknown.
    + eauto.
Qed.

Lemma C8_unknown_flag_is_fatal_before_ninja_witness :
  strings.Contains "bogus" "=" = false
  ∧ "bogus" +:+ "=" +:+ "1" ∈ ["//a/x"; "bogus=1"]
  ∧ strings.Contains "//a/x" "=" = false
  ∧ exit (runBuild world1 ["//a/x"; "bogus=1"])
    = Fatal (FlagDoesNotExist "bogus")
  ∧ ¬ ninjaInvoked (trace (runBuild world1 ["//a/x"; "bogus=1"])).
Proof.
  assert (Hin : "bogus" +:+ "=" +:+ "1" ∈ ["//a/x"; "bogus=1"])
    by (right; left).
  destruct (C8_unknown_flag_is_fatal_before_ninja
              world1 ["//a/x"; "bogus=1"] "bogus" "1" "//a/x"
              eq_refl Hin ltac:(left) eq_refl) as [_ Hq].
  - intros info aF Hp Hf.
    apply prepareGenerator_Return in Hp as ->.
    assert (Hopt : exit (getAvailableFlags world1
                           (preparedInfo world1 ["//a/x"; "bogus=1"]))
                   = Return {["opt"]}) by (vm_compute; reflexivity).
    rewrite Hopt in Hf. injection Hf as <-.
    intros H%elem_of_singleton. discriminate H.
  - split_and!; [done..| |done]. vm_compute. reflexivity.
Defined.

(** C9: without a target the flags are not checked: although a supplied
    flag [name=value] has a name that is not declared, the command, once
    staging and the two queries have succeeded, prints the two lists and
    returns normally. *)
Theorem C9_no_target_skips_flag_validation
    (w : World) (args : list string) (name value : string)
    (info : buildInfo) (availableTargets availableFlags : gset string) :
  Forall (λ arg, strings.Contains arg "=" = true) args →
  name +:+ "=" +:+ value ∈ args →
  exit (prepareGenerator w args) = Return info →
  exit (getAvailableTargets w info) = Return availableTargets →
  exit (getAvailableFlags w info) = Return availableFlags →
  name ∉ availableFlags →
  name +:+ "=" +:+ value ∈ buildFlags info
  ∧ exit (runBuild w args) = Return ()
  ∧ trace (runBuild w args)
    = trace (prepareGenerator w args)
      ++ trace (getAvailableTargets w info)
      ++ trace (getAvailableFlags w info)
      ++ listing availableTargets availableFlags.
Proof.
  intros Hall Hflag Hp Ht Hf _. split.
  - apply (flag_arg_kept w args); [done| |done].
    rewrite Forall_forall in Hall. by apply Hall.
  - by apply runBuild_no_targets.
Qed.

Lemma C9_no_target_skips_flag_validation_witness :
  ("bogus" ∉@{gset string} {["opt"]})
  ∧ exit (runBuild world1 ["bogus=1"]) = Return ()
  ∧ (listing {["a/x"; "ab/y"; "b/z"]} {["opt"]})
    `suffix_of` (trace (runBuild world1 ["bogus=1"])).
Proof.
  assert (Hn : "bogus" ∉@{gset string} {["opt"]})
    by (intros H%elem_of_singleton; discriminate H).
  destruct (C9_no_target_skips_flag_validation world1 ["bogus=1"] "bogus" "1"
              (preparedInfo world1 ["bogus=1"]) {["a/x"; "ab/y"; "b/z"]}
              {["opt"]}) as (_ & He & Ht);
    [by repeat constructor|by left|vm_compute; reflexivity..|done|].
  split_and!; [done..|]. rewrite Ht, !app_assoc. by eexists.
Defined.

(** C10: the wildcard is matched on the string, not on the directory tree:
    among the labels [a/x], [ab/y] and [b/z] the argument [a...] selects
    [ab/y], a target of the sibling directory [ab/], next to [a/x], and
    both are handed to Ninja. *)
Theorem C10_wildcard_is_plain_string_prefix :
  strings.TrimSuffix "a..." "..." = "a"
  ∧ strings.HasPrefix "ab/y" "a/" = false
  ∧ exit (getAvailableTargets world1 (preparedInfo world1 ["//a..."]))
    = Return {["a/x"; "ab/y"; "b/z"]}
  ∧ forRange (expandTarget {["a/x"; "ab/y"; "b/z"]}) ∅ ["a..."]
    = mret {["a/x"; "ab/y"]}
  ∧ exit (runBuild world1 ["//a..."]) = Return ()
  ∧ last (trace (runBuild world1 ["//a..."]))
    = Some (Exec "ninja" ["a/x"; "ab/y"] "/ws/BUILD/BUILD-00000000/output").
Proof. split_and!; vm_compute; reflexivity. Qed.

(** * Clean absolute paths *)

Section paths.

Implicit Types (elems dirs sub : list string) (name rest : string).

Lemma Join_cons e elems sep :
  elems ≠ [] →
  strings.Join (e :: elems) sep = e +:+ sep +:+ strings.Join elems sep.
Proof. by destruct elems. Qed.

Lemma Join_app l1 l2 sep :
  l1 ≠ [] → l2 ≠ [] →
  strings.Join (l1 ++ l2) sep
  = strings.Join l1 sep +:+ sep +:+ strings.Join l2 sep.
Proof.
  intros H1 H2. induction l1 as [|e l1 IH]; [done|].
  destruct l1 as [|e' l1].
  - simpl app. by rewrite Join_cons.
  - change ((e :: e' :: l1) ++ l2) with (e :: ((e' :: l1) ++ l2)).
    rewrite Join_cons by done. rewrite IH by done.
    rewrite (Join_cons e (e' :: l1)) by done.
    by rewrite !app_assoc'.
Qed.

Lemma isName_slash_free e : isName e → strings.Contains e "/" = false.
Proof. by intros (_ & _ & _ & H). Qed.

Lemma Split_Join_slash elems s :
  elems ≠ [] → Forall isName elems →
  strings.Split (strings.Join elems "/" +:+ "/" +:+ s) "/"
  = elems ++ strings.Split s "/".
Proof.
  intros Hne Hall. induction Hall as [|e elems He Hall IH]; [done|].
  destruct elems as [|e' elems].
  - change (strings.Join [e] "/" +:+ "/" +:+ s) with (e +:+ String "/" s).
    by rewrite Split_app_sep by by apply isName_slash_free.
  - rewrite Join_cons, !app_assoc' by done.
    change (e +:+ "/" +:+ strings.Join (e' :: elems) "/" +:+ "/" +:+ s)
      with (e +:+ String "/"
              (strings.Join (e' :: elems) "/" +:+ "/" +:+ s)).
    rewrite Split_app_sep by by apply isName_slash_free.
    by rewrite IH.
Qed.

Lemma Split_Join elems :
  elems ≠ [] → Forall isName elems →
  strings.Split (strings.Join elems "/") "/" = elems.
Proof.
  intros Hne Hall. induction Hall as [|e elems He Hall IH]; [done|].
  destruct elems as [|e' elems].
  - simpl strings.Join. by rewrite Split_no_sep by by apply isName_slash_free.
  - rewrite Join_cons by done.
    change (e +:+ "/" +:+ strings.Join (e' :: elems) "/")
      with (e +:+ String "/" (strings.Join (e' :: elems) "/")).
    rewrite Split_app_sep by by apply isName_slash_free.
    by rewrite IH.
Qed.

Lemma cleanStep_name rooted out e :
  isName e → path.cleanStep rooted out e = e :: out.
Proof.
  intros (H1 & H2 & H3 & _). unfold path.cleanStep.
  by rewrite !decide_False.
Qed.

Lemma clean_loop_names rooted elems out :
  Forall isName elems →
  fold_left (path.cleanStep rooted) elems out = rev elems ++ out.
Proof.
  intros Hall. revert out. induction Hall as [|e elems He _ IH]; intros out.
  - done.
  - simpl. rewrite cleanStep_name, IH by done. by rewrite <-app_assoc.
Qed.

Lemma clean_loop_app rooted l1 l2 out :
  fold_left (path.cleanStep rooted) (l1 ++ l2) out
  = fold_left (path.cleanStep rooted) l2
      (fold_left (path.cleanStep rooted) l1 out).
Proof. apply fold_left_app. Qed.

Lemma HasPrefix_empty s : strings.HasPrefix s "" = true.
Proof. by destruct s. Qed.

(** [path.Clean] on a rooted path *)
Lemma Clean_rooted s :
  path.Clean (String "/" s)
  = "/" +:+ strings.Join
              (rev (fold_left (path.cleanStep true)
                      (strings.Split s "/") []))
              "/".
Proof.
  unfold path.Clean. rewrite decide_False by done.
  assert (strings.HasPrefix (String "/" s) "/" = true) as ->
    by (simpl; apply HasPrefix_empty).
  assert (strings.Split (String "/" s) "/" = "" :: strings.Split s "/")
    as -> by done.
  done.
Qed.

Lemma Clean_absPath elems :
  Forall isName elems → path.Clean (absPath elems) = absPath elems.
Proof.
  intros Hall. unfold absPath.
  change ("/" +:+ strings.Join elems "/")
    with (String "/" (strings.Join elems "/")).
  rewrite Clean_rooted.
  destruct elems as [|e elems]; [done|].
  rewrite Split_Join, clean_loop_names by done.
  by rewrite app_nil_r, rev_involutive.
Qed.

Lemma Clean_absPath_slash elems :
  elems ≠ [] → Forall isName elems →
  path.Clean (absPath elems +:+ "/") = absPath elems.
Proof.
  intros Hne Hall. unfold absPath. rewrite app_assoc'.
  change ("/" +:+ strings.Join elems "/" +:+ "/")
    with (String "/" (strings.Join elems "/" +:+ "/" +:+ "")).
  rewrite Clean_rooted, Split_Join_slash by done.
  rewrite clean_loop_app, (clean_loop_names true elems) by done.
  simpl fold_left. unfold path.cleanStep at 1. rewrite decide_True by done.
  by rewrite app_nil_r, rev_involutive.
Qed.

Lemma absPath_app elems more :
  elems ≠ [] → more ≠ [] →
  absPath (elems ++ more) = absPath elems +:+ "/" +:+ strings.Join more "/".
Proof.
  intros. unfold absPath. by rewrite Join_app, !app_assoc' by done.
Qed.

Lemma absPath_not_empty elems : absPath elems ≠ "".
Proof. done. Qed.

(** [path.Join] of a clean absolute directory and a relative path of
    plain names *)
Lemma path_Join_names elems more :
  elems ≠ [] → more ≠ [] → Forall isName elems → Forall isName more →
  path.Join [absPath elems; strings.Join more "/"] = absPath (elems ++ more).
Proof.
  intros Hne Hm Hall Hmore. unfold path.Join.
  assert (strings.Join more "/" ≠ "") as Hj.
  { destruct Hmore as [|e more He _]; [done|].
    destruct He as (He & _). destruct more; [done|].
    rewrite Join_cons by done. by destruct e. }
  rewrite filter_cons_True by done.
  rewrite filter_cons_True by done. rewrite filter_nil.
  change (strings.Join [absPath elems; strings.Join more "/"] "/")
    with (absPath elems +:+ "/" +:+ strings.Join more "/").
  rewrite <-absPath_app by done. apply Clean_absPath.
  by apply Forall_app.
Qed.


End paths.

(** * Normalization of a target *)

Section normalization.

Implicit Types (elems dirs sub : list string) (name rest : string).

Lemma LastIndexByte_none s c :
  strings.Contains s (String c "") = false → path.LastIndexByte s c = -1.
Proof.
  induction s as [|d s IH]; intros H; [done|].
  apply Contains_byte_cons in H as [Hd H].
  simpl. rewrite IH by done. simpl. by rewrite decide_False.
Qed.

Lemma LastIndexByte_last pre name :
  strings.Contains name "/" = false →
  path.LastIndexByte (pre +:+ String "/" name) "/"
  = Z.of_nat (strings.len pre).
Proof.
  intros Hn. induction pre as [|c pre IH].
  - rewrite app_empty_l. simpl. by rewrite LastIndexByte_none.
  - rewrite app_cons. simpl path.LastIndexByte. rewrite IH.
    rewrite (proj2 (Z.leb_le _ _)) by lia.
    unfold strings.len. simpl String.length. lia.
Qed.

Lemma path_Split_last pre name :
  strings.Contains name "/" = false →
  fst (path.Split (pre +:+ String "/" name)) = pre +:+ "/".
Proof.
  intros Hn. unfold path.Split. rewrite LastIndexByte_last by done.
  simpl fst.
  replace (Z.to_nat (Z.of_nat (strings.len pre) + 1))
    with (strings.len (pre +:+ "/")) by (rewrite len_app; simpl; lia).
  change (pre +:+ String "/" name) with (pre +:+ "/" +:+ name).
  rewrite <-app_assoc'. apply take_app.
Qed.

Lemma isName_last dirs name : Forall isName (dirs ++ [name]) → isName name.
Proof. intros [_ H]%Forall_app. by inversion H. Qed.

Lemma isName_init dirs name :
  Forall isName (dirs ++ [name]) → Forall isName dirs.
Proof. by intros [H _]%Forall_app. Qed.

(** the parent of a clean absolute path *)
Lemma Dir_absPath dirs name :
  Forall isName (dirs ++ [name]) →
  path.Dir (absPath (dirs ++ [name])) = absPath dirs.
Proof.
  intros Hall. pose proof (isName_last _ _ Hall) as Hn.
  pose proof (isName_init _ _ Hall) as Hd.
  apply isName_slash_free in Hn. unfold path.Dir.
  destruct dirs as [|d dirs].
  - change (absPath ([] ++ [name])) with ("" +:+ String "/" name).
    by rewrite path_Split_last.
  - rewrite absPath_app by done. simpl strings.Join.
    change (absPath (d :: dirs) +:+ "/" +:+ name)
      with (absPath (d :: dirs) +:+ String "/" name).
    rewrite path_Split_last by done. by apply Clean_absPath_slash.
Qed.

Lemma TrimLeft_slash s : strings.TrimLeft (String "/" s) "/" = strings.TrimLeft s "/".
Proof. reflexivity. Qed.

Lemma TrimLeft_name name s :
  isName name → strings.TrimLeft (name +:+ s) "/" = name +:+ s.
Proof.
  intros (Hne & _ & _ & Hs). destruct name as [|c name]; [done|].
  apply Contains_byte_cons in Hs as [Hc _].
  rewrite app_cons. simpl. by rewrite bool_decide_eq_false_2.
Qed.

(** what is left of a path inside a module once the parent of the module
    root is cut off and the leading slashes are trimmed *)
Lemma strip_module_parent dirs name s :
  Forall isName (dirs ++ [name]) →
  strings.TrimLeft
    (strings.TrimPrefix (absPath (dirs ++ [name]) +:+ s) (absPath dirs)
     +:+ "") "/"
  = name +:+ s
  ∧ strings.TrimLeft
      (strings.TrimPrefix (absPath (dirs ++ [name]) +:+ s) (absPath dirs)
       +:+ "/") "/"
    = name +:+ s +:+ "/".
Proof.
  intros Hall. pose proof (isName_last _ _ Hall) as Hn.
  destruct dirs as [|d dirs].
  - change (absPath ([] ++ [name]) +:+ s)
      with (absPath [] +:+ (name +:+ s)).
    rewrite TrimPrefix_app, !app_assoc', app_empty_r.
    by rewrite !TrimLeft_name.
  - rewrite absPath_app by done. simpl strings.Join.
    rewrite !app_assoc', TrimPrefix_app.
    change ("/" +:+ name +:+ s) with (String "/" (name +:+ s)).
    rewrite !app_cons, !TrimLeft_slash, !app_assoc', app_empty_r.
    by rewrite !TrimLeft_name.
Qed.

Variable w : World.

(** [normalizeTarget] on an argument that does not start with the
    workspace marker, when the joined path lies in the module root that
    [util.GetModuleRootForPath] reports for it *)
Lemma normalizeTarget_relative arg dirs name rest :
  strings.HasPrefix arg "//" = false →
  Forall isName (dirs ++ [name]) →
  GetModuleRootForPath w (path.Join [GetWorkingDir w; arg])
    = absPath (dirs ++ [name]) →
  path.Join [GetWorkingDir w; arg] = absPath (dirs ++ [name]) +:+ rest →
  normalizeTarget w arg
  = name +:+ rest
    +:+ (if strings.HasSuffix arg "/" || bool_decide (arg = "")
         then "/" else "").
Proof.
  intros Hrel Hall Hroot Hjoin. unfold normalizeTarget.
  rewrite Hrel, Hroot, Hjoin, Dir_absPath by done.
  destruct (strip_module_parent dirs name rest Hall) as [H1 H2].
  destruct (strings.HasSuffix arg "/" || bool_decide (arg = "")).
  - by rewrite H2.
  - rewrite app_empty_r. rewrite <-H1. by rewrite app_empty_r.
Qed.

Lemma normalizeTarget_rooted arg :
  strings.HasPrefix arg "//" = true →
  normalizeTarget w arg = strings.TrimLeft arg "/".
Proof. intros H. unfold normalizeTarget. by rewrite H. Qed.



End normalization.

(** C6, as stated, fails: with the module root [/ws/mod] and the caller in
    [/ws/mod/a/b], the argument [c] becomes [mod/a/b/c], not [a/b/c]. *)
Lemma C6_label_keeps_module_directory :
  ¬ ∀ (w : World) (moduleRoot : string),
      GetWorkingDir w = moduleRoot +:+ "/a/b" →
      GetModuleRootForPath w (path.Join [GetWorkingDir w; "c"]) = moduleRoot →
      normalizeTarget w "c" = "a/b/c".
Proof.
  intros H. specialize (H world1 "/ws/mod" eq_refl eq_refl).
  vm_compute in H. discriminate H.
Qed.

(** C6, amended: from the working directory [<moduleRoot>/a/b], where the
    module root is a clean absolute path whose last element is [name], the
    argument [c] is joined onto the working directory, the parent of the
    module root is cut off, and the label is [name/a/b/c]: the path below
    the module root, behind the name of the module's directory. *)
Theorem C6_normalize_relative_to_module_parent
    (w : World) (dirs : list string) (name : string) :
  Forall isName (dirs ++ [name]) →
  GetWorkingDir w = absPath (dirs ++ [name]) +:+ "/a/b" →
  GetModuleRootForPath w (path.Join [GetWorkingDir w; "c"])
    = absPath (dirs ++ [name]) →
  path.Join [GetWorkingDir w; "c"] = absPath (dirs ++ [name]) +:+ "/a/b/c"
  ∧ path.Dir (absPath (dirs ++ [name])) = absPath dirs
  ∧ normalizeTarget w "c" = name +:+ "/a/b/c".
Proof.
  intros Hall Hwd Hroot.
  assert (Hab : Forall isName ["a"; "b"]) by (repeat constructor; done).
  assert (Hc : Forall isName ["c"]) by (repeat constructor; done).
  assert (Hne : dirs ++ [name] ≠ []) by (by destruct dirs).
  assert (Hjoin : path.Join [GetWorkingDir w; "c"]
                  = absPath (dirs ++ [name]) +:+ "/a/b/c").
  { rewrite Hwd.
    change (absPath (dirs ++ [name]) +:+ "/a/b")
      with (absPath (dirs ++ [name]) +:+ "/" +:+ strings.Join ["a"; "b"] "/").
    rewrite <-absPath_app by done.
    change "c" with (strings.Join ["c"] "/").
    rewrite path_Join_names; [|by destruct dirs|done|by apply Forall_app|done].
    rewrite <-app_assoc. by rewrite absPath_app. }
  split_and!; [done|by apply Dir_absPath|].
  rewrite (normalizeTarget_relative w "c" dirs name "/a/b/c") by done.
  simpl. by rewrite app_empty_r.
Qed.

Lemma C6_normalize_relative_to_module_parent_witness :
  Forall isName (["ws"] ++ ["mod"])
  ∧ GetWorkingDir world1 = absPath (["ws"] ++ ["mod"]) +:+ "/a/b"
  ∧ normalizeTarget world1 "c" = "mod" +:+ "/a/b/c".
Proof.
  assert (Hall : Forall isName (["ws"] ++ ["mod"]))
    by (repeat constructor; done).
  split_and!; [done|reflexivity|].
  apply (C6_normalize_relative_to_module_parent world1 ["ws"] "mod" Hall);
    reflexivity.
Defined.




(** * The models of the library functions, on the values of their tests *)

Example crc32_check_value :
  fmt.Sprintf_08X (crc32.ChecksumIEEE "123456789") = "CBF43926".
Proof. vm_compute. reflexivity. Qed.

Example buildConfigName_no_flags : buildConfigName [] = "BUILD-00000000".
Proof. vm_compute. reflexivity. Qed.

Example Clean_examples :
  map path.Clean
    ["abc//def//ghi"; "abc/def/../ghi/../jkl"; "/../abc"; "../../abc";
     "abc/./../def"; ""; "/"; "abc/../../././../def"; "abc/"; "/abc/";
     "abc/def/../../.."; "//abc"; "/abc/def/../../../ghi"]
  = ["abc/def/ghi"; "abc/jkl"; "/abc"; "../../abc";
     "def"; "."; "/"; "../../def"; "abc"; "/abc";
     ".."; "/abc"; "/ghi"].
Proof. vm_compute. reflexivity. Qed.

Example Join_examples :
  map path.Join [["a"; "b"]; ["a"; ""]; [""; "b"]; [""; ""]; ["/ws/m"; "x/"];
                 ["/ws/m"; "../y"]; ["/ws/m"; "/"]]
  = ["a/b"; "a"; "b"; ""; "/ws/m/x"; "/ws/y"; "/ws/m"].
Proof. vm_compute. reflexivity. Qed.

Example Dir_examples :
  map path.Dir ["/a/b"; "/a/b/"; "/a"; "a"; ""; "/"; "a/b"; "//a"]
  = ["/a"; "/a/b"; "/"; "."; "."; "/"; "a"; "/"].
Proof. vm_compute. reflexivity. Qed.


(** * The earlier revision of the argument loop

    There an argument is a flag when it starts with two dashes, and a
    final separator of a target is not kept. *)

Example rev011_splitArgs :
  rev011.splitArgs world1 ["--opt"; "a=b"; "x/"; "//a/y"]
  = (["mod/a/b/a=b"; "mod/a/b/x"; "a/y"], ["--opt"]).
Proof. vm_compute. reflexivity. Qed.

(** * Further properties of the command *)

(** ** The restricted parser, on every file *)

Lemma elem_of_concat {A} (x : A) (ls : list (list A)) :
  x ∈ concat ls ↔ ∃ l, x ∈ l ∧ l ∈ ls.
Proof.
  induction ls as [|l0 ls IH]; simpl.
  - split; [by intros ?%elem_of_nil|by intros (? & _ & ?%elem_of_nil)].
  - rewrite elem_of_app, IH. split.
    + intros [?|(l & ? & ?)].
      * exists l0. split; [done|by left].
      * exists l. split; [done|by right].
    + intros (l & Hx & [->|?]%elem_of_cons); [by left|right; eauto].
Qed.

Lemma declNames_no_blank decl :
  declAccepted decl → "_" ∉ declNames decl.
Proof.
  destruct decl as [|Tok Specs|?]; simpl; [done| |done].
  intros H. induction H as [|spec Specs Hs _ IH]; simpl.
  - apply not_elem_of_nil.
  - rewrite elem_of_app. intros [Hin|Hin]; [|done].
    destruct spec as [?|Names|?]; simpl in *.
    + by apply elem_of_nil in Hin.
    + by destruct Hs.
    + done.
Qed.

(** X1: [parseBuildFile] returns exactly when the file parses and every
    top-level declaration is accepted (a general declaration whose specs
    are imports, or value specs under [var] that do not name the blank
    identifier). It then returns the package name and every declared
    identifier in source order, performs no effect, and the blank
    identifier is never among the targets. In every other case it is
    fatal. *)
Theorem X1_parseBuildFile_returns_iff_accepted
    (w : World) (buildFilePath : string) :
  ((∃ r, exit (parseBuildFile w buildFilePath) = Return r)
   ↔ ∃ fileAst, ParseFile w buildFilePath = Some fileAst
                ∧ Forall declAccepted (ast.Decls fileAst))
  ∧ (∀ packageName targets,
       exit (parseBuildFile w buildFilePath) = Return (packageName, targets) →
       ∃ fileAst,
         ParseFile w buildFilePath = Some fileAst
         ∧ packageName = ast.Name fileAst
         ∧ targets = concat (declNames <$> ast.Decls fileAst)
         ∧ ("_" ∉ targets)
         ∧ trace (parseBuildFile w buildFilePath) = []).
Proof.
  pose proof (parseBuildFile_spec buildFilePath w) as H.
  destruct (ParseFile w buildFilePath) as [f|] eqn:Hf.
  - destruct H as [Hok Hno]. split.
    + split.
      * intros [r Hr]. exists f. split; [done|].
        destruct (decide (Forall declAccepted (ast.Decls f))) as [|Hd]; [done|].
        destruct (Hno Hd) as (e & He & _). by rewrite He in Hr.
      * intros (f' & [= <-] & Hacc). rewrite (Hok Hacc). by eexists.
    + intros packageName targets Hr.
      destruct (decide (Forall declAccepted (ast.Decls f))) as [Hd|Hd].
      * rewrite (Hok Hd) in Hr |- *. injection Hr as <- <-.
        exists f. split_and!; try done.
        intros (names & Hin & Hn)%elem_of_concat.
        apply list_elem_of_fmap in Hn as (decl & -> & Hdecl).
        rewrite Forall_forall in Hd.
        by apply (declNames_no_blank decl (Hd _ Hdecl)).
      * destruct (Hno Hd) as (e & He & _). by rewrite He in Hr.
  - rewrite H. split.
    + split; [by intros [r Hr]|]. by intros (f & ? & _).
    + by intros ? ? ?.
Qed.

Lemma X1_parseBuildFile_returns_iff_accepted_witness :
  exit (parseBuildFile world1 "/ws/mod/a/BUILD.go") = Return ("a", ["x"])
  ∧ "_" ∉ ["x"].
Proof.
  assert (Hr : exit (parseBuildFile world1 "/ws/mod/a/BUILD.go")
               = Return ("a", ["x"])) by (vm_compute; reflexivity).
  split; [done|].
  destruct (X1_parseBuildFile_returns_iff_accepted world1 "/ws/mod/a/BUILD.go")
    as [_ H].
  destruct (H "a" ["x"] Hr) as (f & _ & _ & _ & Hn & _). exact Hn.
Defined.

(** ** The queries of the generator *)

Lemma getAvailable_loop (lines : list string) (result : gset string) :
  fold_left (λ (result : gset string) line,
      if decide (line ≠ "") then {[line]} ∪ result else result)
    lines result
  = result ∪ list_to_set (filter (λ line, line ≠ "") lines).
Proof.
  revert result. induction lines as [|line lines IH]; intros result.
  - simpl. by rewrite (right_id_L ∅ (∪)).
  - simpl fold_left. rewrite IH, filter_cons. case_decide.
    + rewrite list_to_set_cons.
      by rewrite (comm_L (∪) {[line]} result), <-(assoc_L (∪)).
    + done.
Qed.

Lemma getAvailable_unfold (w : World) kind info :
  getAvailable w kind info
  = mkM [Exec "go" (generatorArgs info kind) (buildFilesDir info);
         Stdout (stderr (Run w "go" (generatorArgs info kind)
                           (buildFilesDir info)))]
        (if failed (Run w "go" (generatorArgs info kind) (buildFilesDir info))
         then Fatal (GeneratorFailed kind)
         else Return (list_to_set
                        (filter (λ line, line ≠ "")
                           (strings.Split
                              (stdout (Run w "go" (generatorArgs info kind)
                                         (buildFilesDir info)))
                              "010")))).
Proof.
  unfold getAvailable, runGenerator. fold (generatorArgs info kind).
  destruct (failed _) eqn:Hf; [done|].
  cbn. rewrite getAvailable_loop. by rewrite (left_id_L ∅ (∪)).
Qed.

(** X2: a query of the generator starts one [go run] in the staging
    directory with the mode as third argument and the sorted flags last, and
    surfaces its standard error whether or not it succeeds. A failure of the
    process is fatal; otherwise the result holds exactly the non-empty lines
    of its standard output (never the empty string). *)
Theorem X2_getAvailable_nonempty_lines (w : World) (kind : string)
    (info : buildInfo) :
  let r := Run w "go" (generatorArgs info kind) (buildFilesDir info) in
  trace (getAvailable w kind info)
    = [Exec "go" (generatorArgs info kind) (buildFilesDir info);
       Stdout (stderr r)]
  ∧ (failed r = true →
     exit (getAvailable w kind info) = Fatal (GeneratorFailed kind))
  ∧ (failed r = false →
     ∃ result : gset string,
       exit (getAvailable w kind info) = Return result
       ∧ ("" ∉ result)
       ∧ ∀ line, line ∈ result
                 ↔ line ≠ "" ∧ line ∈ strings.Split (stdout r) "010").
Proof.
  intros r. rewrite getAvailable_unfold. fold r. split_and!.
  - done.
  - by intros ->.
  - intros ->. eexists. split; [done|].
    assert (Hm : ∀ line,
              line ∈@{gset string}
                list_to_set (filter (λ line, line ≠ "")
                               (strings.Split (stdout r) "010"))
              ↔ line ≠ "" ∧ line ∈ strings.Split (stdout r) "010")
      by (intros line; by rewrite elem_of_list_to_set, list_elem_of_filter).
    split; [|done]. intros [H _]%Hm. done.
Qed.

Lemma X2_getAvailable_nonempty_lines_witness :
  exit (getAvailable world1 "targets" (preparedInfo world1 []))
  = Return {["a/x"; "ab/y"; "b/z"]}
  ∧ ∃ result : gset string,
      exit (getAvailable world1 "targets" (preparedInfo world1 []))
      = Return result ∧ "" ∉ result.
Proof.
  split; [vm_compute; reflexivity|].
  destruct (X2_getAvailable_nonempty_lines world1 "targets"
              (preparedInfo world1 [])) as (_ & _ & H).
  destruct (H eq_refl) as (result & Hr & Hn & _). eauto.
Defined.

Lemma Split_printedLines (labels : list string) :
  Forall (λ label, strings.Contains label newline = false) labels →
  strings.Split (printedLines labels) "010" = labels ++ [""].
Proof.
  induction 1 as [|label labels Hl _ IH]; [done|].
  simpl printedLines.
  change (label +:+ newline +:+ printedLines labels)
    with (label +:+ String "010" (printedLines labels)).
  by rewrite Split_app_sep, IH.
Qed.

(** X3: round trip of the labels through a query: when the generator
    prints the labels one per line, each non-empty and free of newlines, the
    query yields exactly the set of these labels; their order and their
    repetition are lost. *)
Theorem X3_getAvailable_reads_back_printed_labels (w : World) (kind : string)
    (info : buildInfo) (labels : list string) :
  Forall (λ label, label ≠ "" ∧ strings.Contains label newline = false)
    labels →
  failed (Run w "go" (generatorArgs info kind) (buildFilesDir info)) = false →
  stdout (Run w "go" (generatorArgs info kind) (buildFilesDir info))
    = printedLines labels →
  exit (getAvailable w kind info) = Return (list_to_set labels).
Proof.
  intros Hall Hok Hout. rewrite getAvailable_unfold, Hok, Hout. simpl.
  rewrite Split_printedLines by (eapply Forall_impl; [done|]; by intros ? [? ?]).
  f_equal. apply set_eq. intros x.
  rewrite !elem_of_list_to_set, list_elem_of_filter, elem_of_app.
  rewrite list_elem_of_singleton. split.
  - intros [Hne [?|?]]; [done|congruence].
  - intros Hin. split; [|by left].
    rewrite Forall_forall in Hall. by destruct (Hall _ Hin).
Qed.

Lemma X3_getAvailable_reads_back_printed_labels_witness :
  exit (getAvailable world1 "targets" (preparedInfo world1 []))
  = Return (list_to_set ["a/x"; "ab/y"; "b/z"]).
Proof.
  apply (X3_getAvailable_reads_back_printed_labels world1 "targets"
           (preparedInfo world1 []) ["a/x"; "ab/y"; "b/z"]).
  - repeat constructor; done.
  - reflexivity.
  - reflexivity.
Defined.

(** ** Labels *)

Lemma TrimLeft_no_leading_slash s :
  strings.HasPrefix (strings.TrimLeft s "/") "/" = false.
Proof.
  induction s as [|c s IH]; [done|].
  simpl. destruct (bool_decide (c = "/"%char)) eqn:Hc; simpl; [done|].
  apply bool_decide_eq_false in Hc. rewrite decide_False; [done|congruence].
Qed.

Lemma TrimLeft_id s :
  strings.HasPrefix s "/" = false → strings.TrimLeft s "/" = s.
Proof.
  destruct s as [|c s]; [done|]. simpl.
  destruct (decide ("/"%char = c)) as [<-|Hc]; [by destruct s|].
  intros _. rewrite bool_decide_eq_false_2; [done|congruence].
Qed.

Lemma normalizeTarget_no_leading_slash (w : World) arg :
  strings.HasPrefix (normalizeTarget w arg) "/" = false.
Proof.
  unfold normalizeTarget. destruct (strings.HasPrefix arg "//");
    apply TrimLeft_no_leading_slash.
Qed.

Lemma normalizeTarget_marker (w : World) s :
  strings.HasPrefix s "/" = false → normalizeTarget w ("//" +:+ s) = s.
Proof.
  intros Hs. rewrite normalizeTarget_rooted by apply HasPrefix_app.
  change ("//" +:+ s) with (String "/" (String "/" s)).
  rewrite !TrimLeft_slash. by apply TrimLeft_id.
Qed.

(** X4: labels are canonical. The label of any argument, from any working
    directory, never starts with a separator; an argument made of the
    workspace marker and a string without a leading separator normalizes to
    that string whatever the surroundings; hence a label written behind the
    workspace marker normalizes to itself from anywhere. *)
Theorem X4_label_behind_marker_is_fixed (w w' : World) (arg : string) :
  strings.HasPrefix (normalizeTarget w arg) "/" = false
  ∧ normalizeTarget w' ("//" +:+ normalizeTarget w arg) = normalizeTarget w arg
  ∧ ∀ s, strings.HasPrefix s "/" = false →
         normalizeTarget w ("//" +:+ s) = s.
Proof.
  split_and!.
  - apply normalizeTarget_no_leading_slash.
  - apply normalizeTarget_marker, normalizeTarget_no_leading_slash.
  - intros s. apply normalizeTarget_marker.
Qed.

Lemma X4_label_behind_marker_is_fixed_witness :
  strings.HasPrefix "a/b/c" "/" = false
  ∧ normalizeTarget world1 ("//" +:+ "a/b/c") = "a/b/c".
Proof.
  split; [reflexivity|].
  destruct (X4_label_behind_marker_is_fixed world1 world1 "c") as (_ & _ & H).
  apply (H "a/b/c"). reflexivity.
Defined.

Lemma app_ends_with_slash p x q :
  x ≠ "" → p +:+ x = q +:+ "/" → ∃ x', x = x' +:+ "/".
Proof.
  intros Hx. revert q. induction p as [|c p IH]; intros q H.
  - rewrite app_empty_l in H. eauto.
  - destruct q as [|d q].
    + rewrite app_cons, app_empty_l in H. injection H as _ H.
      destruct p; [by destruct x|done].
    + rewrite !app_cons in H. injection H as _ H. by eapply IH.
Qed.

Lemma name_not_ending_with_slash p x :
  isName x → strings.HasSuffix (p +:+ x) "/" = false.
Proof.
  intros (Hne & _ & _ & Hs).
  apply not_true_is_false. intros E.
  apply HasSuffix_inv in E as [q Hq].
  destruct (app_ends_with_slash p x q Hne Hq) as [x' ->].
  pose proof (Contains_app x' "/" "") as Hc.
  rewrite app_empty_r in Hc. congruence.
Qed.

Lemma Join_names_no_final_slash names :
  names ≠ [] → Forall isName names →
  strings.HasSuffix (strings.Join names "/") "/" = false.
Proof.
  intros Hne Hall. induction Hall as [|x names Hx Hall IH]; [done|].
  destruct names as [|y names].
  - apply (name_not_ending_with_slash "" x Hx).
  - rewrite Join_cons by done.
    apply not_true_is_false. intros E.
    apply HasSuffix_inv in E as [q Hq].
    assert (Hj : strings.Join (y :: names) "/" ≠ "").
    { inversion Hall as [|? ? (Hy & _) _]; subst. destruct names.
      - done.
      - rewrite Join_cons by done. by destruct y. }
    rewrite <-app_assoc' in Hq.
    destruct (app_ends_with_slash _ _ q Hj Hq) as [x' Hx'].
    rewrite Hx', HasSuffix_app in IH. by specialize (IH ltac:(done)).
Qed.

Lemma Join_names_no_leading_slash names :
  Forall isName names →
  strings.HasPrefix (strings.Join names "/") "/" = false.
Proof.
  intros Hall. destruct Hall as [|x names Hx _]; [done|].
  destruct Hx as (Hne & _ & _ & Hs). destruct x as [|c x]; [done|].
  apply Contains_byte_cons in Hs as [Hc _].
  destruct names; simpl; rewrite ?app_cons; simpl;
    (rewrite decide_False; [done|congruence]).
Qed.

Lemma no_marker_without_slash s :
  strings.HasPrefix s "/" = false → strings.HasPrefix s "//" = false.
Proof.
  destruct s as [|c s]; [done|]. simpl.
  destruct (decide ("/"%char = c)); [by rewrite HasPrefix_empty|done].
Qed.

Lemma Join_names_not_empty names :
  names ≠ [] → Forall isName names → strings.Join names "/" ≠ "".
Proof.
  intros Hne Hall. destruct Hall as [|x names (Hx & _) _]; [done|].
  destruct names; [done|]. rewrite Join_cons by done. by destruct x.
Qed.

(** X5: a relative argument of plain names, given in a directory inside a
    module, is the path from the module's directory name down to it; it is
    the label that the same path written behind the workspace marker gets
    from anywhere (the equivalence stated in the comment of
    [normalizeTarget]). *)
Theorem X5_relative_argument_equals_rooted_form
    (w w' : World) (dirs sub argc : list string) (name : string) :
  Forall isName (dirs ++ name :: sub) →
  Forall isName argc → argc ≠ [] →
  GetWorkingDir w = absPath (dirs ++ name :: sub) →
  GetModuleRootForPath w (absPath (dirs ++ name :: sub ++ argc))
    = absPath (dirs ++ [name]) →
  normalizeTarget w (strings.Join argc "/")
    = strings.Join (name :: sub ++ argc) "/"
  ∧ normalizeTarget w' ("//" +:+ strings.Join (name :: sub ++ argc) "/")
    = normalizeTarget w (strings.Join argc "/").
Proof.
  intros Hall Hargc Hne Hwd Hroot.
  assert (Hd : Forall isName (dirs ++ [name])).
  { apply Forall_app in Hall as [Hd Hs]. apply Forall_app. split; [done|].
    inversion Hs; subst. by apply Forall_singleton. }
  assert (Hsub : Forall isName (sub ++ argc)).
  { apply Forall_app in Hall as [_ Hs]. inversion Hs; subst.
    by apply Forall_app. }
  assert (Hjoin : path.Join [GetWorkingDir w; strings.Join argc "/"]
                  = absPath (dirs ++ [name]) +:+ "/"
                    +:+ strings.Join (sub ++ argc) "/").
  { rewrite Hwd, path_Join_names; [|by destruct dirs|done..].
    rewrite <-absPath_app; [|by destruct dirs|by destruct sub, argc].
    f_equal. by rewrite <-!app_assoc. }
  assert (Hlabel : normalizeTarget w (strings.Join argc "/")
                   = strings.Join (name :: sub ++ argc) "/").
  { rewrite (normalizeTarget_relative w _ dirs name
               ("/" +:+ strings.Join (sub ++ argc) "/")).
    - rewrite Join_names_no_final_slash by done.
      rewrite bool_decide_eq_false_2 by by apply Join_names_not_empty.
      rewrite (Join_cons name (sub ++ argc)) by (by destruct sub, argc).
      change (false || false) with false. cbv iota.
      by rewrite !app_assoc', app_empty_r.
    - by apply no_marker_without_slash, Join_names_no_leading_slash.
    - done.
    - rewrite Hjoin, <-absPath_app; [|by destruct dirs|by destruct sub, argc].
      rewrite <-Hroot. f_equal. by rewrite <-!app_assoc.
    - done. }
  split; [done|]. rewrite Hlabel. apply normalizeTarget_marker.
  apply Join_names_no_leading_slash.
  apply Forall_app in Hall as [_ Hs]. inversion Hs; subst.
  constructor; [done|by apply Forall_app].
Qed.

Lemma X5_relative_argument_equals_rooted_form_witness :
  normalizeTarget world1 (strings.Join ["to"; "mylib.a"] "/")
    = "mod/a/b/to/mylib.a"
  ∧ normalizeTarget world1 "//mod/a/b/to/mylib.a"
    = normalizeTarget world1 "to/mylib.a".
Proof.
  apply (X5_relative_argument_equals_rooted_form world1 world1
           ["ws"] ["a"; "b"] ["to"; "mylib.a"] "mod");
    try reflexivity; try done; repeat constructor; done.
Defined.

(** ** The build directory of a configuration *)

Lemma upperHex_not_slash d : fmt.upperHex d ≠ "/"%char.
Proof. unfold fmt.upperHex. repeat case_match; done. Qed.

Lemma Contains_byte_cons_false c s sep :
  c ≠ sep → strings.Contains s (String sep "") = false →
  strings.Contains (String c s) (String sep "") = false.
Proof.
  intros Hc Hs. rewrite Contains_unfold, Hs. simpl.
  rewrite decide_False; [done|congruence].
Qed.

Lemma hexDigits_no_slash n v acc :
  strings.Contains acc "/" = false →
  strings.Contains (fmt.hexDigits n v acc) "/" = false.
Proof.
  revert v acc. induction n as [|n IH]; intros v acc Hacc; [done|].
  simpl. apply IH. apply Contains_byte_cons_false; [|done].
  apply upperHex_not_slash.
Qed.

Lemma buildConfigName_isName (flags : list string) :
  isName (buildConfigName flags).
Proof.
  unfold isName, buildConfigName, buildDirName.
  change ("BUILD" +:+ "-" +:+ ?d)
    with (String "B" (String "U" (String "I" (String "L" (String "D"
            (String "-" d)))))).
  split_and!; try done.
  repeat (apply Contains_byte_cons_false; [done|]).
  by apply hexDigits_no_slash.
Qed.

Lemma filter_names names :
  Forall isName names → filter (λ e : string, e ≠ "") names = names.
Proof.
  induction 1 as [|x names (Hx & _) _ IH]; [done|].
  by rewrite filter_cons_True, IH.
Qed.

Lemma cleanStep_empty rooted out : path.cleanStep rooted out "" = out.
Proof. unfold path.cleanStep. by rewrite decide_True. Qed.

Lemma cleanStep_dot rooted out : path.cleanStep rooted out "." = out.
Proof.
  unfold path.cleanStep. rewrite decide_False by done.
  by rewrite decide_True.
Qed.

Lemma clean_loop_cons rooted e l out :
  fold_left (path.cleanStep rooted) (e :: l) out
  = fold_left (path.cleanStep rooted) l (path.cleanStep rooted out e).
Proof. reflexivity. Qed.

(** [path.Join] of a clean absolute directory and further names *)
Lemma path_Join_list elems names :
  Forall isName elems → Forall isName names →
  path.Join (absPath elems :: names) = absPath (elems ++ names).
Proof.
  intros He Hn. unfold path.Join.
  rewrite filter_cons_True, filter_names by done.
  destruct names as [|x names].
  - rewrite app_nil_r. by apply Clean_absPath.
  - rewrite Join_cons by done.
    destruct elems as [|e elems].
    + change (absPath [] +:+ "/" +:+ strings.Join (x :: names) "/")
        with (String "/" (String "/" (strings.Join (x :: names) "/"))).
      rewrite Clean_rooted.
      change (strings.Split (String "/" ?s) "/")
        with ("" :: strings.Split s "/").
      rewrite Split_Join by done.
      rewrite clean_loop_cons, cleanStep_empty, clean_loop_names by done.
      by rewrite app_nil_r, rev_involutive.
    + rewrite <-absPath_app by done. apply Clean_absPath.
      by apply Forall_app.
Qed.

Ltac solve_names :=
  repeat (apply List.Forall_cons; [done|]); apply List.Forall_nil.

(** X6: the layout on disk. With the workspace root a clean absolute path,
    the [buildInfo] that [prepareGenerator] returns places the outputs in
    [<root>/BUILD/<name>/output] and the staging tree in
    [<root>/BUILD/<name>/buildfiles], where [<name>] is the configuration
    name of the flags among the arguments; that name is a single path
    element (not empty, free of separators, neither [.] nor [..]) whatever
    the flags hold. *)
Theorem X6_build_directories_layout
    (w : World) (args : list string) (info : buildInfo) (rs : list string) :
  Forall isName rs →
  GetWorkspaceRoot w = absPath rs →
  exit (prepareGenerator w args) = Return info →
  let name := buildConfigName (filter isFlag args) in
  isName name
  ∧ buildOutputDir info = absPath (rs ++ ["BUILD"; name; "output"])
  ∧ buildFilesDir info = absPath (rs ++ ["BUILD"; name; "buildfiles"]).
Proof.
  intros Hrs Hroot ->%prepareGenerator_Return name.
  pose proof (buildConfigName_isName (filter isFlag args)) as Hname.
  fold name in Hname.
  assert (Hb : isName "BUILD") by done.
  assert (Hdir : path.Join [GetWorkspaceRoot w; buildDirName; name]
                 = absPath (rs ++ ["BUILD"; name])).
  { rewrite Hroot. apply path_Join_list; [done|]. solve_names. }
  split; [done|]. unfold preparedInfo. simpl. fold name. rewrite Hdir.
  assert (Hall : Forall isName (rs ++ ["BUILD"; name])).
  { apply Forall_app. split; [done|]. solve_names. }
  rewrite !path_Join_list by first [done|solve_names].
  by rewrite <-!app_assoc.
Qed.

Lemma X6_build_directories_layout_witness :
  buildOutputDir (preparedInfo world1 ["opt=1"; "x"])
    = "/ws/BUILD/BUILD-DEB13F15/output"
  ∧ buildFilesDir (preparedInfo world1 ["opt=1"; "x"])
    = "/ws/BUILD/BUILD-DEB13F15/buildfiles".
Proof.
  destruct (X6_build_directories_layout world1 ["opt=1"; "x"]
              (preparedInfo world1 ["opt=1"; "x"]) ["ws"])
    as (_ & Ho & Hf).
  - repeat constructor; done.
  - reflexivity.
  - vm_compute. reflexivity.
  - rewrite Ho, Hf. split; vm_compute; reflexivity.
Defined.

(** X7: the configuration depends on the flags only. Two argument lists
    whose flags are the same up to order hand the same flags, in the same
    (sorted) order, to the generator and use the same staging and output
    directories, whatever targets they name and wherever the flags stand
    among the targets. *)
Theorem X7_configuration_depends_on_flags_only
    (w : World) (args1 args2 : list string) (info1 info2 : buildInfo) :
  filter isFlag args1 ≡ₚ filter isFlag args2 →
  exit (prepareGenerator w args1) = Return info1 →
  exit (prepareGenerator w args2) = Return info2 →
  buildFlags info1 = buildFlags info2
  ∧ buildOutputDir info1 = buildOutputDir info2
  ∧ buildFilesDir info1 = buildFilesDir info2
  ∧ ∀ mode, generatorArgs info1 mode = generatorArgs info2 mode.
Proof.
  intros Hp ->%prepareGenerator_Return ->%prepareGenerator_Return.
  unfold generatorArgs, preparedInfo, buildConfigName. simpl.
  by rewrite (Sort_Permutation _ _ Hp).
Qed.

Lemma X7_configuration_depends_on_flags_only_witness :
  buildOutputDir (preparedInfo world1 ["b=2"; "x"; "a=1"])
  = buildOutputDir (preparedInfo world1 ["//y/..."; "a=1"; "b=2"]).
Proof.
  destruct (X7_configuration_depends_on_flags_only world1
              ["b=2"; "x"; "a=1"] ["//y/..."; "a=1"; "b=2"]
              (preparedInfo world1 ["b=2"; "x"; "a=1"])
              (preparedInfo world1 ["//y/..."; "a=1"; "b=2"]))
    as (_ & H & _).
  - apply perm_swap.
  - vm_compute. reflexivity.
  - vm_compute. reflexivity.
  - exact H.
Defined.

(** ** Expansion of the targets *)

Lemma expandTarget_resolves (availableTargets unique : gset string) target :
  expandTarget availableTargets unique target
  = if decide (resolves availableTargets target)
    then mret (unique ∪ selected availableTargets target)
    else fatal (targetError target).
Proof.
  destruct (decide (resolves availableTargets target)) as [Hr|Hr];
    unfold resolves in Hr; unfold selected, targetError;
    destruct (strings.HasSuffix target "...") eqn:Hs.
  - rewrite expandTarget_wildcard by done. by rewrite decide_False.
  - rewrite expandTarget_plain by done. rewrite decide_True by done.
    by rewrite (comm_L (∪)).
  - rewrite expandTarget_wildcard by done. rewrite decide_True; [done|].
    by apply dec_stable.
  - rewrite expandTarget_plain by done. by rewrite decide_False.
Qed.

Lemma expandTargets_resolved (availableTargets unique : gset string) targets :
  Forall (resolves availableTargets) targets →
  forRange (expandTarget availableTargets) unique targets
  = mret (unique ∪ ⋃ (selected availableTargets <$> targets)).
Proof.
  intros H. revert unique. induction H as [|t targets Ht _ IH]; intros unique.
  - simpl. by rewrite (right_id_L ∅ (∪)).
  - rewrite forRange_cons, expandTarget_resolves, decide_True by done.
    rewrite mret_bind, IH. simpl. by rewrite (assoc_L (∪)).
Qed.

Lemma expandTargets_first_failure
    (availableTargets unique : gset string) ok target rest :
  Forall (resolves availableTargets) ok →
  ¬ resolves availableTargets target →
  forRange (expandTarget availableTargets) unique (ok ++ target :: rest)
  = fatal (targetError target).
Proof.
  intros H Hn. revert unique. induction H as [|t ok Ht _ IH]; intros unique.
  - simpl app. rewrite forRange_cons, expandTarget_resolves.
    by rewrite decide_False.
  - simpl app. rewrite forRange_cons, expandTarget_resolves.
    rewrite decide_True by done. by rewrite mret_bind, IH.
Qed.

Lemma selected_subseteq (availableTargets : gset string) target :
  resolves availableTargets target →
  selected availableTargets target ⊆ availableTargets
  ∧ selected availableTargets target ≠ ∅.
Proof.
  unfold resolves, selected, labelsWithPrefix.
  destruct (strings.HasSuffix target "...").
  - intros H. split; [|done]. intros x [_ Hx]%elem_of_filter. done.
  - intros H. split.
    + intros x ->%elem_of_singleton. done.
    + intros He. assert (target ∈@{gset string} {[target]}) as Hin
        by by apply elem_of_singleton.
      rewrite He in Hin. by apply not_elem_of_empty in Hin.
Qed.

(** X8: the loop over the targets. When every target resolves (a plain
    target is a discovered label, a wildcard has at least one match) the
    loop yields the union of what each target stands for: a set of
    discovered labels, not empty unless there is no target, and the same for
    any other order or repetition of the same targets. Otherwise it is fatal
    with the error of the first target, in the order of the arguments, that
    does not resolve. *)
Theorem X8_expansion_is_union_of_selections
    (availableTargets : gset string) (targets : list string) :
  (Forall (resolves availableTargets) targets →
   forRange (expandTarget availableTargets) ∅ targets
     = mret (⋃ (selected availableTargets <$> targets))
   ∧ ⋃ (selected availableTargets <$> targets) ⊆ availableTargets
   ∧ (targets ≠ [] → ⋃ (selected availableTargets <$> targets) ≠ ∅)
   ∧ ∀ targets', (∀ t, t ∈ targets ↔ t ∈ targets') →
       forRange (expandTarget availableTargets) ∅ targets'
       = forRange (expandTarget availableTargets) ∅ targets)
  ∧ (∀ ok target rest,
       targets = ok ++ target :: rest →
       Forall (resolves availableTargets) ok →
       ¬ resolves availableTargets target →
       forRange (expandTarget availableTargets) ∅ targets
       = fatal (targetError target)).
Proof.
  split.
  - intros Hall. split_and!.
    + rewrite expandTargets_resolved by done. by rewrite (left_id_L ∅ (∪)).
    + intros x (X & HX & Hx)%elem_of_union_list.
      apply list_elem_of_fmap in HX as (t & -> & Ht).
      rewrite Forall_forall in Hall.
      by apply (selected_subseteq _ _ (Hall _ Ht)).
    + destruct targets as [|t targets]; [done|]. intros _.
      apply Forall_cons in Hall as [Ht _].
      destruct (selected_subseteq _ _ Ht) as [_ Hne].
      apply set_choose_L in Hne as [x Hx]. intros He.
      assert (x ∈ ⋃ (selected availableTargets <$> t :: targets)) as Hin
        by (simpl; apply elem_of_union; by left).
      rewrite He in Hin. by apply not_elem_of_empty in Hin.
    + intros targets' Hsame.
      assert (Hall' : Forall (resolves availableTargets) targets').
      { rewrite Forall_forall in Hall |- *. intros t Ht.
        by apply Hall, Hsame. }
      rewrite !expandTargets_resolved by done. f_equal. f_equal.
      apply set_eq. intros x. rewrite !elem_of_union_list. split.
      * intros (X & (t & -> & Ht)%list_elem_of_fmap & Hx).
        exists (selected availableTargets t). split; [|done].
        apply list_elem_of_fmap. exists t. split; [done|by apply Hsame].
      * intros (X & (t & -> & Ht)%list_elem_of_fmap & Hx).
        exists (selected availableTargets t). split; [|done].
        apply list_elem_of_fmap. exists t. split; [done|by apply Hsame].
  - intros ok target rest -> Hok Hn. by apply expandTargets_first_failure.
Qed.

Lemma X8_expansion_is_union_of_selections_witness :
  forRange (expandTarget {["a/x"; "ab/y"; "b/z"]}) ∅ ["b/z"; "a..."; "b/z"]
    = mret {["a/x"; "ab/y"; "b/z"]}
  ∧ forRange (expandTarget {["a/x"; "ab/y"; "b/z"]}) ∅ ["b/z"; "c"; "d..."]
    = fatal (TargetDoesNotExist "c").
Proof.
  destruct (X8_expansion_is_union_of_selections {["a/x"; "ab/y"; "b/z"]}
              ["b/z"; "a..."; "b/z"]) as [H1 _].
  destruct (X8_expansion_is_union_of_selections {["a/x"; "ab/y"; "b/z"]}
              ["b/z"; "c"; "d..."]) as [_ H2].
  split.
  - destruct H1 as (-> & _).
    + repeat (apply List.Forall_cons; [vm_compute; done|]). constructor.
    + vm_compute. reflexivity.
  - rewrite (H2 ["b/z"] "c" ["d..."]); [done|done| |].
    + apply List.Forall_cons; [vm_compute; done|constructor].
    + vm_compute. done.
Defined.

(** ** From the targets to Ninja *)

Lemma expandTargets_unresolved (availableTargets unique : gset string) targets :
  ¬ Forall (resolves availableTargets) targets →
  ∃ e, forRange (expandTarget availableTargets) unique targets = fatal e.
Proof.
  revert unique. induction targets as [|t targets IH]; intros unique Hn.
  - destruct Hn. constructor.
  - rewrite forRange_cons, expandTarget_resolves. case_decide as Ht.
    + rewrite mret_bind. apply IH. intros H. apply Hn. by constructor.
    + eexists. apply fatal_bind.
Qed.

Lemma checkFlags_first_unknown (availableFlags : gset string) known flag rest :
  Forall (λ f, flagName f ∈ availableFlags) known →
  flagName flag ∉ availableFlags →
  checkFlags availableFlags (known ++ flag :: rest)
  = fatal (FlagDoesNotExist (flagName flag)).
Proof.
  intros H Hn. induction H as [|f known Hf _ IH].
  - simpl app. rewrite checkFlags_cons. fold (flagName flag).
    by rewrite decide_False.
  - simpl app. rewrite checkFlags_cons. fold (flagName f).
    rewrite decide_True by done. by rewrite mret_bind.
Qed.

Lemma checkFlags_all_known (availableFlags : gset string) flags :
  Forall (λ f, flagName f ∈ availableFlags) flags →
  checkFlags availableFlags flags = mret ().
Proof.
  intros H. apply checkFlags_known. by apply Forall_forall.
Qed.

Lemma checkFlags_some_unknown (availableFlags : gset string) flags :
  ¬ Forall (λ f, flagName f ∈ availableFlags) flags →
  ∃ e, checkFlags availableFlags flags = fatal e.
Proof.
  intros Hn. apply not_Forall_Exists in Hn; [|apply _].
  apply Exists_exists in Hn as (f & Hin & Hf).
  destruct (checkFlags_unknown availableFlags flags f Hin Hf) as [n Hn].
  eauto.
Qed.

Lemma runNinja_unfold (w : World) (info : buildInfo) :
  runNinja w info
  = let g := Run w "go" (generatorArgs info "ninja") (buildFilesDir info) in
    let args :=
      if Verbose w then "-v" :: ninjaTargets info else ninjaTargets info in
    if failed g
    then mkM [Exec "go" (generatorArgs info "ninja") (buildFilesDir info);
              Stdout (stderr g)]
             (Fatal (GeneratorFailed "ninja"))
    else mkM [Exec "go" (generatorArgs info "ninja") (buildFilesDir info);
              Stdout (stderr g);
              WriteFile (path.Join [buildOutputDir info; ninjaFileName])
                (Bytes (stdout g));
              Exec "ninja" args (buildOutputDir info)]
             (if failed (Run w "ninja" args (buildOutputDir info))
              then Fatal NinjaFailed else Return ()).
Proof.
  unfold runNinja, runGenerator. fold (generatorArgs info "ninja").
  cbv zeta. destruct (failed (Run w "go" _ _)); [done|].
  by destruct (failed (Run w "ninja" _ _)).
Qed.

Lemma buildRequested_validated (w : World) info
    (availableTargets availableFlags : gset string) :
  Forall (resolves availableTargets) (targets info) →
  Forall (λ f, flagName f ∈ availableFlags) (buildFlags info) →
  buildRequested w info availableTargets availableFlags
  = runNinja w
      {| workingDir := workingDir info; sourceDir := sourceDir info;
         buildOutputDir := buildOutputDir info;
         buildFilesDir := buildFilesDir info;
         buildFlags := buildFlags info;
         targets := targets info;
         ninjaTargets :=
           ninjaTargets info
           ++ elements (⋃ (selected availableTargets <$> targets info)) |}.
Proof.
  intros Ht Hf. unfold buildRequested.
  rewrite expandTargets_resolved, mret_bind by done. simpl buildFlags.
  rewrite checkFlags_all_known, mret_bind by done.
  by rewrite (left_id_L ∅ (∪)).
Qed.

Lemma ninjaInvoked_app tr1 tr2 :
  ninjaInvoked (tr1 ++ tr2) ↔ ninjaInvoked tr1 ∨ ninjaInvoked tr2.
Proof.
  unfold ninjaInvoked. split.
  - intros (a & d & [H|H]%elem_of_app); [left|right]; eauto.
  - intros [(a & d & H)|(a & d & H)]; exists a, d; apply elem_of_app; auto.
Qed.

Ltac quiet_contra H := exfalso; revert H; apply notNinja_ninjaInvoked.

(** X9: Ninja is never started unless everything before it has gone
    through: staging and both queries have succeeded, at least one target is
    given, every target resolves, every flag has a declared name, and the
    generator has produced the build file. *)
Theorem X9_ninja_only_after_full_validation (w : World) (args : list string) :
  ninjaInvoked (trace (runBuild w args)) →
  ∃ info (availableTargets availableFlags : gset string),
    exit (prepareGenerator w args) = Return info
    ∧ exit (getAvailableTargets w info) = Return availableTargets
    ∧ exit (getAvailableFlags w info) = Return availableFlags
    ∧ targets info ≠ []
    ∧ Forall (resolves availableTargets) (targets info)
    ∧ Forall (λ flag, flagName flag ∈ availableFlags) (buildFlags info)
    ∧ failed (Run w "go" (generatorArgs info "ninja") (buildFilesDir info))
      = false.
Proof.
  apply (runBuild_cases w args (λ m, ninjaInvoked (trace m) → _)).
  - intros Hq _ Hn. by apply notNinja_ninjaInvoked in Hq.
  - intros info aT aF Hp Ht Hf Hn.
    destruct (runBuild_after_discovery w args _ _ _ Hp Ht Hf) as [Htr _].
    cbv zeta in Htr. rewrite Htr in Hn.
    apply (ninjaInvoked_app (trace (prepareGenerator w args))) in Hn
      as [Hn|Hn].
    { quiet_contra Hn. apply quiet_prepareGenerator. }
    apply (ninjaInvoked_app (trace (getAvailableTargets w info))) in Hn
      as [Hn|Hn].
    { quiet_contra Hn. apply quiet_getAvailable. }
    apply (ninjaInvoked_app (trace (getAvailableFlags w info))) in Hn
      as [Hn|Hn].
    { quiet_contra Hn. apply quiet_getAvailable. }
    case_decide as Hlen.
    { rewrite printAvailable_eq in Hn. quiet_contra Hn. apply quiet_listing. }
    destruct (decide (Forall (resolves aT) (targets info))) as [Hres|Hno].
    2:{ destruct (expandTargets_unresolved aT ∅ _ Hno) as [e He].
        destruct (buildRequested_fatal w info aT aF) as [Hnil _];
          [left; eauto|].
        rewrite Hnil in Hn. by destruct Hn as (? & ? & ?%elem_of_nil). }
    destruct (decide (Forall (λ f, flagName f ∈ aF) (buildFlags info)))
      as [Hknown|Hno].
    2:{ destruct (checkFlags_some_unknown aF _ Hno) as [e He].
        destruct (buildRequested_fatal w info aT aF) as [Hnil _];
          [right; eauto|].
        rewrite Hnil in Hn. by destruct Hn as (? & ? & ?%elem_of_nil). }
    exists info, aT, aF. split_and!; try done.
    + intros Hnil. by rewrite Hnil in Hlen.
    + apply not_true_is_false. intros Hfail.
      rewrite buildRequested_validated, runNinja_unfold in Hn by done.
      cbv zeta in Hn. simpl buildFilesDir in Hn.
      change (generatorArgs _ "ninja") with (generatorArgs info "ninja") in Hn.
      rewrite Hfail in Hn. quiet_contra Hn. by repeat constructor.
Qed.

Lemma X9_ninja_only_after_full_validation_witness :
  ninjaInvoked (trace (runBuild world1 ["//a/x"; "opt=1"]))
  ∧ ∃ info (availableTargets availableFlags : gset string),
      exit (prepareGenerator world1 ["//a/x"; "opt=1"]) = Return info
      ∧ exit (getAvailableTargets world1 info) = Return availableTargets
      ∧ Forall (resolves availableTargets) (targets info).
Proof.
  assert (H : ninjaInvoked (trace (runBuild world1 ["//a/x"; "opt=1"]))).
  { exists ["a/x"], "/ws/BUILD/BUILD-DEB13F15/output".
    apply list_elem_of_In. vm_compute. tauto. }
  split; [exact H|].
  destruct (X9_ninja_only_after_full_validation world1 ["//a/x"; "opt=1"] H)
    as (info & aT & aF & Hp & Ht & _ & _ & Hr & _).
  exists info, aT, aF. split; [exact Hp|split; [exact Ht|exact Hr]].
Defined.

(** X10: a build that goes through. When staging and both queries have
    succeeded, a target is given, every target resolves, every flag is
    declared and the generator produces the graph, the command runs the
    generator in mode [ninja], writes its standard output as it is to
    [build.ninja] in the output directory and only then starts Ninja there,
    on the expanded labels (behind [-v] when verbose): each label once, each
    a discovered target. The command ends as Ninja does. *)
Theorem X10_validated_build_runs_ninja_on_expanded_labels
    (w : World) (args : list string) (info : buildInfo)
    (availableTargets availableFlags : gset string) :
  exit (prepareGenerator w args) = Return info →
  exit (getAvailableTargets w info) = Return availableTargets →
  exit (getAvailableFlags w info) = Return availableFlags →
  targets info ≠ [] →
  Forall (resolves availableTargets) (targets info) →
  Forall (λ flag, flagName flag ∈ availableFlags) (buildFlags info) →
  failed (Run w "go" (generatorArgs info "ninja") (buildFilesDir info))
    = false →
  let g := Run w "go" (generatorArgs info "ninja") (buildFilesDir info) in
  let labels := ⋃ (selected availableTargets <$> targets info) in
  trace (runBuild w args)
    = trace (prepareGenerator w args)
      ++ trace (getAvailableTargets w info)
      ++ trace (getAvailableFlags w info)
      ++ [Exec "go" (generatorArgs info "ninja") (buildFilesDir info);
          Stdout (stderr g);
          WriteFile (path.Join [buildOutputDir info; "build.ninja"])
            (Bytes (stdout g));
          Exec "ninja" (ninjaArgs w labels) (buildOutputDir info)]
  ∧ exit (runBuild w args)
    = (if failed (Run w "ninja" (ninjaArgs w labels) (buildOutputDir info))
       then Fatal NinjaFailed else Return ())
  ∧ NoDup (elements labels)
  ∧ ∀ label, label ∈ elements labels → label ∈ availableTargets.
Proof.
  intros Hp Ht Hf Hne Hres Hknown Hgen g labels.
  destruct (runBuild_after_discovery w args _ _ _ Hp Ht Hf) as [Htr Hex].
  cbv zeta in Htr, Hex.
  rewrite decide_False in Htr, Hex by (by destruct (targets info)).
  rewrite buildRequested_validated, runNinja_unfold in Htr, Hex by done.
  cbv zeta in Htr, Hex. simpl buildFilesDir in Htr, Hex.
  simpl buildOutputDir in Htr, Hex. simpl ninjaTargets in Htr, Hex.
  change (generatorArgs _ "ninja") with (generatorArgs info "ninja")
    in Htr, Hex.
  rewrite Hgen in Htr, Hex.
  assert (Hnil : ninjaTargets info = [])
    by (by apply prepareGenerator_Return in Hp as ->).
  rewrite Hnil in Htr, Hex. simpl app in Htr, Hex.
  assert (Hargs : (if Verbose w then "-v" :: elements labels
                   else elements labels) = ninjaArgs w labels)
    by (unfold ninjaArgs; by destruct (Verbose w)).
  fold labels in Htr, Hex. rewrite Hargs in Htr, Hex.
  split_and!; [done|done|apply NoDup_elements|].
  intros label Hl%elem_of_elements.
  apply elem_of_union_list in Hl as (X & (t & -> & Hin)%list_elem_of_fmap & Hx).
  rewrite Forall_forall in Hres.
  by apply (selected_subseteq _ _ (Hres _ Hin)).
Qed.

Lemma X10_validated_build_runs_ninja_on_expanded_labels_witness :
  exit (runBuild world1 ["//a..."; "//a/x"; "opt=1"]) = Return ()
  ∧ last (trace (runBuild world1 ["//a..."; "//a/x"; "opt=1"]))
    = Some (Exec "ninja" ["a/x"; "ab/y"] "/ws/BUILD/BUILD-DEB13F15/output").
Proof.
  destruct (X10_validated_build_runs_ninja_on_expanded_labels world1
              ["//a..."; "//a/x"; "opt=1"]
              (preparedInfo world1 ["//a..."; "//a/x"; "opt=1"])
              {["a/x"; "ab/y"; "b/z"]} {["opt"]})
    as (Htr & Hex & _).
  - vm_compute. reflexivity.
  - vm_compute. reflexivity.
  - vm_compute. reflexivity.
  - done.
  - repeat (apply List.Forall_cons; [vm_compute; done|]). constructor.
  - apply List.Forall_cons; [|constructor].
    apply elem_of_singleton. vm_compute. reflexivity.
  - vm_compute. reflexivity.
  - rewrite Hex, Htr. split; vm_compute; reflexivity.
Defined.

(** X11: which error is reported. The targets are checked before the
    flags: the first target, in the order of the arguments, that does not
    resolve decides the fatal error, whatever the flags are; when every
    target resolves, the first flag of the sorted flags whose name is not
    declared decides it. *)
Theorem X11_first_unresolved_target_then_first_unknown_flag
    (w : World) (args : list string) (info : buildInfo)
    (availableTargets availableFlags : gset string) :
  exit (prepareGenerator w args) = Return info →
  exit (getAvailableTargets w info) = Return availableTargets →
  exit (getAvailableFlags w info) = Return availableFlags →
  (∀ ok target rest,
     targets info = ok ++ target :: rest →
     Forall (resolves availableTargets) ok →
     ¬ resolves availableTargets target →
     exit (runBuild w args) = Fatal (targetError target))
  ∧ (∀ known flag rest,
       targets info ≠ [] →
       Forall (resolves availableTargets) (targets info) →
       buildFlags info = known ++ flag :: rest →
       Forall (λ f, flagName f ∈ availableFlags) known →
       flagName flag ∉ availableFlags →
       exit (runBuild w args) = Fatal (FlagDoesNotExist (flagName flag))).
Proof.
  intros Hp Ht Hf.
  destruct (runBuild_after_discovery w args _ _ _ Hp Ht Hf) as [_ Hex].
  cbv zeta in Hex. split.
  - intros ok target rest Heq Hok Hn.
    rewrite decide_False in Hex by (rewrite Heq; by destruct ok).
    rewrite Hex. unfold buildRequested.
    by rewrite Heq, expandTargets_first_failure.
  - intros known flag rest Hne Hres Heq Hknown Hn.
    rewrite decide_False in Hex by (by destruct (targets info)).
    rewrite Hex. unfold buildRequested.
    rewrite expandTargets_resolved, mret_bind by done. simpl buildFlags.
    by rewrite Heq, checkFlags_first_unknown.
Qed.

Lemma X11_first_unresolved_target_then_first_unknown_flag_witness :
  exit (runBuild world1 ["//a/x"; "//nope"; "//zzz..."; "bogus=1"])
    = Fatal (TargetDoesNotExist "nope")
  ∧ exit (runBuild world1 ["//a/x"; "zz=1"; "bogus=1"; "opt=1"])
    = Fatal (FlagDoesNotExist "bogus").
Proof.
  split.
  - destruct (X11_first_unresolved_target_then_first_unknown_flag world1
                ["//a/x"; "//nope"; "//zzz..."; "bogus=1"]
                (preparedInfo world1 ["//a/x"; "//nope"; "//zzz..."; "bogus=1"])
                {["a/x"; "ab/y"; "b/z"]} {["opt"]}) as [H _];
      [vm_compute; reflexivity..|].
    apply (H ["a/x"] "nope" ["zzz..."]); [reflexivity| |vm_compute; done].
    apply List.Forall_cons; [vm_compute; done|constructor].
  - destruct (X11_first_unresolved_target_then_first_unknown_flag world1
                ["//a/x"; "zz=1"; "bogus=1"; "opt=1"]
                (preparedInfo world1 ["//a/x"; "zz=1"; "bogus=1"; "opt=1"])
                {["a/x"; "ab/y"; "b/z"]} {["opt"]}) as [_ H];
      [vm_compute; reflexivity..|].
    apply (H [] "bogus=1" ["opt=1"; "zz=1"]).
    + done.
    + apply List.Forall_cons; [vm_compute; done|constructor].
    + vm_compute. reflexivity.
    + constructor.
    + intros Hin%elem_of_singleton. vm_compute in Hin. discriminate Hin.
Defined.

(** ** Staging of a module *)

Lemma forRange_all {A S} (body : S → A → M S) (f : S → A → S)
    (ev : A → list Event) (l : list A) (s : S) :
  (∀ s x, x ∈ l → body s x = mkM (ev x) (Return (f s x))) →
  forRange body s l = mkM (l ≫= ev) (Return (fold_left f l s)).
Proof.
  revert s. induction l as [|x l IH]; intros s H; [done|].
  rewrite forRange_cons, (H s x) by by left.
  rewrite bind_unfold. simpl exit. cbv iota.
  rewrite IH by (intros; apply H; by right). done.
Qed.

Lemma forRange_Fatal_inv {A S} (body : S → A → M S) (l : list A) (s : S) e :
  exit (forRange body s l) = Fatal e →
  ∃ x s', x ∈ l ∧ exit (body s' x) = Fatal e.
Proof.
  revert s. induction l as [|x l IH]; intros s H; [done|].
  rewrite forRange_cons, bind_unfold in H.
  destruct (exit (body s x)) as [s'|e'] eqn:Hx; simpl in H.
  - destruct (IH _ H) as (y & s'' & Hy & He). exists y, s''.
    split; [by right|done].
  - injection H as ->. exists x, s. split; [by left|done].
Qed.

Lemma forRange_Return_inv {A S} (body : S → A → M S) (l : list A) (s s' : S) :
  exit (forRange body s l) = Return s' →
  ∀ x, x ∈ l → ∃ s0 s1, exit (body s0 x) = Return s1.
Proof.
  revert s. induction l as [|x l IH]; intros s H y Hy.
  - by apply elem_of_nil in Hy.
  - rewrite forRange_cons, bind_unfold in H.
    destruct (exit (body s x)) as [s1|e'] eqn:Hx; simpl in H; [|done].
    apply elem_of_cons in Hy as [->|Hy]; [eauto|by eapply IH].
Qed.

Lemma parseBuildFile_accepted (w : World) buildFile fileAst :
  ParseFile w buildFile = Some fileAst →
  Forall declAccepted (ast.Decls fileAst) →
  parseBuildFile w buildFile
  = mret (ast.Name fileAst, concat (declNames <$> ast.Decls fileAst)).
Proof.
  intros Hf Hacc. pose proof (parseBuildFile_spec buildFile w) as H.
  rewrite Hf in H. by apply H.
Qed.

Lemma parseBuildFile_Return_accepted (w : World) buildFile r :
  exit (parseBuildFile w buildFile) = Return r → buildFileAccepted w buildFile.
Proof.
  intros Hr. pose proof (parseBuildFile_spec buildFile w) as H.
  destruct (ParseFile w buildFile) as [f|] eqn:Hf; [|by rewrite H in Hr].
  exists f. split; [done|]. destruct H as [_ Hno].
  destruct (decide (Forall declAccepted (ast.Decls f))) as [|Hd]; [done|].
  destruct (Hno Hd) as (e & He & _). by rewrite He in Hr.
Qed.

Lemma parseBuildFile_Fatal (w : World) buildFile e :
  exit (parseBuildFile w buildFile) = Fatal e →
  e = FailedToParse buildFile ∨ e = InvalidDeclarations buildFile
  ∨ e = AnonymousTarget buildFile.
Proof.
  intros He. pose proof (parseBuildFile_spec buildFile w) as H.
  destruct (ParseFile w buildFile) as [f|] eqn:Hf.
  - destruct H as [Hok Hno].
    destruct (decide (Forall declAccepted (ast.Decls f))) as [Hd|Hd].
    + by rewrite (Hok Hd) in He.
    + destruct (Hno Hd) as (e' & He' & Hk). rewrite He' in He.
      injection He as <-. tauto.
  - rewrite H in He. injection He as <-. by left.
Qed.

(** [copyBuildAndRuleFiles]: the body of the loop over the build files *)
Lemma stage_body_accepted (w : World) moduleName modulePath dir packages bf :
  buildFileAccepted w bf →
  (let relativeFilePath := strings.TrimPrefix bf (modulePath +:+ "/") in
   let relativeDirPath :=
     strings.TrimSuffix (path.Dir relativeFilePath) "/" in
   let packages := packages ++ [path.Join [moduleName; relativeDirPath]] in
   '(packageName, targets) ← parseBuildFile w bf;
   _ ← emit (WriteFile (path.Join [dir; relativeDirPath; initFileName])
               (InitFile packageName targets));
   _ ← emit (CopyFile bf (path.Join [dir; relativeFilePath]));
   mret packages)
  = mkM (stagedEvents w dir modulePath bf)
        (Return (packages ++ [packageOf moduleName modulePath bf])).
Proof.
  intros (f & Hf & Hacc). cbv zeta.
  rewrite (parseBuildFile_accepted w bf f Hf Hacc), mret_bind.
  unfold stagedEvents. by rewrite Hf.
Qed.

Lemma fold_left_snoc {A B} (g : A → B) (l : list A) (acc : list B) :
  fold_left (λ acc x, acc ++ [g x]) l acc = acc ++ (g <$> l).
Proof.
  revert acc. induction l as [|x l IH]; intros acc; simpl.
  - by rewrite app_nil_r.
  - by rewrite IH, <-app_assoc.
Qed.

Lemma stage_body_exit (w : World) moduleName modulePath dir packages bf :
  exit (let relativeFilePath := strings.TrimPrefix bf (modulePath +:+ "/") in
        let relativeDirPath :=
          strings.TrimSuffix (path.Dir relativeFilePath) "/" in
        let packages := packages ++ [path.Join [moduleName; relativeDirPath]] in
        '(packageName, targets) ← parseBuildFile w bf;
        _ ← emit (WriteFile (path.Join [dir; relativeDirPath; initFileName])
                    (InitFile packageName targets));
        _ ← emit (CopyFile bf (path.Join [dir; relativeFilePath]));
        mret packages)
  = match exit (parseBuildFile w bf) with
    | Return _ => Return (packages ++ [packageOf moduleName modulePath bf])
    | Fatal e => Fatal e
    end.
Proof.
  cbv zeta. rewrite bind_unfold.
  by destruct (exit (parseBuildFile w bf)) as [[? ?]|e].
Qed.

Lemma bind_singleton {A B} (g : A → B) (l : list A) :
  l ≫= (λ x, [g x]) = g <$> l.
Proof.
  induction l as [|x l IH]; [done|].
  change ((x :: l) ≫= (λ x, [g x])) with (g x :: (l ≫= (λ x, [g x]))).
  by rewrite IH.
Qed.

Lemma copy_walk_error (w : World) moduleName modulePath dir modules :
  (WalkBuildFiles w modulePath).2 = true →
  copyBuildAndRuleFiles w moduleName modulePath dir modules
  = mkM [WriteFile (path.Join [dir; modFileName])
           (ModFile moduleName modules "..")]
        (Fatal (SearchFailed moduleName)).
Proof.
  unfold copyBuildAndRuleFiles.
  destruct (WalkBuildFiles w modulePath) as [bfs err]. simpl. by intros ->.
Qed.

Lemma copy_accepted (w : World) moduleName modulePath dir modules :
  (WalkBuildFiles w modulePath).2 = false →
  Forall (buildFileAccepted w) (WalkBuildFiles w modulePath).1 →
  copyBuildAndRuleFiles w moduleName modulePath dir modules
  = mkM (WriteFile (path.Join [dir; modFileName])
           (ModFile moduleName modules "..")
         :: ((WalkBuildFiles w modulePath).1 ≫= stagedEvents w dir modulePath)
         ++ (if DirExists w (path.Join [modulePath; RulesDirName])
             then (λ f, CopyFile f (copyFilePathOf dir modulePath f))
                    <$> (WalkRuleFiles w
                           (path.Join [modulePath; RulesDirName])).1
             else []))
        (if DirExists w (path.Join [modulePath; RulesDirName])
            && (WalkRuleFiles w (path.Join [modulePath; RulesDirName])).2
         then Fatal (CopyRulesFailed moduleName)
         else Return (packageOf moduleName modulePath
                        <$> (WalkBuildFiles w modulePath).1)).
Proof.
  unfold copyBuildAndRuleFiles.
  destruct (WalkBuildFiles w modulePath) as [bfs err]. simpl fst. simpl snd.
  intros -> Hacc.
  rewrite (forRange_all _
             (λ packages bf, packages ++ [packageOf moduleName modulePath bf])
             (stagedEvents w dir modulePath) bfs []).
  2:{ intros s x Hx. apply stage_body_accepted.
      rewrite Forall_forall in Hacc. by apply Hacc. }
  rewrite fold_left_snoc. simpl app.
  destruct (DirExists w (path.Join [modulePath; RulesDirName])).
  - destruct (WalkRuleFiles w (path.Join [modulePath; RulesDirName]))
      as [rfs rerr]. simpl fst. simpl snd.
    rewrite (forRange_all _ (λ _ _, ())
               (λ f, [CopyFile f (copyFilePathOf dir modulePath f)]) rfs ()).
    2:{ intros [] x _. done. }
    rewrite bind_singleton.
    assert (fold_left (λ (_ : ()) (_ : string), ()) rfs () = ()) as ->
      by by destruct (fold_left _ _ _).
    destruct rerr; cbn; by rewrite ?app_nil_r.
  - cbn. by rewrite app_nil_r.
Qed.

Lemma copy_rejected (w : World) moduleName modulePath dir modules :
  (WalkBuildFiles w modulePath).2 = false →
  ¬ Forall (buildFileAccepted w) (WalkBuildFiles w modulePath).1 →
  ∃ e bf,
    exit (copyBuildAndRuleFiles w moduleName modulePath dir modules) = Fatal e
    ∧ bf ∈ (WalkBuildFiles w modulePath).1
    ∧ ¬ buildFileAccepted w bf
    ∧ (e = FailedToParse bf ∨ e = InvalidDeclarations bf
       ∨ e = AnonymousTarget bf).
Proof.
  unfold copyBuildAndRuleFiles.
  destruct (WalkBuildFiles w modulePath) as [bfs err]. simpl fst. simpl snd.
  intros -> Hn.
  match goal with
  | |- context [forRange ?b [] bfs] => set (body := b)
  end.
  destruct (exit (forRange body [] bfs)) as [pk|e] eqn:Hloop.
  - destruct Hn. apply Forall_forall. intros bf Hbf.
    destruct (forRange_Return_inv body bfs [] pk Hloop bf Hbf)
      as (s0 & s1 & Hb).
    unfold body in Hb. rewrite stage_body_exit in Hb.
    destruct (exit (parseBuildFile w bf)) as [r|] eqn:Hr; [|done].
    by eapply parseBuildFile_Return_accepted.
  - destruct (forRange_Fatal_inv body bfs [] e Hloop) as (bf & s' & Hbf & Hb).
    unfold body in Hb. rewrite stage_body_exit in Hb.
    destruct (exit (parseBuildFile w bf)) as [r|e'] eqn:Hr; [done|].
    injection Hb as ->. exists e, bf. split_and!; [|done| |].
    + rewrite (exit_bind_Return _ _ ()) by done.
      by rewrite (exit_bind_Fatal _ _ e).
    + intros (f & Hf & Haccf).
      by rewrite (parseBuildFile_accepted w bf f Hf Haccf) in Hr.
    + by apply parseBuildFile_Fatal in Hr.
Qed.

Global Instance buildFileAccepted_dec (w : World) buildFile :
  Decision (buildFileAccepted w buildFile).
Proof.
  unfold buildFileAccepted.
  destruct (ParseFile w buildFile) as [f|].
  - destruct (decide (Forall declAccepted (ast.Decls f))) as [H|H].
    + left. eauto.
    + right. intros (f' & [= <-] & ?). done.
  - right. by intros (f' & ? & _).
Defined.

(** X12: staging of one module. [copyBuildAndRuleFiles] returns exactly
    when the walk over the module reports no error, every build file it
    found is accepted by the parser, and the copy of the rule files (when
    the module has a rules directory) reports no error. It then returns one
    package per build file, in the order of the walk, after writing the
    module manifest, then for each build file the glue file with the
    declared targets and the copy of the build file, then the copies of the
    rule files. No build file is skipped: a file that is not accepted is
    fatal, and the error names that file. *)
Theorem X12_module_staging_all_or_fatal
    (w : World) (moduleName modulePath dir : string) (modules : list string) :
  let buildFiles := (WalkBuildFiles w modulePath).1 in
  let rulesDir := path.Join [modulePath; RulesDirName] in
  let staged :=
    (WalkBuildFiles w modulePath).2 = false
    ∧ Forall (buildFileAccepted w) buildFiles
    ∧ (DirExists w rulesDir = true → (WalkRuleFiles w rulesDir).2 = false) in
  ((∃ packages,
      exit (copyBuildAndRuleFiles w moduleName modulePath dir modules)
      = Return packages) ↔ staged)
  ∧ (staged →
     copyBuildAndRuleFiles w moduleName modulePath dir modules
     = mkM (WriteFile (path.Join [dir; modFileName])
              (ModFile moduleName modules "..")
            :: (buildFiles ≫= stagedEvents w dir modulePath)
            ++ (if DirExists w rulesDir
                then (λ f, CopyFile f (copyFilePathOf dir modulePath f))
                       <$> (WalkRuleFiles w rulesDir).1
                else []))
           (Return (packageOf moduleName modulePath <$> buildFiles)))
  ∧ (∀ e,
       exit (copyBuildAndRuleFiles w moduleName modulePath dir modules)
       = Fatal e →
       e = SearchFailed moduleName ∨ e = CopyRulesFailed moduleName
       ∨ ∃ buildFile,
           buildFile ∈ buildFiles
           ∧ ¬ buildFileAccepted w buildFile
           ∧ (e = FailedToParse buildFile ∨ e = InvalidDeclarations buildFile
              ∨ e = AnonymousTarget buildFile)).
Proof.
  intros buildFiles rulesDir staged.
  destruct ((WalkBuildFiles w modulePath).2) eqn:Herr.
  { rewrite (copy_walk_error w moduleName modulePath dir modules Herr).
    split_and!.
    - split; [by intros [? ?]|]. by intros (? & _).
    - by intros (? & _).
    - intros e [= <-]. by left. }
  destruct (decide (Forall (buildFileAccepted w) buildFiles)) as [Hacc|Hno].
  2:{ destruct (copy_rejected w moduleName modulePath dir modules Herr Hno)
        as (e & bf & He & Hbf & Hrej & Hk).
      split_and!.
      - split; [intros [? H]; by rewrite He in H|]. by intros (_ & ? & _).
      - by intros (_ & ? & _).
      - intros e' He'. rewrite He in He'. injection He' as <-.
        right. right. by exists bf. }
  rewrite (copy_accepted w moduleName modulePath dir modules Herr Hacc).
  fold buildFiles. fold rulesDir. simpl exit.
  destruct (DirExists w rulesDir) eqn:Hdir;
    [destruct ((WalkRuleFiles w rulesDir).2) eqn:Hrerr|]; simpl.
  - split_and!.
    + split; [by intros [? ?]|]. intros (_ & _ & H). by specialize (H eq_refl).
    + intros (_ & _ & H). by specialize (H eq_refl).
    + intros e [= <-]. right. by left.
  - split_and!; [split; [|by eauto]| |done]; by intros.
  - split_and!; [split; [|by eauto]| |done]; by intros.
Qed.

Lemma X12_module_staging_all_or_fatal_witness :
  exit (copyBuildAndRuleFiles stagingWorld "mod" "/ws/mod" "/ws/BUILD/b/mod"
          ["mod"])
  = Return ["mod"; "mod/a/b"].
Proof.
  destruct (X12_module_staging_all_or_fatal stagingWorld "mod" "/ws/mod"
              "/ws/BUILD/b/mod" ["mod"]) as (_ & H & _).
  rewrite H; [vm_compute; reflexivity|].
  split_and!; [done| |done].
  repeat (apply List.Forall_cons;
          [exists exampleFile; split;
             [done|apply (bool_decide_unpack _); vm_compute; reflexivity]|]).
  apply List.Forall_nil.
Defined.

(** ** Where the files of a module are staged *)

Lemma clean_loop_nil rooted out :
  fold_left (path.cleanStep rooted) [] out = out.
Proof. reflexivity. Qed.

Lemma app_slash_not_empty s t : s +:+ String "/" t ≠ "".
Proof. by destruct s. Qed.

Lemma HasPrefix_app_byte s t c :
  s ≠ "" →
  strings.HasPrefix (s +:+ t) (String c "")
  = strings.HasPrefix s (String c "").
Proof.
  intros Hs. destruct s as [|d s]; [done|]. rewrite app_cons. simpl.
  destruct (decide (c = d)); [|done]. by rewrite !HasPrefix_empty.
Qed.

Lemma Clean_relative_names names :
  names ≠ [] → Forall isName names →
  path.Clean (strings.Join names "/") = strings.Join names "/".
Proof.
  intros Hne Hall. unfold path.Clean.
  rewrite decide_False by by apply Join_names_not_empty.
  rewrite Join_names_no_leading_slash by done. cbv zeta.
  rewrite Split_Join, (clean_loop_names false names) by done.
  rewrite app_nil_r, rev_involutive.
  by rewrite decide_False by by apply Join_names_not_empty.
Qed.

Lemma Clean_relative_slash names :
  names ≠ [] → Forall isName names →
  path.Clean (strings.Join names "/" +:+ "/") = strings.Join names "/".
Proof.
  intros Hne Hall. unfold path.Clean.
  rewrite decide_False by apply app_slash_not_empty.
  rewrite HasPrefix_app_byte by by apply Join_names_not_empty.
  rewrite Join_names_no_leading_slash by done. cbv zeta.
  change (strings.Join names "/" +:+ "/")
    with (strings.Join names "/" +:+ "/" +:+ "").
  rewrite Split_Join_slash by done.
  change (strings.Split "" "/") with [""].
  rewrite clean_loop_app, (clean_loop_names false names) by done.
  rewrite clean_loop_cons, cleanStep_empty, clean_loop_nil.
  rewrite app_nil_r, rev_involutive.
  by rewrite decide_False by by apply Join_names_not_empty.
Qed.

Lemma Clean_name_dot m : isName m → path.Clean (m +:+ "/" +:+ ".") = m.
Proof.
  intros Hm. pose proof Hm as (Hne & _ & _ & Hs). unfold path.Clean.
  change (m +:+ "/" +:+ ".") with (m +:+ String "/" ".").
  rewrite decide_False by apply app_slash_not_empty.
  rewrite HasPrefix_app_byte by done.
  pose proof (Join_names_no_leading_slash [m]) as Hp.
  change (strings.Join [m] "/") with m in Hp.
  rewrite Hp by by constructor.
  cbv zeta. rewrite Split_app_sep by done.
  change (strings.Split "." "/") with ["."].
  rewrite clean_loop_cons, cleanStep_name by done.
  rewrite clean_loop_cons, cleanStep_dot, clean_loop_nil.
  change (strings.Join (rev [m]) "/") with m.
  by rewrite decide_False.
Qed.

Lemma relativeFilePath_inside ms rel :
  ms ≠ [] → rel ≠ [] →
  relativeFilePath (absPath ms) (absPath (ms ++ rel)) = strings.Join rel "/".
Proof.
  intros. unfold relativeFilePath. rewrite absPath_app by done.
  rewrite <-app_assoc'. apply TrimPrefix_app.
Qed.

Lemma Dir_relative dirs name :
  Forall isName dirs → isName name →
  path.Dir (strings.Join (dirs ++ [name]) "/")
  = if decide (dirs = []) then "." else strings.Join dirs "/".
Proof.
  intros Hd Hn. pose proof (isName_slash_free _ Hn) as Hs.
  destruct (decide (dirs = [])) as [->|Hne].
  - change (strings.Join ([] ++ [name]) "/") with name.
    unfold path.Dir, path.Split. by rewrite LastIndexByte_none.
  - rewrite Join_app by done.
    change (strings.Join dirs "/" +:+ "/" +:+ strings.Join [name] "/")
      with (strings.Join dirs "/" +:+ String "/" name).
    unfold path.Dir. rewrite path_Split_last by done.
    by apply Clean_relative_slash.
Qed.

Lemma relativeDirPath_inside ms dirs name :
  ms ≠ [] → Forall isName dirs → isName name →
  relativeDirPath (absPath ms) (absPath (ms ++ dirs ++ [name]))
  = if decide (dirs = []) then "." else strings.Join dirs "/".
Proof.
  intros Hm Hd Hn. unfold relativeDirPath.
  rewrite relativeFilePath_inside, Dir_relative by (done || by destruct dirs).
  unfold strings.TrimSuffix.
  destruct (decide (dirs = [])) as [->|Hne]; [done|].
  by rewrite Join_names_no_final_slash.
Qed.

Lemma path_Join_merge a b c :
  a ≠ "" → b ≠ "" → c ≠ "" →
  path.Join [a; b; c] = path.Join [a; b +:+ "/" +:+ c].
Proof.
  intros Ha Hb Hc. unfold path.Join.
  rewrite !filter_cons_True, filter_nil by (done || by destruct b).
  done.
Qed.

Lemma path_Join_dot bs name :
  bs ≠ [] → Forall isName bs → isName name →
  path.Join [absPath bs; "."; name] = absPath (bs ++ [name]).
Proof.
  intros Hne Hb Hn. unfold path.Join.
  rewrite !filter_cons_True, filter_nil
    by (done || apply absPath_not_empty || apply Hn).
  change (strings.Join [absPath bs; "."; name] "/")
    with (String "/" (strings.Join bs "/" +:+ "/" +:+ ("." +:+ String "/" name))).
  rewrite Clean_rooted, Split_Join_slash, Split_app_sep by done.
  rewrite Split_no_sep by by apply isName_slash_free.
  rewrite clean_loop_app, (clean_loop_names true bs) by done.
  rewrite clean_loop_cons, cleanStep_dot.
  rewrite clean_loop_cons, cleanStep_name, clean_loop_nil by done.
  rewrite app_nil_r. simpl rev. by rewrite rev_involutive.
Qed.

(** X13: the staging tree mirrors the tree of the module. For a module at
    a clean absolute path, a file [name] found in the sub-directory [dirs]
    of the module (the module root when [dirs] is empty) belongs to the
    package named by the module name followed by [dirs]; its glue file is
    written to, and the file itself copied to, the same sub-directory
    [dirs] of the staging directory of the module. *)
Theorem X13_staging_mirrors_module_tree
    (ms bs dirs : list string) (moduleName name : string) :
  ms ≠ [] → bs ≠ [] → Forall isName bs → Forall isName dirs →
  isName moduleName → isName name →
  let modulePath := absPath ms in
  let buildFilesDir := absPath bs in
  let filePath := absPath (ms ++ dirs ++ [name]) in
  packageOf moduleName modulePath filePath
  = strings.Join (moduleName :: dirs) "/"
  ∧ initFilePathOf buildFilesDir modulePath filePath
    = absPath (bs ++ dirs ++ [initFileName])
  ∧ copyFilePathOf buildFilesDir modulePath filePath
    = absPath (bs ++ dirs ++ [name]).
Proof.
  intros Hms Hbs Hb Hd Hm Hn modulePath buildFilesDir filePath.
  assert (Forall isName (dirs ++ [name])) as Hdn
    by (apply Forall_app; split; [done|by constructor]).
  assert (isName initFileName) as Hi by done.
  unfold packageOf, initFilePathOf, copyFilePathOf, modulePath, filePath,
    buildFilesDir.
  rewrite relativeDirPath_inside by done.
  rewrite relativeFilePath_inside by (done || by destruct dirs).
  split_and!.
  - unfold path.Join.
    destruct (decide (dirs = [])) as [->|Hne].
    + rewrite !filter_cons_True, filter_nil by (done || apply Hm).
      by apply Clean_name_dot.
    + rewrite !filter_cons_True, filter_nil
        by (apply Hm || by apply Join_names_not_empty).
      change (strings.Join [moduleName; strings.Join dirs "/"] "/")
        with (moduleName +:+ "/" +:+ strings.Join dirs "/").
      rewrite <-(Join_cons moduleName dirs) by done.
      apply Clean_relative_names; [done|by constructor].
  - destruct (decide (dirs = [])) as [->|Hne].
    + by apply path_Join_dot.
    + rewrite path_Join_merge
        by (apply absPath_not_empty || done || by apply Join_names_not_empty).
      change (strings.Join dirs "/" +:+ "/" +:+ initFileName)
        with (strings.Join dirs "/" +:+ "/" +:+ strings.Join [initFileName] "/").
      rewrite <-Join_app by done.
      apply path_Join_names; try done; [by destruct dirs|].
      apply Forall_app; split; [done|by constructor].
  - apply path_Join_names; try done. by destruct dirs.
Qed.

Lemma X13_staging_mirrors_module_tree_witness :
  packageOf "mod" "/ws/mod" "/ws/mod/a/b/BUILD.go" = "mod/a/b"
  ∧ initFilePathOf "/ws/BUILD/b/mod" "/ws/mod" "/ws/mod/a/b/BUILD.go"
    = "/ws/BUILD/b/mod/a/b/init.go"
  ∧ copyFilePathOf "/ws/BUILD/b/mod" "/ws/mod" "/ws/mod/a/b/BUILD.go"
    = "/ws/BUILD/b/mod/a/b/BUILD.go".
Proof.
  apply (X13_staging_mirrors_module_tree ["ws"; "mod"] ["ws"; "BUILD"; "b"; "mod"]
           ["a"; "b"] "mod" "BUILD.go"); try done; solve_names.
Defined.

(** ** The module manifest *)

Lemma printedLines_app l1 l2 :
  printedLines (l1 ++ l2) = printedLines l1 +:+ printedLines l2.
Proof.
  induction l1 as [|x l1 IH]; [done|].
  change (printedLines ((x :: l1) ++ l2))
    with (x +:+ newline +:+ printedLines (l1 ++ l2)).
  change (printedLines (x :: l1)) with (x +:+ newline +:+ printedLines l1).
  by rewrite IH, !app_assoc'.
Qed.

Lemma modFile_loop pathPrefix modules builder :
  fold_left (λ builder modName,
      let builder :=
        builder +:+ "require " +:+ modName +:+ " v0.0.0" +:+ newline in
      builder +:+ "replace " +:+ modName +:+ " => " +:+ pathPrefix +:+ "/"
              +:+ modName +:+ newline +:+ newline)
    modules builder
  = builder +:+ printedLines (modules ≫= requireLines pathPrefix).
Proof.
  revert builder. induction modules as [|m modules IH]; intros builder.
  - by rewrite app_empty_r.
  - change ((m :: modules) ≫= requireLines pathPrefix)
      with (requireLines pathPrefix m ++ (modules ≫= requireLines pathPrefix)).
    rewrite printedLines_app. simpl fold_left. rewrite IH.
    unfold requireLines, printedLines. simpl foldr.
    by rewrite !app_assoc'.
Qed.

Lemma createModFileContent_lines moduleName modules pathPrefix :
  createModFileContent moduleName modules pathPrefix
  = printedLines (modFileLines moduleName modules pathPrefix).
Proof.
  unfold createModFileContent, modFileLines. cbv zeta.
  rewrite modFile_loop, !printedLines_app.
  generalize (printedLines (modules ≫= requireLines pathPrefix)) as middle.
  intros middle. unfold printedLines. simpl foldr.
  by rewrite !app_assoc'.
Qed.

Lemma oneLine_app a b : oneLine a → oneLine b → oneLine (a +:+ b).
Proof.
  unfold oneLine. intros Ha Hb. induction a as [|c a IH]; [done|].
  apply Contains_byte_cons in Ha as [Hc Ha]. rewrite app_cons.
  apply Contains_byte_cons_false; [done|by apply IH].
Qed.

(** X14: the module manifest, read back line by line. When the module
    name, the names of the modules and the path prefix hold no newline, the
    text of [createModFileContent] consists of these lines, each ended by a
    newline: the module line, the Go version, for every module in turn its
    [require] line and its [replace] line to the directory of that name
    under the prefix, and last the [require] and [replace] lines of dbt;
    each group is followed by one blank line. *)
Theorem X14_manifest_lines
    (moduleName : string) (modules : list string) (pathPrefix : string) :
  oneLine moduleName → Forall oneLine modules → oneLine pathPrefix →
  strings.Split (createModFileContent moduleName modules pathPrefix) "010"
  = modFileLines moduleName modules pathPrefix ++ [""]
  ∧ length (modFileLines moduleName modules pathPrefix)
    = (3 * length modules + 7)%nat
  ∧ ∀ modName, modName ∈ modules →
      ("require " +:+ modName +:+ " v0.0.0")
        ∈ modFileLines moduleName modules pathPrefix
      ∧ ("replace " +:+ modName +:+ " => " +:+ pathPrefix +:+ "/" +:+ modName)
          ∈ modFileLines moduleName modules pathPrefix.
Proof.
  intros Hm Hms Hp. split_and!.
  - rewrite createModFileContent_lines. apply Split_printedLines.
    unfold modFileLines. rewrite !Forall_app. split_and!.
    + repeat (apply List.Forall_cons;
              [first [done|by apply oneLine_app]|]).
      apply List.Forall_nil.
    + apply Forall_bind. eapply Forall_impl; [exact Hms|].
      intros m Hl. unfold requireLines.
      repeat (apply List.Forall_cons;
              [first [done|repeat (apply oneLine_app; try done)]|]).
      apply List.Forall_nil.
    + by repeat constructor.
  - unfold modFileLines. rewrite !length_app.
    assert (length (modules ≫= requireLines pathPrefix)
            = (3 * length modules)%nat) as ->.
    { clear. induction modules as [|m modules IH]; [done|].
      change ((m :: modules) ≫= requireLines pathPrefix)
        with (requireLines pathPrefix m
              ++ (modules ≫= requireLines pathPrefix)).
      rewrite length_app, IH. simpl length. lia. }
    simpl length. lia.
  - intros modName Hin. unfold modFileLines.
    rewrite !elem_of_app, !list_elem_of_bind.
    split; right; left; exists modName; (split; [|done]);
      unfold requireLines; rewrite !elem_of_cons; tauto.
Qed.

Lemma X14_manifest_lines_witness :
  strings.Split (createModFileContent "mod" ["mod"; "lib"] "..") "010"
  = ["module mod"; ""; "go 1.13"; "";
     "require mod v0.0.0"; "replace mod => ../mod"; "";
     "require lib v0.0.0"; "replace lib => ../lib"; "";
     "require dbt v0.0.0";
     "replace dbt => github.com/daedaleanai/dbt v0.1.8"; ""; ""].
Proof.
  destruct (X14_manifest_lines "mod" ["mod"; "lib"] "..") as [H _];
    [done|by repeat constructor|done|].
  exact H.
Defined.

(** ** The main file of the generator *)

Lemma Contains_byte_app a b c :
  strings.Contains a (String c "") = false →
  strings.Contains b (String c "") = false →
  strings.Contains (a +:+ b) (String c "") = false.
Proof.
  intros Ha Hb. induction a as [|d a IH]; [done|].
  apply Contains_byte_cons in Ha as [Hd Ha]. rewrite app_cons.
  apply Contains_byte_cons_false; [done|by apply IH].
Qed.

Lemma pretty_N_go_no_space (x : N) (s : string) :
  strings.Contains s " " = false →
  strings.Contains (pretty_N_go x s) " " = false.
Proof.
  revert s. induction (N.lt_wf_0 x) as [x _ IH]; intros s Hs.
  assert (x = 0 ∨ 0 < x)%N as [->|Hx] by lia.
  - by rewrite pretty_N_go_0.
  - rewrite pretty_N_go_step by done. apply IH.
    { by apply N.div_lt. }
    apply Contains_byte_cons_false; [|done].
    unfold pretty_N_char. by repeat case_match.
Qed.

Lemma pretty_nat_no_space (n : nat) :
  strings.Contains (pretty n) " " = false.
Proof.
  unfold pretty, pretty_nat, pretty, pretty_N.
  case_decide; [done|]. by apply pretty_N_go_no_space.
Qed.

Lemma app_inv_l s a b : s +:+ a = s +:+ b → a = b.
Proof.
  induction s as [|c s IH]; [done|]. rewrite !app_cons. intros [= H]. auto.
Qed.

Lemma app_inv_r s a b : a +:+ s = b +:+ s → a = b.
Proof.
  intros H. rewrite <-(TrimSuffix_app a s), <-(TrimSuffix_app b s).
  by rewrite H.
Qed.

Lemma importLine_inj i j pkg pkg' :
  importLine i pkg = importLine j pkg' → i = j ∧ pkg = pkg'.
Proof.
  unfold importLine. intros H%app_inv_l.
  change (pretty i +:+ " " +:+ quote +:+ pkg +:+ quote)
    with (pretty i +:+ String " " (quote +:+ pkg +:+ quote)) in H.
  change (pretty j +:+ " " +:+ quote +:+ pkg' +:+ quote)
    with (pretty j +:+ String " " (quote +:+ pkg' +:+ quote)) in H.
  pose proof (f_equal (λ s, strings.Split s " ") H) as Hs. simpl in Hs.
  rewrite !Split_app_sep in Hs by apply pretty_nat_no_space.
  injection Hs as Hp _. apply (inj pretty) in Hp as ->. split; [done|].
  apply app_inv_l in H. injection H as H.
  change (pkg +:+ quote = pkg' +:+ quote) in H.
  by apply app_inv_r in H.
Qed.

Lemma dbtMainLine_inj i j : dbtMainLine i = dbtMainLine j → i = j.
Proof.
  unfold dbtMainLine. intros H%app_inv_l%app_inv_r.
  by apply (inj pretty) in H.
Qed.

Lemma mainFileLines_unfold idx packages importLines dbtMainLines :
  mainFileLines idx packages importLines dbtMainLines
  = (importLines
     ++ zip_with importLine (seq idx (length packages)) packages,
     dbtMainLines ++ (dbtMainLine <$> seq idx (length packages))).
Proof.
  revert idx importLines dbtMainLines.
  induction packages as [|pkg packages IH]; intros idx il dl.
  - simpl. by rewrite !app_nil_r.
  - simpl mainFileLines. rewrite IH. simpl. by rewrite <-!app_assoc.
Qed.

(** X15: the main file of the generator. The loop of
    [createGeneratorMainFile] yields one import line and one call line per
    package, in the order of the packages: the package at index [i] is
    imported under the name p followed by [i], and the call at index [i]
    calls [DbtMain] of that name. No two import lines and no two call lines
    coincide, also when a package occurs twice. *)
Theorem X15_one_import_and_one_call_per_package (packages : list string) :
  let importLines := (mainFileLines 0 packages [] []).1 in
  let dbtMainLines := (mainFileLines 0 packages [] []).2 in
  length importLines = length packages
  ∧ length dbtMainLines = length packages
  ∧ (∀ i pkg, packages !! i = Some pkg →
       importLines !! i = Some (importLine i pkg)
       ∧ dbtMainLines !! i = Some (dbtMainLine i))
  ∧ NoDup importLines
  ∧ NoDup dbtMainLines.
Proof.
  rewrite mainFileLines_unfold. simpl fst. simpl snd. simpl app.
  split_and!.
  - rewrite length_zip_with, length_seq. lia.
  - by rewrite length_fmap, length_seq.
  - intros i pkg Hi. pose proof (lookup_lt_Some _ _ _ Hi) as Hlt. split.
    + rewrite lookup_zip_with, lookup_seq_lt, Hi by done. done.
    + by rewrite list_lookup_fmap, lookup_seq_lt.
  - apply NoDup_alt. intros i j line Hi Hj.
    apply lookup_zip_with_Some in Hi as (x & p & -> & Hx & _).
    apply lookup_zip_with_Some in Hj as (y & q & Heq & Hy & _).
    apply lookup_seq in Hx as [-> _]. apply lookup_seq in Hy as [-> _].
    apply importLine_inj in Heq as [Heq _]. lia.
  - apply NoDup_fmap_2_strong; [|apply NoDup_seq].
    intros x y _ _. apply dbtMainLine_inj.
Qed.

Lemma X15_one_import_and_one_call_per_package_witness :
  (mainFileLines 0 ["mod"; "mod/a/b"] [] []).1 !! 1%nat
  = Some (importLine 1 "mod/a/b")
  ∧ (mainFileLines 0 ["mod"; "mod/a/b"] [] []).2 !! 1%nat
    = Some (dbtMainLine 1).
Proof.
  destruct (X15_one_import_and_one_call_per_package ["mod"; "mod/a/b"])
    as (_ & _ & H & _).
  by apply H.
Defined.

(** ** Shell completion *)

Lemma SplitAfter_cons_inv s : ∃ x xs, SplitAfter s "/" = x :: xs.
Proof.
  induction s as [|c s (x & xs & IH)]; [by eexists _, _|].
  simpl. destruct (decide (c = "/"%char)); [by eexists _, _|].
  rewrite IH. by eexists _, _.
Qed.

Lemma Split_cons_inv s sep : ∃ x xs, strings.Split s sep = x :: xs.
Proof.
  induction s as [|c s (x & xs & IH)]; [by eexists _, _|].
  simpl. destruct (decide (c = sep)); [by eexists _, _|].
  rewrite IH. by eexists _, _.
Qed.

Lemma Join_empty_sep_cons c x l :
  strings.Join (String c x :: l) "" = String c (strings.Join (x :: l) "").
Proof. by destruct l. Qed.

(** the slice of [completeArgs] is in range, and joins to the text to
    complete followed by the next piece of the target *)
Lemma SplitAfter_take_prefix ttc rest :
  (length (strings.Split ttc "/")
   ≤ length (SplitAfter (ttc +:+ rest) "/"))%nat
  ∧ strings.Join
      (take (length (strings.Split ttc "/")) (SplitAfter (ttc +:+ rest) "/"))
      ""
    = ttc +:+ firstSegment rest.
Proof.
  unfold firstSegment. induction ttc as [|c ttc [IHl IHj]].
  - rewrite app_empty_l.
    destruct (SplitAfter_cons_inv rest) as (x & xs & ->).
    simpl. split; [lia|done].
  - rewrite app_cons.
    destruct (Split_cons_inv ttc "/") as (y & ys & Hy).
    destruct (SplitAfter_cons_inv (ttc +:+ rest)) as (x & xs & Hx).
    rewrite Hy, Hx in IHl, IHj. simpl in IHl.
    simpl strings.Split. simpl SplitAfter.
    destruct (decide (c = "/"%char)) as [->|Hc].
    + rewrite Hy, Hx. simpl length. split; [lia|].
      simpl take. simpl take in IHj.
      change (strings.Join ("/" :: x :: take (length ys) xs) "")
        with ("/" +:+ strings.Join (x :: take (length ys) xs) "").
      by rewrite IHj.
    + rewrite Hy, Hx. simpl length. split; [lia|].
      simpl take. simpl take in IHj.
      by rewrite Join_empty_sep_cons, IHj.
Qed.

Lemma completeTarget_unfold toComplete ttc suggestions target :
  completeTarget toComplete ttc (length (strings.Split ttc "/")) suggestions
    target
  = Some (if strings.HasPrefix target ttc
          then suggestions ++ [targetSuggestion toComplete ttc target]
          else suggestions).
Proof.
  unfold completeTarget.
  destruct (strings.HasPrefix target ttc) eqn:Hp; [|done].
  apply HasPrefix_inv in Hp as [rest ->].
  destruct (SplitAfter_take_prefix ttc rest) as [Hl Hj].
  unfold sliceTo. rewrite decide_True by done.
  simpl. rewrite Hj, TrimPrefix_app.
  unfold targetSuggestion. by rewrite drop_app.
Qed.

Lemma completeTargets_loop toComplete ttc targets suggestions :
  fold_left (λ suggestions target,
      suggestions ≫= λ suggestions,
        completeTarget toComplete ttc (length (strings.Split ttc "/"))
          suggestions target)
    targets (Some suggestions)
  = Some (suggestions
          ++ (targetSuggestion toComplete ttc
                <$> filter (λ target, strings.HasPrefix target ttc = true)
                      targets)).
Proof.
  revert suggestions.
  induction targets as [|t targets IH]; intros suggestions.
  - by rewrite app_nil_r.
  - simpl fold_left.
    change (Some suggestions ≫= ?f) with (f suggestions).
    cbv beta. rewrite completeTarget_unfold, IH.
    destruct (strings.HasPrefix t ttc) eqn:Hp.
    + rewrite filter_cons_True by done. by rewrite <-app_assoc.
    + rewrite filter_cons_False by (by rewrite Hp). done.
Qed.

Lemma completeArgs_Return (w : World) args toComplete r :
  exit (completeArgs w args toComplete) = Return r →
  ∃ info availableFlags availableTargets,
    exit (prepareGenerator w args) = Return info
    ∧ exit (getAvailableFlags w info) = Return availableFlags
    ∧ exit (getAvailableTargets w info) = Return availableTargets
    ∧ r = Some (((λ flag, flag +:+ "=") <$> elements availableFlags)
                ++ (targetSuggestion toComplete (normalizeTarget w toComplete)
                      <$> filter (λ target,
                              strings.HasPrefix target
                                (normalizeTarget w toComplete) = true)
                            (elements availableTargets))).
Proof.
  unfold completeArgs. intros H.
  apply exit_bind_Return_inv in H as (info & Hi & H).
  apply exit_bind_Return_inv in H as (aF & Hf & H). cbv zeta in H.
  apply exit_bind_Return_inv in H as (aT & Ht & H).
  exists info, aF, aT. split_and!; [done..|].
  rewrite fold_left_snoc, completeTargets_loop in H.
  simpl in H. by injection H as <-.
Qed.

(** X16: what shell completion suggests. When staging and both queries
    succeed, [completeArgs] suggests every declared flag followed by an
    equals sign, and then, for every discovered target that starts with the
    normalized text to complete, the text as typed followed by the next
    piece of the target: what follows the normalized text up to and
    including the next slash, or up to the end of the target when no slash
    follows. Targets that do not start with the normalized text give no
    suggestion. *)
Theorem X16_completion_suggests_next_segment
    (w : World) (args : list string) (toComplete : string)
    (info : buildInfo) (availableFlags availableTargets : gset string) :
  exit (prepareGenerator w args) = Return info →
  exit (getAvailableFlags w info) = Return availableFlags →
  exit (getAvailableTargets w info) = Return availableTargets →
  let targetToComplete := normalizeTarget w toComplete in
  exit (completeArgs w args toComplete)
  = Return (Some
      (((λ flag, flag +:+ "=") <$> elements availableFlags)
       ++ (targetSuggestion toComplete targetToComplete
             <$> filter (λ target,
                     strings.HasPrefix target targetToComplete = true)
                   (elements availableTargets))))
  ∧ ∀ rest,
      targetSuggestion toComplete targetToComplete (targetToComplete +:+ rest)
      = toComplete +:+ firstSegment rest
      ∧ ∃ after, rest = firstSegment rest +:+ after
          ∧ ((strings.Contains rest "/" = false ∧ after = "")
             ∨ ∃ name, firstSegment rest = name +:+ "/"
                       ∧ strings.Contains name "/" = false).
Proof.
  intros Hi Hf Ht ttc. split.
  - unfold completeArgs.
    rewrite (exit_bind_Return _ _ info) by done.
    rewrite (exit_bind_Return _ _ availableFlags) by done. cbv zeta.
    rewrite (exit_bind_Return _ _ availableTargets) by done.
    by rewrite fold_left_snoc, completeTargets_loop.
  - intros rest. split.
    { unfold targetSuggestion. by rewrite drop_app. }
    unfold firstSegment. clear. induction rest as [|c rest IH].
    + exists "". split; [done|]. by left.
    + destruct IH as (after & Hr & IH). simpl SplitAfter.
      destruct (decide (c = "/"%char)) as [->|Hc].
      * exists rest. split; [done|]. right. by exists "".
      * destruct (SplitAfter_cons_inv rest) as (x & xs & Hx).
        rewrite Hx in Hr, IH |- *. simpl hd in *.
        exists after. split; [by rewrite app_cons, <-Hr|].
        destruct IH as [[Hn ->]|(name & -> & Hn)].
        -- left. split; [|done]. by apply Contains_byte_cons_false.
        -- right. exists (String c name). split; [done|].
           by apply Contains_byte_cons_false.
Qed.

Lemma X16_completion_suggests_next_segment_witness :
  exit (completeArgs world1 [] "//a")
  = Return (Some ["opt="; "//a/"; "//ab/"]).
Proof.
  assert (Hi : ∃ info, exit (prepareGenerator world1 []) = Return info)
    by (eexists; vm_compute; reflexivity).
  destruct Hi as [info Hi].
  assert (Hf : exit (getAvailableFlags world1 info) = Return {["opt"]}).
  { vm_compute in Hi. injection Hi as <-. vm_compute. reflexivity. }
  assert (Ht : ∃ aT, exit (getAvailableTargets world1 info) = Return aT).
  { vm_compute in Hi. injection Hi as <-. eexists. vm_compute. reflexivity. }
  destruct Ht as [aT Ht].
  destruct (X16_completion_suggests_next_segment world1 [] "//a" info
              {["opt"]} aT Hi Hf Ht) as [H _].
  rewrite H. vm_compute in Hi. injection Hi as <-.
  vm_compute in Ht. injection Ht as <-. vm_compute. reflexivity.
Defined.

(** X17: shell completion never indexes out of range. Whenever
    [completeArgs] returns, the slice of the pieces of a target was taken
    within its bounds for every target, so a list of suggestions is
    returned; and it returns whenever staging and both queries do. *)
Theorem X17_completion_slice_in_range
    (w : World) (args : list string) (toComplete : string) :
  exit (completeArgs w args toComplete) ≠ Return None
  ∧ ((∃ suggestions,
        exit (completeArgs w args toComplete) = Return (Some suggestions))
     ↔ ∃ info availableFlags availableTargets,
         exit (prepareGenerator w args) = Return info
         ∧ exit (getAvailableFlags w info) = Return availableFlags
         ∧ exit (getAvailableTargets w info) = Return availableTargets).
Proof.
  split.
  - intros H. by apply completeArgs_Return in H as (? & ? & ? & _ & _ & _ & ?).
  - split.
    + intros [s H]. apply completeArgs_Return in H
        as (info & aF & aT & ? & ? & ? & _). by exists info, aF, aT.
    + intros (info & aF & aT & Hi & Hf & Ht). unfold completeArgs.
      rewrite (exit_bind_Return _ _ info) by done.
      rewrite (exit_bind_Return _ _ aF) by done. cbv zeta.
      rewrite (exit_bind_Return _ _ aT) by done.
      rewrite fold_left_snoc, completeTargets_loop. by eexists.
Qed.

(** ** Staging of the workspace *)

Lemma forRange_ext {A S} (f g : S → A → M S) (s : S) (l : list A) :
  (∀ s x, f s x = g s x) → forRange f s l = forRange g s l.
Proof.
  intros H. revert s. induction l as [|x l IH]; intros s; [done|].
  rewrite !forRange_cons, H. by apply bind_ext.
Qed.

(** a loop that appends what each element yields: it goes through, or
    stops at the first element that is fatal *)
Lemma forRange_collect {A B} (g : A → M (list B)) (l : list A)
    (acc : list B) :
  (∃ pks,
     Forall2 (λ x pk, exit (g x) = Return pk) l pks
     ∧ forRange (λ acc x, r ← g x; mret (acc ++ r)) acc l
       = mkM (l ≫= trace ∘ g) (Return (acc ++ concat pks)))
  ∨ (∃ before x after pks e,
       l = before ++ x :: after
       ∧ Forall2 (λ x pk, exit (g x) = Return pk) before pks
       ∧ exit (g x) = Fatal e
       ∧ forRange (λ acc x, r ← g x; mret (acc ++ r)) acc l
         = mkM ((before ≫= trace ∘ g) ++ trace (g x)) (Fatal e)).
Proof.
  revert acc. induction l as [|x l IH]; intros acc.
  { left. exists []. split; [constructor|]. simpl. by rewrite app_nil_r. }
  rewrite forRange_cons. destruct (exit (g x)) as [r|e] eqn:Hx.
  - assert (Hb : (g x ≫= λ r, mret (acc ++ r))
                 = mkM (trace (g x)) (Return (acc ++ r))).
    { rewrite (bind_Return _ _ r Hx). simpl. by rewrite app_nil_r. }
    rewrite Hb, bind_unfold. simpl exit. simpl trace. cbv iota.
    destruct (IH (acc ++ r)) as [(pks & Hall & ->)
                                |(before & y & after & pks & e & -> & Hall & Hy & ->)].
    + left. exists (r :: pks). split; [by constructor|].
      simpl. by rewrite <-app_assoc.
    + right. exists (x :: before), y, after, (r :: pks), e.
      split_and!; [done|by constructor|done|].
      simpl. by rewrite <-app_assoc.
  - right. exists [], x, l, [], e. split_and!; [done|constructor|done|].
    rewrite (bind_Fatal _ _ e Hx). done.
Qed.

Lemma prepareGenerator_unfold (w : World) (args : list string) :
  prepareGenerator w args
  = (let info := preparedInfo w args in
     _ ← emit (RemoveDir (buildFilesDir info));
     packages ← forRange (λ packages m,
         modulePackages ← stageModule w (buildFilesDir info) m;
         mret (packages ++ modulePackages))
       [] (GetAllModulePaths w);
     _ ← createGeneratorMainFile (buildFilesDir info) packages
           (GetAllModulePaths w).*1;
     mret info).
Proof.
  unfold prepareGenerator. cbv zeta.
  set (info0 := splitArgs w _ args).
  assert (Hrec :
    {| workingDir := workingDir info0; sourceDir := sourceDir info0;
       buildOutputDir :=
         path.Join [path.Join [GetWorkspaceRoot w; buildDirName;
                               buildConfigName (buildFlags info0)];
                    outputDirName];
       buildFilesDir :=
         path.Join [path.Join [GetWorkspaceRoot w; buildDirName;
                               buildConfigName (buildFlags info0)];
                    buildFilesDirName];
       buildFlags := strings.Sort (buildFlags info0);
       targets := targets info0;
       ninjaTargets := ninjaTargets info0 |} = preparedInfo w args).
  { unfold preparedInfo, info0.
    match goal with
    | |- context [splitArgs w ?i args] =>
        destruct (splitArgs_other w args i) as (-> & -> & ->)
    end.
    by rewrite splitArgs_buildFlags, splitArgs_targets. }
  rewrite Hrec.
  apply bind_ext. intros _.
  rewrite (forRange_ext _
             (λ packages m,
                modulePackages ← stageModule w
                                   (buildFilesDir (preparedInfo w args)) m;
                mret (packages ++ modulePackages))).
  2:{ by intros s [modName modPath]. }
  done.
Qed.

(** X18: staging of the workspace. [prepareGenerator] first removes the
    staging directory of the configuration, then stages the modules one
    after the other. When every module stages, it writes the main file of
    the generator with the packages of all modules, in the order of the
    modules, and the manifest of the root module, and returns. Otherwise it
    ends with the error of the first module that fails, right after the
    events of that module: the later modules are not touched and the main
    file is not written. *)
Theorem X18_workspace_staging_stops_at_first_failure
    (w : World) (args : list string) :
  let info := preparedInfo w args in
  let dir := buildFilesDir info in
  let modules := GetAllModulePaths w in
  let staged := λ m pk, exit (stageModule w dir m) = Return pk in
  (∃ pks,
     Forall2 staged modules pks
     ∧ prepareGenerator w args
       = mkM (RemoveDir dir
              :: (modules ≫= trace ∘ stageModule w dir)
              ++ [WriteFile (path.Join [dir; mainFileName])
                    (MainFile (concat pks));
                  WriteFile (path.Join [dir; modFileName])
                    (ModFile "root" modules.*1 ".")])
             (Return info))
  ∨ (∃ before m after pks e,
       modules = before ++ m :: after
       ∧ Forall2 staged before pks
       ∧ exit (stageModule w dir m) = Fatal e
       ∧ prepareGenerator w args
         = mkM (RemoveDir dir
                :: (before ≫= trace ∘ stageModule w dir)
                ++ trace (stageModule w dir m))
               (Fatal e)).
Proof.
  intros info dir modules staged. rewrite prepareGenerator_unfold.
  cbv zeta. fold info. fold dir. fold modules.
  destruct (forRange_collect (stageModule w dir) modules [])
    as [(pks & Hall & Hloop)
       |(before & m & after & pks & e & Hm & Hall & He & Hloop)].
  - left. exists pks. split; [done|]. rewrite Hloop.
    unfold createGeneratorMainFile. by cbn.
  - right. exists before, m, after, pks, e. split_and!; [done..|].
    rewrite Hloop. by cbn.
Qed.

Lemma X18_workspace_staging_stops_at_first_failure_witness :
  exit (prepareGenerator stagingWorld ["opt=1"; "x"])
  = Return (preparedInfo stagingWorld ["opt=1"; "x"]).
Proof.
  destruct (X18_workspace_staging_stops_at_first_failure stagingWorld
              ["opt=1"; "x"])
    as [(pks & _ & ->)|(before & m & after & pks & e & _ & _ & _ & H)].
  - reflexivity.
  - exfalso.
    assert (Hx : exit (prepareGenerator stagingWorld ["opt=1"; "x"])
                 = Fatal e) by by rewrite H.
    vm_compute in Hx. discriminate Hx.
Defined.

(** ** The earlier revision of the command (src/cmd/build.go) *)

Lemma TrimLeft_cons c s cutset :
  strings.TrimLeft (String c s) cutset
  = if strings.inCutset c cutset then strings.TrimLeft s cutset
    else String c s.
Proof. reflexivity. Qed.

Lemma TrimLeft_app_slash t :
  strings.TrimLeft (t +:+ "/") "/"
  = if decide (strings.TrimLeft t "/" = "") then ""
    else strings.TrimLeft t "/" +:+ "/".
Proof.
  induction t as [|c t IH]; [done|].
  rewrite app_cons, !TrimLeft_cons.
  destruct (strings.inCutset c "/"); [done|].
  by rewrite decide_False.
Qed.

(** X19: the two revisions normalize a target alike, except for a relative
    argument that ends in a slash or is empty: there the earlier revision
    loses the final slash when it cleans the path, and the later revision
    puts one slash back behind a result that is not empty. *)
Theorem X19_later_revision_restores_final_slash (w : World) (arg : string) :
  normalizeTarget w arg
  = if strings.HasPrefix arg "//" then rev011.normalize w arg
    else if strings.HasSuffix arg "/" || bool_decide (arg = "")
    then (if decide (rev011.normalize w arg = "") then ""
          else rev011.normalize w arg +:+ "/")
    else rev011.normalize w arg.
Proof.
  unfold normalizeTarget, rev011.normalize.
  destruct (strings.HasPrefix arg "//"); [done|]. simpl negb. cbv iota zeta.
  destruct (strings.HasSuffix arg "/" || bool_decide (arg = "")); [|done].
  apply TrimLeft_app_slash.
Qed.

Lemma rev011_splitArgs_loop (w : World) args targets buildFlags :
  fold_left (λ '(targets, buildFlags) arg,
      if strings.HasPrefix arg "--" then (targets, buildFlags ++ [arg])
      else (targets ++ [rev011.normalize w arg], buildFlags))
    args (targets, buildFlags)
  = (targets
     ++ (rev011.normalize w
           <$> filter (λ arg, strings.HasPrefix arg "--" = false) args),
     buildFlags
     ++ filter (λ arg, strings.HasPrefix arg "--" = true) args).
Proof.
  revert targets buildFlags.
  induction args as [|a args IH]; intros targets buildFlags.
  - simpl. by rewrite !app_nil_r.
  - simpl fold_left. destruct (strings.HasPrefix a "--") eqn:Hp; rewrite IH.
    + rewrite (filter_cons_False _ a) by (by rewrite Hp).
      rewrite (filter_cons_True _ a) by done. by rewrite <-app_assoc.
    + rewrite (filter_cons_True _ a) by done.
      rewrite (filter_cons_False _ a) by (by rewrite Hp).
      by rewrite fmap_cons, <-app_assoc.
Qed.

(** X20: the argument loop of the earlier revision. An argument is a build
    flag exactly when it starts with two dashes, whether or not it holds an
    equals sign; every other argument is a target and is normalized. Both
    lists keep the order of the arguments, and every argument lands in
    exactly one of them. *)
Theorem X20_earlier_revision_flags_start_with_dashes
    (w : World) (args : list string) :
  rev011.splitArgs w args
  = (rev011.normalize w
       <$> filter (λ arg, strings.HasPrefix arg "--" = false) args,
     filter (λ arg, strings.HasPrefix arg "--" = true) args)
  ∧ (length (rev011.splitArgs w args).1
     + length (rev011.splitArgs w args).2)%nat
    = length args.
Proof.
  assert (H : rev011.splitArgs w args
    = (rev011.normalize w
         <$> filter (λ arg, strings.HasPrefix arg "--" = false) args,
       filter (λ arg, strings.HasPrefix arg "--" = true) args)).
  { unfold rev011.splitArgs. by rewrite rev011_splitArgs_loop. }
  split; [done|]. rewrite H. simpl. rewrite length_fmap. clear.
  induction args as [|a args IH]; [done|].
  destruct (strings.HasPrefix a "--") eqn:Hp.
  - rewrite (filter_cons_False _ a) by (by rewrite Hp).
    rewrite (filter_cons_True _ a) by done. simpl. lia.
  - rewrite (filter_cons_True _ a) by done.
    rewrite (filter_cons_False _ a) by (by rewrite Hp). simpl. lia.
Qed.

Lemma packageOf_inside ms dirs moduleName name :
  ms ≠ [] → Forall isName dirs → isName moduleName → isName name →
  packageOf moduleName (absPath ms) (absPath (ms ++ dirs ++ [name]))
  = strings.Join (moduleName :: dirs) "/".
Proof.
  intros Hms Hd Hm Hn. unfold packageOf.
  rewrite relativeDirPath_inside by done. unfold path.Join.
  destruct (decide (dirs = [])) as [->|Hne].
  - rewrite !filter_cons_True, filter_nil by (done || apply Hm).
    by apply Clean_name_dot.
  - rewrite !filter_cons_True, filter_nil
      by (apply Hm || by apply Join_names_not_empty).
    change (strings.Join [moduleName; strings.Join dirs "/"] "/")
      with (moduleName +:+ "/" +:+ strings.Join dirs "/").
    rewrite <-(Join_cons moduleName dirs) by done.
    apply Clean_relative_names; [done|by constructor].
Qed.

Lemma Join_names_not_dot dirs :
  dirs ≠ [] → Forall isName dirs → strings.Join dirs "/" ≠ ".".
Proof.
  intros Hne Hall Heq.
  pose proof (Split_Join dirs Hne Hall) as Hs. rewrite Heq in Hs.
  change (strings.Split "." "/") with ["."] in Hs. subst dirs.
  apply Forall_inv in Hall. by destruct Hall as (_ & ? & _).
Qed.

(** X21: both revisions name the same package for a build file. For a
    module at a clean absolute path and a build file in the sub-directory
    [dirs] of it, the import line of the earlier revision imports, between
    double quotes, exactly the package that the later revision records for
    that file: the special case of the earlier revision for a build file at
    the module root agrees with what cleaning the joined path yields in the
    later one. *)
Theorem X21_import_line_names_the_package
    (ms dirs : list string) (moduleName name : string) :
  ms ≠ [] → Forall isName dirs → isName moduleName → isName name →
  let modulePath := absPath ms in
  let buildFile := absPath (ms ++ dirs ++ [name]) in
  earlier.importLine moduleName (relativeDirPath modulePath buildFile)
  = "import _ " +:+ quote +:+ packageOf moduleName modulePath buildFile
    +:+ quote.
Proof.
  intros Hms Hd Hm Hn modulePath buildFile.
  unfold modulePath, buildFile.
  rewrite packageOf_inside, relativeDirPath_inside by done.
  unfold earlier.importLine.
  destruct (decide (dirs = [])) as [->|Hne].
  - by rewrite decide_True.
  - rewrite decide_False by by apply Join_names_not_dot.
    rewrite Join_cons by done. by rewrite !app_assoc'.
Qed.

Lemma X21_import_line_names_the_package_witness :
  earlier.importLine "mod" (relativeDirPath "/ws/mod" "/ws/mod/BUILD.go")
  = "import _ " +:+ quote +:+ "mod" +:+ quote.
Proof.
  refine (X21_import_line_names_the_package ["ws"; "mod"] [] "mod"
            "BUILD.go" _ _ _ _); [done|solve_names|done|done].
Defined.

Lemma forRange_collect_all {A B} (g : A → M (list B)) (l : list A)
    (pks : list (list B)) (acc : list B) :
  Forall2 (λ x pk, exit (g x) = Return pk) l pks →
  forRange (λ acc x, r ← g x; mret (acc ++ r)) acc l
  = mkM (l ≫= trace ∘ g) (Return (acc ++ concat pks)).
Proof.
  intros Hall. revert acc.
  induction Hall as [|x pk l pks Hx _ IH]; intros acc.
  { simpl. by rewrite app_nil_r. }
  rewrite forRange_cons.
  assert (Hb : (g x ≫= λ r, mret (acc ++ r))
               = mkM (trace (g x)) (Return (acc ++ pk))).
  { rewrite (bind_Return _ _ pk Hx). simpl. by rewrite app_nil_r. }
  rewrite Hb, bind_unfold. simpl exit. simpl trace. cbv iota.
  rewrite IH. simpl. by rewrite <-app_assoc.
Qed.

Lemma earlier_runBuild_unfold (w : World) (args : list string) :
  earlier.runBuild w args
  = (let buildDir := earlier.configDir w args outputDirName in
     let buildFilesDir := earlier.configDir w args buildFilesDirName in
     _ ← emit (RemoveDir buildFilesDir);
     importLines ← forRange (λ importLines m,
         moduleImportLines ← earlier.stageModule w buildFilesDir m;
         mret (importLines ++ moduleImportLines))
       [] (GetAllModulePaths w);
     _ ← earlier.generateNinjaFile w
           (path.Join [GetWorkspaceRoot w; DepsDirName w]) buildDir
           buildFilesDir importLines (earlier.sortedFlags args)
           (GetAllModulePaths w).*1;
     earlier.runNinja w buildDir (earlier.targetsOf w args)).
Proof.
  unfold earlier.runBuild, rev011.splitArgs.
  rewrite rev011_splitArgs_loop. cbv zeta beta iota.
  change ([] ++ filter (λ arg, strings.HasPrefix arg "--" = true) args)
    with (filter (λ arg, strings.HasPrefix arg "--" = true) args).
  apply bind_ext. intros _.
  rewrite (forRange_ext _
    (λ importLines m,
       moduleImportLines ←
         earlier.stageModule w
           (earlier.configDir w args buildFilesDirName) m;
       mret (importLines ++ moduleImportLines))).
  2:{ by intros s [modName modPath]. }
  done.
Qed.

(** X22: the earlier revision builds what it is told. When every module
    stages, it runs the generator once, on the sorted flags, and prints what
    the generator wrote to standard error, followed by a newline. When the
    generator fails, that is fatal: no build graph is written and Ninja is
    not started. Otherwise it writes the standard output of the generator to
    [build.ninja] and starts Ninja on every argument that is not a flag,
    normalized, in the order given and as often as given (behind [-v] when
    verbose): no target is checked against the targets the build files
    define, and no wildcard is expanded. The command ends as Ninja does. *)
Theorem X22_earlier_revision_passes_targets_unchecked
    (w : World) (args : list string) (lines : list (list string)) :
  let buildDir := earlier.configDir w args outputDirName in
  let buildFilesDir := earlier.configDir w args buildFilesDirName in
  let modules := GetAllModulePaths w in
  let g := Run w "go" (earlier.generatorArgs w args) buildFilesDir in
  let n := Run w "ninja" (earlier.ninjaArgs w args) buildDir in
  Forall2 (λ m l, exit (earlier.stageModule w buildFilesDir m) = Return l)
    modules lines →
  earlier.runBuild w args
  = mkM (RemoveDir buildFilesDir
         :: (modules ≫= trace ∘ earlier.stageModule w buildFilesDir)
         ++ [WriteFile (path.Join [buildFilesDir; mainFileName])
               (Bytes (earlier.mainFileText (concat lines)));
             WriteFile (path.Join [buildFilesDir; modFileName])
               (ModFile "root" modules.*1 ".");
             Exec "go" (earlier.generatorArgs w args) buildFilesDir;
             Stdout (stderr g +:+ newline)]
         ++ (if failed g then []
             else [WriteFile (path.Join [buildDir; ninjaFileName])
                     (Bytes (stdout g));
                   Exec "ninja" (earlier.ninjaArgs w args) buildDir]))
        (if failed g then Fatal (GeneratorFailed "ninja")
         else if failed n then Fatal NinjaFailed else Return ()).
Proof.
  intros buildDir buildFilesDir modules g n Hall.
  rewrite earlier_runBuild_unfold. cbv zeta.
  fold buildDir. fold buildFilesDir. fold modules.
  rewrite (forRange_collect_all _ modules lines [] Hall).
  unfold earlier.generateNinjaFile, earlier.runNinja. cbv zeta.
  change (["run"; mainFileName;
           path.Join [GetWorkspaceRoot w; DepsDirName w]; buildDir]
          ++ earlier.sortedFlags args)
    with (earlier.generatorArgs w args).
  fold g.
  assert (Hargs : (if Verbose w then "-v" :: earlier.targetsOf w args
                   else earlier.targetsOf w args)
                  = earlier.ninjaArgs w args).
  { unfold earlier.ninjaArgs. by destruct (Verbose w). }
  rewrite Hargs. fold n.
  destruct (failed g); [by cbn|].
  destruct (failed n); cbn; by rewrite <-?app_assoc.
Qed.

Lemma X22_earlier_revision_passes_targets_unchecked_witness :
  exit (earlier.runBuild world1 ["--opt"; "//no/such/target"; "x..."])
  = Return ()
  ∧ earlier.ninjaArgs world1 ["--opt"; "//no/such/target"; "x..."]
    = ["no/such/target"; "mod/a/b/x..."].
Proof.
  split; [|vm_compute; reflexivity].
  assert (Hs : ∃ l,
    exit (earlier.stageModule world1
            (earlier.configDir world1
               ["--opt"; "//no/such/target"; "x..."] buildFilesDirName)
            ("mod", "/ws/mod")) = Return l)
    by (eexists; vm_compute; reflexivity).
  destruct Hs as [l Hs].
  rewrite (X22_earlier_revision_passes_targets_unchecked world1
             ["--opt"; "//no/such/target"; "x..."] [l]).
  - vm_compute. reflexivity.
  - constructor; [exact Hs|constructor].
Defined.
